(** * Smoothing convolution of [safe/gis/raster/contour.py]

    A shallow embedding of [gaussian_kernel], [tile_and_reflect], [convolve]
    and the smoothing step of [create_contour].

    Numbers.  The program computes on IEEE binary64 values.  Here a float is
    an exact rational ([Qc], canonical fractions with Leibniz equality):
    rounding and infinities are outside the model, and every tolerance of
    the program ([1e-15]) is the decimal it denotes.  [np.exp] is a
    parameter of the kernel, constrained only where a theorem needs it.  A
    NaN matters to the program in one place, the comparisons that close
    [tile_and_reflect]; that function is therefore generic in its element
    type and in the elementwise [==] ([PyEq]), which need not be reflexive.
    Python integers are [Z]; shapes and list positions are [nat].  The module
    is Python 2: [/] between integers is floor division, and [int] of a
    float truncates towards zero.

    Arrays.  A 2-D [numpy] array is its shape together with its rows.  The
    [numpy] operations used by the program are written out from their
    documented behaviour: basic slicing with clipping and negative bounds,
    integer indexing with wrap-around and [IndexError], [np.tile],
    [np.fliplr], [np.flipud], [np.array_equal], boolean-mask indexing and
    [np.sum].  An assignment [a[s] = f(a[s])] evaluates its right-hand side
    before it writes.

    Errors.  A failing [assert] and an out-of-range index abort the call;
    they are the [Raise] results of a small error monad.

    Calls.  [create_contour] is a sequence of calls to QGIS, GDAL, OGR, the
    logger and the file system around the smoothing.  Its model threads the
    list of the calls made through a second monad, in which a call returns
    or raises as the world outside the module decides. *)

From Stdlib Require Import ZArith QArith Qcanon Qround Lia String.
From stdpp Require Import base tactics option list numbers strings.

Set Default Proof Using "Type".
Local Open Scope Z_scope.

(** ** Exceptions and the error monad *)

Inductive exn : Set := AssertionError | IndexError | ValueError.

Inductive result (A : Type) : Type :=
  | Ok (x : A)
  | Raise (e : exn).
Arguments Ok {A} x.
Arguments Raise {A} e.

#[global] Instance exn_eq_dec : EqDecision exn.
Proof. solve_decision. Defined.

#[global] Instance result_eq_dec {A} `{EqDecision A} : EqDecision (result A).
Proof. solve_decision. Defined.

#[global] Instance result_ret : MRet result := λ A x, Ok x.
#[global] Instance result_bind : MBind result := λ A B f m,
  match m with Ok x => f x | Raise e => Raise e end.
#[global] Instance result_fmap : FMap result := λ A B f m,
  match m with Ok x => Ok (f x) | Raise e => Raise e end.

(** [assert (b)] *)
Definition py_assert (b : bool) : result unit :=
  if b then Ok tt else Raise AssertionError.

(** A [for] loop whose body may raise: the state is threaded through the
    iterations, the first exception ends the loop. *)
Fixpoint for_each {S X : Type} (body : S → X → result S) (xs : list X) (s : S)
  : result S :=
  match xs with
  | [] => Ok s
  | x :: xs' => s' ← body s x; for_each body xs' s'
  end.

(** [range(n)] and [range(a, b)] *)
Definition py_range (n : nat) : list Z := Z.of_nat <$> seq 0 n.
Definition py_range2 (a b : Z) : list Z :=
  (λ k, a + Z.of_nat k) <$> seq 0 (Z.to_nat (b - a)).

(** ** 2-D arrays *)

Record ndarray (A : Type) : Type := NdArray {
  shape0 : nat;
  shape1 : nat;
  data : list (list A)
}.
Arguments NdArray {A} shape0 shape1 data.
Arguments shape0 {A} _.
Arguments shape1 {A} _.
Arguments data {A} _.

#[global] Instance ndarray_eq_dec {A} `{EqDecision A} : EqDecision (ndarray A).
Proof. solve_decision. Defined.

(** The rows agree with the shape. *)
Definition wf {A} (a : ndarray A) : Prop :=
  length (data a) = shape0 a ∧ Forall (λ r, length r = shape1 a) (data a).

Definition shape {A} (a : ndarray A) : nat * nat := (shape0 a, shape1 a).

(** A slice [start:stop]; an omitted bound is [None]. *)
Record pyslice : Set := Slice { sl_start : option Z; sl_stop : option Z }.

Definition sl (a b : Z) : pyslice := Slice (Some a) (Some b).
Definition sl_from (a : Z) : pyslice := Slice (Some a) None.
Definition sl_all : pyslice := Slice None None.

(** Clipping of one bound of a slice on an axis of length [n]. *)
Definition clip_bound (n : nat) (default : Z) (b : option Z) : Z :=
  match b with
  | None => default
  | Some v => if v <? 0 then Z.max (v + Z.of_nat n) 0 else Z.min v (Z.of_nat n)
  end.

(** First position and length selected by a slice on an axis of length [n]. *)
Definition slice_lo (n : nat) (s : pyslice) : nat :=
  Z.to_nat (clip_bound n 0 (sl_start s)).
Definition slice_len (n : nat) (s : pyslice) : nat :=
  Z.to_nat (clip_bound n (Z.of_nat n) (sl_stop s) - clip_bound n 0 (sl_start s)).

(** An integer index on an axis of length [n]: negative indices count from
    the end, anything else out of range is an [IndexError]. *)
Definition norm_index (n : nat) (i : Z) : result nat :=
  if (0 <=? i) && (i <? Z.of_nat n) then Ok (Z.to_nat i)
  else if (- Z.of_nat n <=? i) && (i <? 0) then Ok (Z.to_nat (i + Z.of_nat n))
  else Raise IndexError.

(** The elementwise [==] of the elements of an array.  It need not be
    reflexive: a float NaN is not equal to itself. *)
Class PyEq (A : Type) := py_eq : A → A → bool.

#[global] Instance Qc_py_eq : PyEq Qc := λ x y, bool_decide (x = y).
#[global] Instance bool_py_eq : PyEq bool := Bool.eqb.

(** A float that may be NaN.  Only the comparisons of [tile_and_reflect]
    are stated for it; the arithmetic of [convolve] is on [Qc]. *)
Inductive float_or_nan : Type :=
  | Finite (x : Qc)
  | NaN.

#[global] Instance float_or_nan_py_eq : PyEq float_or_nan := λ a b,
  match a, b with
  | Finite x, Finite y => bool_decide (x = y)
  | _, _ => false
  end.

(** Two lists of one length, equal element by element. *)
Fixpoint all2 {A B} (f : A → B → bool) (l : list A) (k : list B) : bool :=
  match l, k with
  | [], [] => true
  | x :: l', y :: k' => f x y && all2 f l' k'
  | _, _ => false
  end.

Section arrays.
Context {A : Type}.

(** [a[rs, cs]] with two slices *)
Definition get_slice (a : ndarray A) (rs cs : pyslice) : ndarray A :=
  NdArray (slice_len (shape0 a) rs) (slice_len (shape1 a) cs)
    ((λ r, take (slice_len (shape1 a) cs) (drop (slice_lo (shape1 a) cs) r))
       <$> take (slice_len (shape0 a) rs) (drop (slice_lo (shape0 a) rs) (data a))).

(** [a[i, j]] with two integers *)
Definition get_item (a : ndarray A) (i j : Z) : result A :=
  i' ← norm_index (shape0 a) i;
  j' ← norm_index (shape1 a) j;
  match data a !! i' ≫= (.!! j') with
  | Some x => Ok x
  | None => Raise IndexError
  end.

(** [a[i, cs]]: a row, as a 1-D array *)
Definition get_row (a : ndarray A) (i : Z) (cs : pyslice) : result (list A) :=
  i' ← norm_index (shape0 a) i;
  match data a !! i' with
  | Some r => Ok (take (slice_len (shape1 a) cs) (drop (slice_lo (shape1 a) cs) r))
  | None => Raise IndexError
  end.

(** [a[rs, j]]: a column, as a 1-D array *)
Definition get_col (a : ndarray A) (rs : pyslice) (j : Z) : result (list A) :=
  j' ← norm_index (shape1 a) j;
  match mapM (.!! j')
          (take (slice_len (shape0 a) rs) (drop (slice_lo (shape0 a) rs) (data a))) with
  | Some c => Ok c
  | None => Raise IndexError
  end.

(** [a[rs, cs] = b]; the shapes must agree (no broadcasting is used). *)
Definition set_slice (a : ndarray A) (rs cs : pyslice) (b : ndarray A)
  : result (ndarray A) :=
  let r0 := slice_lo (shape0 a) rs in
  let nr := slice_len (shape0 a) rs in
  let c0 := slice_lo (shape1 a) cs in
  let nc := slice_len (shape1 a) cs in
  if bool_decide (shape b = (nr, nc)) then
    Ok (NdArray (shape0 a) (shape1 a)
          (take r0 (data a)
           ++ zip_with (λ row new, take c0 row ++ new ++ drop (c0 + nc) row)
                (take nr (drop r0 (data a))) (data b)
           ++ drop (r0 + nr) (data a)))
  else Raise ValueError.

(** [a[i, j] = x] with two non-negative positions *)
Definition set_item (a : ndarray A) (i j : nat) (x : A) : ndarray A :=
  NdArray (shape0 a) (shape1 a) (alter (<[j := x]>) i (data a)).

(** [np.tile(a, (3, 3))] *)
Definition np_tile33 (a : ndarray A) : ndarray A :=
  let wide := (λ r, r ++ r ++ r) <$> data a in
  NdArray (3 * shape0 a) (3 * shape1 a) (wide ++ wide ++ wide).

Definition np_fliplr (a : ndarray A) : ndarray A :=
  NdArray (shape0 a) (shape1 a) (reverse <$> data a).

Definition np_flipud (a : ndarray A) : ndarray A :=
  NdArray (shape0 a) (shape1 a) (reverse (data a)).

Context `{PyEq A}.

(** [np.array_equal] on 2-D and on 1-D arrays: the same shape and all
    elements equal by [==]. *)
Definition np_array_equal (a b : ndarray A) : bool :=
  bool_decide (shape a = shape b) && all2 (all2 py_eq) (data a) (data b).
Definition np_array_equal1 (a b : list A) : bool := all2 py_eq a b.

(** Body of the first loop of [tile_and_reflect]: the tiles on the sides
    of tile row [i] are flipped left-to-right. *)
Definition reflect_sides (rows cols : Z) (tiled_input : ndarray A) (i : Z)
  : result (ndarray A) :=
  (* Left hand side tiles *)
  tiled_input ← set_slice tiled_input (sl (i * rows) ((i + 1) * rows)) (sl 0 cols)
    (np_fliplr (get_slice tiled_input (sl (i * rows) ((i + 1) * rows)) (sl 0 cols)));
  (* Right hand side tiles *)
  set_slice tiled_input (sl (i * rows) ((i + 1) * rows)) (sl_from (- cols))
    (np_fliplr (get_slice tiled_input (sl (i * rows) ((i + 1) * rows)) (sl_from (- cols)))).

(** Body of the second loop: the tiles on the top and on the bottom of tile
    column [i] are flipped up-to-down. *)
Definition reflect_top_bottom (rows cols : Z) (tiled_input : ndarray A) (i : Z)
  : result (ndarray A) :=
  (* Top row *)
  tiled_input ← set_slice tiled_input (sl 0 rows) (sl (i * cols) ((i + 1) * cols))
    (np_flipud (get_slice tiled_input (sl 0 rows) (sl (i * cols) ((i + 1) * cols))));
  (* Bottom row *)
  set_slice tiled_input (sl_from (- rows)) (sl (i * cols) ((i + 1) * cols))
    (np_flipud (get_slice tiled_input (sl_from (- rows)) (sl (i * cols) ((i + 1) * cols)))).

(** [tile_and_reflect] *)
Definition tile_and_reflect (input : ndarray A) : result (ndarray A) :=
  let tiled_input := np_tile33 input in
  let rows := Z.of_nat (shape0 input) in
  let cols := Z.of_nat (shape1 input) in
  (* Now we have a 3x3 tiles - do the reflections. *)
  tiled_input ← for_each (reflect_sides rows cols) (py_range 3) tiled_input;
  tiled_input ← for_each (reflect_top_bottom rows cols) (py_range 3) tiled_input;
  (* The central array should be unchanged. *)
  py_assert (np_array_equal input
               (get_slice tiled_input (sl rows (2 * rows)) (sl cols (2 * cols))));;
  (* All sides of the middle array should be the same as those bordering
     them. *)
  top ← get_row input 0 sl_all;
  top' ← get_row tiled_input (rows - 1) (sl cols (2 * cols));
  py_assert (np_array_equal1 top top');;
  right ← get_col input sl_all (-1);
  right' ← get_col tiled_input (sl rows (2 * rows)) (2 * cols);
  py_assert (np_array_equal1 right right');;
  bottom ← get_row input (-1) sl_all;
  bottom' ← get_row tiled_input (2 * rows) (sl cols (2 * cols));
  py_assert (np_array_equal1 bottom bottom');;
  left ← get_col input sl_all 0;
  left' ← get_col tiled_input (sl rows (2 * rows)) (cols - 1);
  py_assert (np_array_equal1 left left');;
  Ok tiled_input.
End arrays.

(** ** Numeric [numpy] operations *)

Definition Qc_of_nat (n : nat) : Qc := Qc_of_Z (Z.of_nat n).

(** The literal [1e-15] *)
Definition tol : Qc := Q2Qc (1 # 1000000000000000).

(** [abs] on floats *)
Definition Qcabs (x : Qc) : Qc := if decide (x < 0)%Qc then (- x)%Qc else x.

(** [np.sum] of a 1-D array and of a 2-D array (all elements, row-major). *)
Definition np_sum1 (l : list Qc) : Qc := foldl Qcplus 0%Qc l.
Definition np_sum (a : ndarray Qc) : Qc := np_sum1 (concat (data a)).

(** Elementwise operations on arrays of one shape. *)
Definition map_array {A B} (f : A → B) (a : ndarray A) : ndarray B :=
  NdArray (shape0 a) (shape1 a) ((λ r : list A, f <$> r) <$> data a).
Definition zip_array {A B C} (f : A → B → C) (a : ndarray A) (b : ndarray B)
  : ndarray C :=
  NdArray (shape0 a) (shape1 a) (zip_with (zip_with f) (data a) (data b)).

(** [w[mask]]: the elements of [w] where the boolean array is true, as a
    1-D array in row-major order. *)
Fixpoint select {A} (bs : list bool) (xs : list A) : list A :=
  match bs, xs with
  | b :: bs', x :: xs' => if b then x :: select bs' xs' else select bs' xs'
  | _, _ => []
  end.
Definition bool_index {A} (w : ndarray A) (mask : ndarray bool) : list A :=
  select (concat (data mask)) (concat (data w)).

(** [np.sum(np.logical_not(mask))] *)
Definition count_false (mask : ndarray bool) : nat :=
  length (filter (λ b, b = false) (concat (data mask))).

(** [mask.any()] *)
Definition np_any (mask : ndarray bool) : bool :=
  existsb id (concat (data mask)).

(** [a[i, j] = x] with two integers *)
Definition set_item_at {A} (a : ndarray A) (i j : Z) (x : A) : result (ndarray A) :=
  i' ← norm_index (shape0 a) i;
  j' ← norm_index (shape1 a) j;
  Ok (set_item a i' j' x).

(** ** [convolve] *)

(** The working kernel of the masked branch, with its assertions. *)
Definition masked_weights (weights : ndarray Qc) (overlapping_mask : ndarray bool)
  : result (ndarray Qc) :=
  py_assert (bool_decide (shape overlapping_mask = shape weights));;
  (* Total value and number of weights clobbered by the mask. *)
  let clobber_total := np_sum1 (bool_index weights overlapping_mask) in
  let remaining_num := count_false overlapping_mask in
  (* This is impossible since at least i, j is not masked. *)
  py_assert (bool_decide (0 < remaining_num)%nat);;
  let correction := (clobber_total / Qc_of_nat remaining_num)%Qc in
  (* It is OK if nothing is masked - the weights will not be changed. *)
  (if decide (correction = 0%Qc)
   then py_assert (negb (np_any overlapping_mask)) else Ok tt);;
  (* Redistribute to non-masked points. *)
  let tmp_weights := weights in
  let tmp_weights :=
    zip_array (λ w (b : bool), if b then 0%Qc else w) tmp_weights overlapping_mask in
  let tmp_weights :=
    map_array (λ w, if decide (w ≠ 0%Qc) then (w + correction)%Qc else w) tmp_weights in
  (* Should be very close to 1. *)
  py_assert (bool_decide (Qcabs (np_sum tmp_weights - 1) < tol)%Qc);;
  Ok tmp_weights.

(** The weighted average at the central pixel [(i, j)] of the tiled input. *)
Definition average_at (tiled_input weights : ndarray Qc)
    (tiled_mask : option (ndarray bool)) (slow : bool) (i j : Z) : result Qc :=
  (* Stands for half weights row. *)
  let hw_row := Z.of_nat (shape0 weights) / 2 in
  let hw_col := Z.of_nat (shape1 weights) / 2 in
  let average := 0%Qc in
  if slow then
    (* Iterate over weights/kernel. *)
    for_each (λ average k,
        for_each (λ average l,
            let m := i + k - hw_row in
            let n := j + l - hw_col in
            t ← get_item tiled_input m n;
            w ← get_item weights k l;
            Ok (average + t * w)%Qc)
          (py_range (shape1 weights)) average)
      (py_range (shape0 weights)) average
  else
    (* The part of tiled_input that overlaps with the weights array. *)
    let overlapping :=
      get_slice tiled_input (sl (i - hw_row) (i + hw_row + 1))
                            (sl (j - hw_col) (j + hw_col + 1)) in
    py_assert (bool_decide (shape overlapping = shape weights));;
    tmp_weights ←
      match tiled_mask with
      | Some tiled_mask =>
          let overlapping_mask :=
            get_slice tiled_mask (sl (i - hw_row) (i + hw_row + 1))
                                 (sl (j - hw_col) (j + hw_col + 1)) in
          masked_weights weights overlapping_mask
      | None => Ok weights
      end;
    let merged := zip_array Qcmult tmp_weights overlapping in
    Ok (np_sum merged).

(** One pass of the inner loop body, at [(i, j)] of the tiled arrays and
    [(io, jo)] of the output. *)
Definition convolve_cell (tiled_input weights : ndarray Qc)
    (tiled_mask : option (ndarray bool)) (slow : bool)
    (i io j jo : Z) (output : ndarray Qc) : result (ndarray Qc) :=
  (* Skip masked points. *)
  skip ← match tiled_mask with
          | Some tiled_mask => get_item tiled_mask i j
          | None => Ok false
          end;
  if (skip : bool) then Ok output
  else
    average ← average_at tiled_input weights tiled_mask slow i j;
    (* Set new output value. *)
    set_item_at output io jo average.

Definition convolve (input weights : ndarray Qc) (mask : option (ndarray bool))
    (slow : bool) : result (ndarray Qc) :=
  (* Only one reflection is done on each side so the weights array cannot be
     bigger than width/height of input +1. *)
  py_assert (bool_decide (shape0 weights < shape0 input + 1)%nat);;
  py_assert (bool_decide (shape1 weights < shape1 input + 1)%nat);;
  tiled_mask ←
    match mask with
    | Some mask =>
        (* The slow convolve does not support masking. *)
        py_assert (negb slow);;
        py_assert (bool_decide (shape input = shape mask));;
        Some <$> tile_and_reflect mask
    | None => Ok None
    end;
  let output := input in
  tiled_input ← tile_and_reflect input;
  let rows := Z.of_nat (shape0 input) in
  let cols := Z.of_nat (shape1 input) in
  (* Now do convolution on central array. *)
  for_each (λ output '(i, io),
      for_each (λ output '(j, jo),
          convolve_cell tiled_input weights tiled_mask slow i io j jo output)
        (zip (py_range2 cols (cols * 2)) (py_range (shape1 input))) output)
    (zip (py_range2 rows (rows * 2)) (py_range (shape0 input))) output.

(** ** [gaussian_kernel] *)

(** [int(x)] on a float: truncation towards zero. *)
Definition py_int (x : Qc) : Z := Z.quot (Qnum x) (Z.pos (Qden x)).

(** [np.mgrid[a:b, c:d]]: the row coordinates and the column coordinates. *)
Definition np_mgrid (a b c d : Z) : ndarray Z * ndarray Z :=
  let xs := py_range2 a b in
  let ys := py_range2 c d in
  (NdArray (length xs) (length ys) ((λ x, (λ _, x) <$> ys) <$> xs),
   NdArray (length xs) (length ys) ((λ _, ys) <$> xs)).

Section kernel.
(** [np.exp] is a function of the library, not of this program. *)
Variable np_exp : Qc → Qc.

Definition gaussian_kernel (sigma truncate : Qc) : ndarray Qc :=
  let radius := py_int (truncate * sigma + Q2Qc (1 # 2))%Qc in
  let '(x, y) := np_mgrid (- radius) (radius + 1) (- radius) (radius + 1) in
  let sigma := (sigma * sigma)%Qc in
  let k :=
    zip_array (λ x y, 2 * np_exp (- Q2Qc (1 # 2) * Qc_of_Z (x ^ 2 + y ^ 2) / sigma))%Qc
      x y in
  let k := map_array (λ v, v / np_sum k)%Qc k in
  k.

(** ** The smoothing step of [create_contour] *)

(** The selectors of [safe.definitions.constants] are not part of the
    sources at hand; they are parameters. *)
Variables NONE_SMOOTHING NUMPY_SMOOTHING SCIPY_SMOOTHING : string.

(** From the array read from the raster to the array handed to the contour
    generator; [truncate], [mask] and [slow] take their defaults. *)
Definition smoothed_array (shakemap_array : ndarray Qc)
    (smoothing_method : string) (smoothing_sigma : Qc) : result (ndarray Qc) :=
  if decide (smoothing_method = NUMPY_SMOOTHING) then
    convolve shakemap_array (gaussian_kernel smoothing_sigma (Qc_of_Z 4)) None false
  else Ok shakemap_array.
End kernel.

(** ** [create_contour] and the libraries it calls

    The function reads a raster through QGIS and GDAL, smooths it, and
    writes contours through OGR and the file system.  Every call that leaves
    the module is an event: it is answered by a [world], which decides from
    the calls made so far whether the call returns, and what, or raises.
    The raster that [ReadAsArray] returns is taken to be a 2-D array of
    finite numbers. *)

(** The objects of QGIS, GDAL and OGR (layers, rasters, bands, drivers,
    datasources, field definitions) are opaque. *)
Definition handle : Set := nat.

Inductive field_type : Set := OFTInteger | OFTReal | OFTString.

(** The calls that leave the module, with their arguments. *)
Inductive call : Type :=
  | LayerSource                                   (* shakemap_layer.source() *)
  | GdalOpen (path : string)                      (* gdal.Open *)
  | GetRasterBand (raster_file : handle) (band : Z)
  | ReadAsArray (band : handle)
  | GetDriverByName (name : string)               (* ogr.GetDriverByName *)
  | CreateDataSource (driver : handle) (path : string)
  | CreateLayer (ogr_dataset : handle) (name : string)
  | FieldDefn (name : string) (type : field_type) (* ogr.FieldDefn *)
  | CreateField (layer field_definition : handle)
  | ContourGenerate (array : ndarray Qc) (contour_interval : Qc) (contour_base : Z)
      (fixed_level_list : list Qc) (use_no_data_flag no_data_value : Z)
      (layer : handle) (id_field elevation_field : Z)
  | LoggerException (msg : string)                (* LOGGER.exception *)
  | Release (ogr_dataset : handle)
  | ResourcesPath (directory file : string)       (* resources_path *)
  | CopyFile (src dst : string).                  (* shutil.copyfile *)

(** What a call returns.  The calls that hand out an object may hand out
    [None]; a status that the module does not look at is [unit]. *)
Definition returns (c : call) : Type :=
  match c with
  | LayerSource => string
  | GdalOpen _ => option handle
  | GetRasterBand _ _ => option handle
  | ReadAsArray _ => ndarray Qc
  | GetDriverByName _ => option handle
  | CreateDataSource _ _ => option handle
  | CreateLayer _ _ => option handle
  | FieldDefn _ _ => handle
  | CreateField _ _ => unit
  | ContourGenerate _ _ _ _ _ _ _ _ _ => unit
  | LoggerException _ => unit
  | Release _ => unit
  | ResourcesPath _ _ => string
  | CopyFile _ _ => unit
  end.

(** The exceptions of a run, and the messages of [ContourCreationError]. *)
Inductive py_exn : Type :=
  | Builtin (e : exn)                  (* raised by the smoothing *)
  | AttributeError                     (* a method of [None] *)
  | LibraryError (is_exception : bool) (id : nat)
                                       (* raised inside a call; whether it
                                          is an instance of [Exception] *)
  | ContourCreationError (message : message)
with message : Type :=
  | could_not_create_datasource (output_file_path : string)
  | str (e : py_exn).

Definition is_exception_instance (e : py_exn) : bool :=
  match e with
  | LibraryError is_exception _ => is_exception
  | _ => true
  end.

(** A call returns or raises. *)
Inductive outcome (A : Type) : Type :=
  | Returns (a : A)
  | Throws (is_exception : bool) (id : nat).
Arguments Returns {A} a.
Arguments Throws {A} is_exception id.

(** The world outside the module: what each call does, given the calls made
    before it. *)
Definition world : Type := list call → ∀ c : call, outcome (returns c).

Inductive io_result (A : Type) : Type :=
  | Done (a : A)
  | Failed (e : py_exn).
Arguments Done {A} a.
Arguments Failed {A} e.

(** A computation that makes calls: from the world and the calls made so
    far to a result and the calls made. *)
Definition io (A : Type) : Type := world → list call → io_result A * list call.

#[global] Instance io_ret : MRet io := λ A a w h, (Done a, h).
#[global] Instance io_bind : MBind io := λ A B f m w h,
  match m w h with
  | (Done a, h') => f a w h'
  | (Failed e, h') => (Failed e, h')
  end.

Definition raising {A} (e : py_exn) : io A := λ w h, (Failed e, h).

Definition invoke (c : call) : io (returns c) := λ w h,
  match w h c with
  | Returns a => (Done a, h ++ [c])
  | Throws is_exception id => (Failed (LibraryError is_exception id), h ++ [c])
  end.

(** The smoothing raises the exceptions of [convolve]. *)
Definition lift {A} (r : result A) : io A :=
  match r with
  | Ok a => mret a
  | Raise e => raising (Builtin e)
  end.

(** A method call on an object that may be [None]. *)
Definition not_none {A} (o : option A) : io A :=
  match o with
  | Some x => mret x
  | None => raising AttributeError
  end.

(** [try: body except Exception, e: handler(e)] *)
Definition try_except {A} (body : io A) (handler : py_exn → io A) : io A := λ w h,
  match body w h with
  | (Done a, h') => (Done a, h')
  | (Failed e, h') =>
      if is_exception_instance e then handler e w h' else (Failed e, h')
  end.

(** [try: body finally: final]: [final] runs in every case, and an
    exception of [final] replaces the outcome of [body]. *)
Definition try_finally {A} (body : io A) (final : io unit) : io A := λ w h,
  match body w h with
  | (r, h') =>
      match final w h' with
      | (Done _, h'') => (r, h'')
      | (Failed e, h'') => (Failed e, h'')
      end
  end.

Section create_contour.
Variable np_exp : Qc → Qc.
Variable NUMPY_SMOOTHING : string.
(** [os.path.dirname], [os.path.basename], [os.path.splitext] and
    [os.path.join] *)
Variables dirname basename : string → string.
Variable splitext : string → string * string.
Variable join : string → string → string.

(** [field_definition = ogr.FieldDefn(name, type)] and
    [layer.CreateField(field_definition)] *)
Definition create_field (layer : option handle) (name : string) (type : field_type)
  : io unit :=
  field_definition ← invoke (FieldDefn name type);
  layer ← not_none layer;
  invoke (CreateField layer field_definition).

(** [create_contour]; the defaults of the source are [output_file_path = ''],
    [active_band = 1], [smoothing_method = NUMPY_SMOOTHING] and
    [smoothing_sigma = 0.9]. *)
Definition create_contour (output_file_path : string) (active_band : Z)
    (smoothing_method : string) (smoothing_sigma : Qc) : io string :=
  (* Set output path *)
  output_file_path ←
    (if decide (output_file_path = "") then
       input_layer_path ← invoke LayerSource;
       let input_directory := dirname input_layer_path in
       let input_file_name := basename input_layer_path in
       let input_base_name := (splitext input_file_name).1 in
       mret (join input_directory (input_base_name ++ "-contour" ++ ".geojson"))
     else mret output_file_path);
  (* convert to numpy *)
  source ← invoke LayerSource;
  raster_file ← invoke (GdalOpen source);
  raster_file ← not_none raster_file;
  band ← invoke (GetRasterBand raster_file active_band);
  band ← not_none band;
  shakemap_array ← invoke (ReadAsArray band);
  (* do smoothing *)
  smoothed_array ←
    lift (smoothed_array np_exp NUMPY_SMOOTHING shakemap_array smoothing_method
            smoothing_sigma);
  (* create contour *)
  driver ← invoke (GetDriverByName "ESRI Shapefile");
  driver ← not_none driver;
  ogr_dataset ← invoke (CreateDataSource driver output_file_path);
  match ogr_dataset with
  | None =>
      (* Probably the file existed and could not be overriden *)
      raising (ContourCreationError (could_not_create_datasource output_file_path))
  | Some ogr_dataset =>
      layer ← invoke (CreateLayer ogr_dataset "contour");
      create_field layer "ID" OFTInteger;;
      create_field layer "MMI" OFTReal;;
      create_field layer "X" OFTReal;;
      create_field layer "Y" OFTReal;;
      create_field layer "RGB" OFTString;;
      create_field layer "ROMAN" OFTString;;
      create_field layer "ALIGN" OFTString;;
      create_field layer "VALIGN" OFTString;;
      create_field layer "LEN" OFTReal;;
      layer ← not_none layer;
      let contour_interval := Q2Qc (1 # 2) in
      let contour_base := 0 in
      let fixed_level_list := [] in
      let use_no_data_flag := 0 in
      let no_data_value := -9999 in
      let id_field := 0 in
      let elevation_field := 1 in
      try_finally
        (try_except
           (invoke (ContourGenerate smoothed_array contour_interval contour_base
                      fixed_level_list use_no_data_flag no_data_value layer
                      id_field elevation_field))
           (λ e, invoke (LoggerException "Contour creation failed");;
                 raising (ContourCreationError (str e))))
        (invoke (Release ogr_dataset));;
      let output_directory := dirname output_file_path in
      let output_file_name := basename output_file_path in
      let output_base_name := (splitext output_file_name).1 in
      (* Copy over the standard .prj file *)
      let projection_path := join output_directory (output_base_name ++ ".prj") in
      source_projection_path ← invoke (ResourcesPath "converter_data" "mmi-contours.prj");
      invoke (CopyFile source_projection_path projection_path);;
      (* Lastly copy over the standard qml (QGIS Style file) *)
      let qml_path := join output_directory (output_base_name ++ ".qml") in
      source_qml_path ← invoke (ResourcesPath "converter_data" "mmi-contours.qml");
      invoke (CopyFile source_qml_path qml_path);;
      mret output_file_path
  end.
End create_contour.

(** * Vocabulary of the statements *)

(** The value at position [(i, j)], if there is one. *)
Definition cell {A} (a : ndarray A) (i j : nat) : option A :=
  data a !! i ≫= (.!! j).

(** Position in the source of position [i] of a threefold repetition. *)
Definition tile_idx (n i : nat) : nat :=
  if decide (i < n)%nat then i else if decide (i < 2 * n)%nat then (i - n)%nat
  else (i - 2 * n)%nat.

(** Position in the source of position [i] of the reflected tiling. *)
Definition refl (n i : nat) : nat :=
  if decide (i < n)%nat then (n - 1 - i)%nat
  else if decide (i < 2 * n)%nat then (i - n)%nat else (3 * n - 1 - i)%nat.

(** [t] is the array [a] tiled three times each way with every outer tile
    mirrored. *)
Definition reflected {A} (a t : ndarray A) : Prop :=
  wf t ∧ shape0 t = (3 * shape0 a)%nat ∧ shape1 t = (3 * shape1 a)%nat
  ∧ ∀ i j, (i < 3 * shape0 a)%nat → (j < 3 * shape1 a)%nat →
      cell t i j = cell a (refl (shape0 a) i) (refl (shape1 a) j).

(** Every element of the array is equal to itself: no element is a NaN. *)
Definition self_equal {A} `{PyEq A} (a : ndarray A) : Prop :=
  Forall (Forall (λ x, py_eq x x = true)) (data a).

#[global] Instance self_equal_dec {A} `{PyEq A} (a : ndarray A) : Decision (self_equal a).
Proof. unfold self_equal. apply _. Defined.

(** Element types without a NaN. *)
Class PyEqRefl (A : Type) `{PyEq A} : Prop :=
  py_eq_refl : ∀ x : A, py_eq x x = true.

(** The tiled array after [k] passes of the first loop of
    [tile_and_reflect]. *)
Definition sides_done {A} (a : ndarray A) (k : nat) (t : ndarray A) : Prop :=
  wf t ∧ shape0 t = (3 * shape0 a)%nat ∧ shape1 t = (3 * shape1 a)%nat ∧
  ∀ i j, (i < 3 * shape0 a)%nat → (j < 3 * shape1 a)%nat →
    cell t i j = cell a (tile_idx (shape0 a) i)
                   (if decide (i < k * shape0 a)%nat then refl (shape1 a) j
                    else tile_idx (shape1 a) j).

(** The tiled array after [k] passes of the second loop. *)
Definition top_bottom_done {A} (a : ndarray A) (k : nat) (t : ndarray A) : Prop :=
  wf t ∧ shape0 t = (3 * shape0 a)%nat ∧ shape1 t = (3 * shape1 a)%nat ∧
  ∀ i j, (i < 3 * shape0 a)%nat → (j < 3 * shape1 a)%nat →
    cell t i j = cell a (if decide (j < k * shape1 a)%nat then refl (shape0 a) i
                         else tile_idx (shape0 a) i)
                   (refl (shape1 a) j).

(** The positions of an array, row by row. *)
Definition all_cells (r c : nat) : list (nat * nat) :=
  seq 0 r ≫= λ io, (λ jo, (io, jo)) <$> seq 0 c.

(** What one pass of the loop nest of [convolve] does with position
    [(io, jo)] of a grid of shape [(r, c)]: nothing at a masked point,
    otherwise the new value. *)
Definition cell_val (tiled_input weights : ndarray Qc)
    (tiled_mask : option (ndarray bool)) (slow : bool) (r c io jo : nat)
  : result (option Qc) :=
  skip ← match tiled_mask with
          | Some tiled_mask =>
              get_item tiled_mask (Z.of_nat r + Z.of_nat io) (Z.of_nat c + Z.of_nat jo)
          | None => Ok false
          end;
  if (skip : bool) then Ok None
  else Some <$> average_at tiled_input weights tiled_mask slow
                  (Z.of_nat r + Z.of_nat io) (Z.of_nat c + Z.of_nat jo).

Definition write_val (tiled_input weights : ndarray Qc)
    (tiled_mask : option (ndarray bool)) (slow : bool) (r c : nat)
    (output : ndarray Qc) (p : nat * nat) : result (ndarray Qc) :=
  match cell_val tiled_input weights tiled_mask slow r c p.1 p.2 with
  | Raise e => Raise e
  | Ok None => Ok output
  | Ok (Some v) => Ok (set_item output p.1 p.2 v)
  end.

(** The window of pixel [(io, jo)] in a tiled array:
    [a[i - hw_row:i + hw_row + 1, j - hw_col:j + hw_col + 1]]. *)
Definition window_of {A} (w : ndarray Qc) (r c io jo : nat) (a : ndarray A)
  : ndarray A :=
  get_slice a
    (sl (Z.of_nat r + Z.of_nat io - Z.of_nat (shape0 w) / 2)
        (Z.of_nat r + Z.of_nat io + Z.of_nat (shape0 w) / 2 + 1))
    (sl (Z.of_nat c + Z.of_nat jo - Z.of_nat (shape1 w) / 2)
        (Z.of_nat c + Z.of_nat jo + Z.of_nat (shape1 w) / 2 + 1)).

(** The sum of products that both modes compute at a pixel. *)
Definition weighted_sum (t w : ndarray Qc) (r c io jo : nat) : Qc :=
  np_sum (zip_array Qcmult w (window_of w r c io jo t)).

(** A mask without a masked point. *)
Definition all_false (m : ndarray bool) : Prop :=
  Forall (Forall (λ b, b = false)) (data m).

(** The array [tmp_weights] of the masked branch. *)
Definition working_kernel (weights : ndarray Qc) (overlapping_mask : ndarray bool)
  : ndarray Qc :=
  let correction :=
    (np_sum1 (bool_index weights overlapping_mask)
     / Qc_of_nat (count_false overlapping_mask))%Qc in
  map_array (λ w, if decide (w ≠ 0%Qc) then (w + correction)%Qc else w)
    (zip_array (λ w (b : bool), if b then 0%Qc else w) weights overlapping_mask).

(** [weights[~mask]]: the weights at the points that are not masked. *)
Definition unmasked_weights (weights : ndarray Qc) (mask : ndarray bool) : list Qc :=
  select (negb <$> concat (data mask)) (concat (data weights)).

(** Every element of the array is [v]. *)
Definition constant {A} (v : A) (a : ndarray A) : Prop :=
  Forall (Forall (λ x, x = v)) (data a).

(** The radius of the kernel. *)
Definition kernel_radius (sigma truncate : Qc) : Z :=
  py_int (truncate * sigma + Q2Qc (1 # 2))%Qc.

(** The weight at offset [(x, y)] from the centre, before normalisation. *)
Definition gauss (np_exp : Qc → Qc) (sigma : Qc) (x y : Z) : Qc :=
  (2 * np_exp (- Q2Qc (1 # 2) * Qc_of_Z (x ^ 2 + y ^ 2) / (sigma * sigma)))%Qc.

(** The offsets along one axis, [-radius .. radius]. *)
Definition offsets (radius : Z) : list Z := py_range2 (- radius) (radius + 1).

(** The array [k] before the division by its sum. *)
Definition unnormalized (np_exp : Qc → Qc) (sigma truncate : Qc) : ndarray Qc :=
  let xs := offsets (kernel_radius sigma truncate) in
  NdArray (length xs) (length xs) ((λ x, gauss np_exp sigma x <$> xs) <$> xs).

(** Position in an axis of length [n] of position [p] of the same axis
    continued by reflection at both ends, for [-n ≤ p < 2 * n]. *)
Definition mirror (n : nat) (p : Z) : nat :=
  if decide (p < 0) then Z.to_nat (- p - 1)
  else if decide (p < Z.of_nat n) then Z.to_nat p
  else Z.to_nat (2 * Z.of_nat n - 1 - p).

(** The [K] by [L] pixels around pixel [(io, jo)] of an array continued by
    reflection: the pixel is at [(K / 2, L / 2)].  When [K] and [L] are at
    most the dimensions of the array every cell that is read exists, and
    [omap] keeps them all. *)
Definition neighbourhood {A} (a : ndarray A) (K L io jo : nat) : ndarray A :=
  NdArray K L
    ((λ k : nat,
        omap (λ l : nat,
                cell a (mirror (shape0 a) (Z.of_nat io + Z.of_nat k - Z.of_nat K / 2))
                       (mirror (shape1 a) (Z.of_nat jo + Z.of_nat l - Z.of_nat L / 2)))
          (seq 0 L))
       <$> seq 0 K).

(** The value that [convolve] gives to pixel [(io, jo)] without a mask. *)
Definition convolution_at (g w : ndarray Qc) (io jo : nat) : Qc :=
  np_sum (zip_array Qcmult w (neighbourhood g (shape0 w) (shape1 w) io jo)).

(** The value that [convolve] gives to a pixel that is not masked. *)
Definition masked_convolution_at (g w : ndarray Qc) (m : ndarray bool) (io jo : nat) : Qc :=
  np_sum (zip_array Qcmult
            (working_kernel w (neighbourhood m (shape0 w) (shape1 w) io jo))
            (neighbourhood g (shape0 w) (shape1 w) io jo)).

(** The tiled mask of a call whose assertions on the mask pass. *)
Definition tiled_mask_of (g : ndarray Qc) (mask : option (ndarray bool)) (slow : bool)
    (tiled_mask : option (ndarray bool)) : Prop :=
  match mask with
  | Some m => slow = false ∧ shape g = shape m
              ∧ ∃ tm, tile_and_reflect m = Ok tm ∧ tiled_mask = Some tm
  | None => tiled_mask = None
  end.

(** Two results are the same error, or two values that [R] relates. *)
Definition same_outcome {X Y} (R : X → Y → Prop) (a : result X) (b : result Y) : Prop :=
  match a, b with
  | Ok x, Ok y => R x y
  | Raise e, Raise e' => e = e'
  | _, _ => False
  end.

(** Every element of the array has the property. *)
Definition all_elements {A} (P : A → Prop) (a : ndarray A) : Prop :=
  Forall (Forall P) (data a).

(** The combination [a * x + b * y], pixel by pixel. *)
Definition combine (a b : Qc) (g1 g2 : ndarray Qc) : ndarray Qc :=
  zip_array (λ x y, a * x + b * y)%Qc g1 g2.

(** Kinds of calls. *)
Definition is_release (c : call) : bool :=
  match c with Release _ => true | _ => false end.
Definition is_contour_generate (c : call) : bool :=
  match c with ContourGenerate _ _ _ _ _ _ _ _ _ => true | _ => false end.
Definition is_copy_file (c : call) : bool :=
  match c with CopyFile _ _ => true | _ => false end.
(** The calls that read the raster. *)
Definition is_read (c : call) : bool :=
  match c with
  | LayerSource | GdalOpen _ | GetRasterBand _ _ | ReadAsArray _ => true
  | _ => false
  end.

(** The calls of a run that satisfy [p], in the order of the run. *)
Definition calls_of (p : call → bool) (h : list call) : list call := List.filter p h.

(** ** Concrete inputs *)

Definition q (n : Z) (d : positive) : Qc := Q2Qc (n # d).

Definition grid_124 : ndarray Qc := NdArray 1 3 [[q 1 1; q 2 1; q 4 1]].
Definition grid_555 : ndarray Qc := NdArray 1 3 [[q 5 1; q 5 1; q 5 1]].
Definition grid_12 : ndarray Qc := NdArray 1 2 [[q 1 1; q 2 1]].
Definition grid_2x2 : ndarray Qc := NdArray 2 2 [[q 1 1; q 2 1]; [q 3 1; q 4 1]].
Definition grid_1x1 : ndarray Qc := NdArray 1 1 [[q 1 1]].
Definition grid_0x3 : ndarray Qc := NdArray 0 3 [].
Definition grid_nan : ndarray float_or_nan := NdArray 1 1 [[NaN]].

(** Weights [0, 0.5, 0.5]: they sum to 1 and one of them is zero. *)
Definition kernel_0hh : ndarray Qc := NdArray 1 3 [[q 0 1; q 1 2; q 1 2]].
(** Weights [0.25, 0.5, 0.25]. *)
Definition kernel_qhq : ndarray Qc := NdArray 1 3 [[q 1 4; q 1 2; q 1 4]].
(** A kernel with even dimensions, four weights [0.25]. *)
Definition kernel_2x2 : ndarray Qc := NdArray 2 2 [[q 1 4; q 1 4]; [q 1 4; q 1 4]].
(** One weight [1 + 2^-40]: it is 1 within [1e-12] and not within [1e-15]. *)
Definition kernel_near_1 : ndarray Qc := NdArray 1 1 [[q 1099511627777 1099511627776]].

Definition mask_fft : ndarray bool := NdArray 1 3 [[false; false; true]].
Definition mask_fff : ndarray bool := NdArray 1 3 [[false; false; false]].
Definition mask_f : ndarray bool := NdArray 1 1 [[false]].

(** The tiling of [grid_12]. *)
Definition tiled_12 : ndarray Qc :=
  NdArray 3 6 [[q 2 1; q 1 1; q 1 1; q 2 1; q 2 1; q 1 1];
               [q 2 1; q 1 1; q 1 1; q 2 1; q 2 1; q 1 1];
               [q 2 1; q 1 1; q 1 1; q 2 1; q 2 1; q 1 1]].
Definition grid_127 : ndarray Qc := NdArray 1 3 [[q 1 1; q 2 1; q 7 1]].
Definition grid_3x3 : ndarray Qc :=
  NdArray 3 3 [[q 1 1; q 2 1; q 3 1]; [q 4 1; q 5 1; q 6 1]; [q 7 1; q 8 1; q 9 1]].
Definition grid_flat_3x3 : ndarray Qc :=
  NdArray 3 3 [[q 5 1; q 5 1; q 5 1]; [q 5 1; q 5 1; q 5 1]; [q 5 1; q 5 1; q 5 1]].
(** Two weights [1]: an even number of columns, and a sum that is not 1. *)
Definition kernel_11 : ndarray Qc := NdArray 1 2 [[q 1 1; q 1 1]].
Definition mask_ttt : ndarray bool := NdArray 1 3 [[true; true; true]].
Definition mask_3x3 : ndarray bool :=
  NdArray 3 3 [[false; true; false]; [false; false; false]; [true; false; false]].

(** A world in which every call returns: the raster is [g], the layer is
    the file [/maps/shake.tif]. *)
Definition quiet_world (g : ndarray Qc) : world := λ _ c,
  match c return outcome (returns c) with
  | LayerSource => Returns "/maps/shake.tif"
  | GdalOpen _ => Returns (Some 1%nat)
  | GetRasterBand _ _ => Returns (Some 2%nat)
  | ReadAsArray _ => Returns g
  | GetDriverByName _ => Returns (Some 3%nat)
  | CreateDataSource _ _ => Returns (Some 4%nat)
  | CreateLayer _ _ => Returns (Some 5%nat)
  | FieldDefn _ _ => Returns 6%nat
  | CreateField _ _ => Returns tt
  | ContourGenerate _ _ _ _ _ _ _ _ _ => Returns tt
  | LoggerException _ => Returns tt
  | Release _ => Returns tt
  | ResourcesPath _ file => Returns file
  | CopyFile _ _ => Returns tt
  end.

(** The same world, except that the driver creates no datasource. *)
Definition world_without_datasource (g : ndarray Qc) : world := λ h c,
  match c return outcome (returns c) with
  | CreateDataSource _ _ => Returns None
  | c => quiet_world g h c
  end.

(** Stand-ins for the functions of [os.path]. *)
Definition dirname_maps (path : string) : string := "/maps".
Definition basename_same (path : string) : string := path.
Definition splitext_none (name : string) : string * string := (name, "").
Definition join_slash (directory name : string) : string := directory ++ "/" ++ name.

(** A rational function with the two properties of [np.exp] that the
    theorems on the kernel use: it is nowhere negative and it is 1 at 0. *)
Definition rational_exp (x : Qc) : Qc :=
  if decide (x ≤ 0)%Qc then (1 / (1 - x))%Qc else (1 + x)%Qc.

(** * Lemmas and theorems *)

(** A closed equation between results is settled by evaluation. *)
Ltac by_evaluation := apply (bool_decide_unpack _); vm_compute; exact I.

(** ** Indices and slices *)

Lemma norm_index_in n i :
  0 ≤ i < Z.of_nat n → norm_index n i = Ok (Z.to_nat i).
Proof.
  intros Hi. unfold norm_index.
  destruct (0 <=? i) eqn:E1; [|lia]. destruct (i <? Z.of_nat n) eqn:E2; [done|lia].
Qed.

Lemma norm_index_out n i :
  ¬ (- Z.of_nat n ≤ i < Z.of_nat n) → norm_index n i = Raise IndexError.
Proof.
  intros Hi. unfold norm_index.
  destruct (0 <=? i) eqn:E1, (i <? Z.of_nat n) eqn:E2,
    (- Z.of_nat n <=? i) eqn:E3, (i <? 0) eqn:E4; simpl; try done; lia.
Qed.

Lemma slice_lo_le n s : (slice_lo n s ≤ n)%nat.
Proof.
  unfold slice_lo, clip_bound. destruct (sl_start s) as [v|]; [|lia].
  destruct (v <? 0) eqn:E; lia.
Qed.

Lemma slice_hi_le n s : (slice_lo n s + slice_len n s ≤ n)%nat.
Proof.
  unfold slice_lo, slice_len, clip_bound.
  destruct (sl_start s) as [v|], (sl_stop s) as [w|];
    repeat match goal with |- context [?x <? 0] => destruct (x <? 0) eqn:? end; lia.
Qed.

Lemma slice_sl n a b :
  0 ≤ a ≤ b → b ≤ Z.of_nat n →
  slice_lo n (sl a b) = Z.to_nat a ∧ slice_len n (sl a b) = Z.to_nat (b - a).
Proof.
  intros Ha Hb. unfold slice_lo, slice_len, sl, clip_bound. simpl.
  destruct (a <? 0) eqn:E1; [lia|]. destruct (b <? 0) eqn:E2; [lia|]. lia.
Qed.

Lemma slice_from_neg c :
  slice_lo (3 * c) (sl_from (- Z.of_nat c)) = (2 * c)%nat
  ∧ slice_len (3 * c) (sl_from (- Z.of_nat c)) = c.
Proof.
  unfold slice_lo, slice_len, sl_from, clip_bound. simpl.
  repeat case_match; lia.
Qed.

Lemma slice_all n : slice_lo n sl_all = 0%nat ∧ slice_len n sl_all = n.
Proof. unfold slice_lo, slice_len, sl_all, clip_bound; simpl. lia. Qed.

(** ** Cells *)

Lemma wf_row {A} (a : ndarray A) i r :
  wf a → data a !! i = Some r → length r = shape1 a.
Proof. intros [_ Hr] Hi. by eapply (Forall_lookup_1 _ _ _ _ Hr Hi). Qed.

Lemma cell_is_Some {A} (a : ndarray A) i j :
  wf a → (i < shape0 a)%nat → (j < shape1 a)%nat → is_Some (cell a i j).
Proof.
  intros Hwf Hi Hj. unfold cell.
  destruct (lookup_lt_is_Some_2 (data a) i) as [r Hr]; [destruct Hwf; lia|].
  rewrite Hr. simpl. apply lookup_lt_is_Some_2. rewrite (wf_row a i r); done.
Qed.

Lemma cell_None {A} (a : ndarray A) i j :
  wf a → ¬ ((i < shape0 a)%nat ∧ (j < shape1 a)%nat) → cell a i j = None.
Proof.
  intros Hwf Hij. unfold cell.
  destruct (data a !! i) as [r|] eqn:Hr; [|done]. simpl.
  apply lookup_ge_None_2. rewrite (wf_row a i r) by done.
  apply lookup_lt_Some in Hr. destruct Hwf. lia.
Qed.

(** Two well-formed arrays of one shape with the same cells are equal. *)
Lemma array_ext {A} (a b : ndarray A) :
  wf a → wf b → shape a = shape b →
  (∀ i j, (i < shape0 a)%nat → (j < shape1 a)%nat → cell a i j = cell b i j) →
  a = b.
Proof.
  destruct a as [r c d], b as [r' c' d']. unfold shape; simpl.
  intros [Hl Hr] [Hl' Hr'] [= <- <-] Hc. simpl in *. f_equal.
  apply list_eq. intros i.
  destruct (decide (i < r)%nat) as [Hi|Hi].
  - destruct (lookup_lt_is_Some_2 d i) as [x Hx]; [lia|].
    destruct (lookup_lt_is_Some_2 d' i) as [y Hy]; [lia|].
    rewrite Hx, Hy. f_equal. apply list_eq. intros j.
    pose proof (Forall_lookup_1 _ _ _ _ Hr Hx) as Lx.
    pose proof (Forall_lookup_1 _ _ _ _ Hr' Hy) as Ly. simpl in *.
    destruct (decide (j < c)%nat) as [Hj|Hj].
    + specialize (Hc i j Hi Hj). unfold cell in Hc. simpl in Hc.
      by rewrite Hx, Hy in Hc.
    + rewrite !lookup_ge_None_2; [done|lia|lia].
  - rewrite !lookup_ge_None_2; [done|lia|lia].
Qed.

Lemma wf_get_slice {A} (a : ndarray A) rs cs : wf a → wf (get_slice a rs cs).
Proof.
  intros [Hl Hr]. pose proof (slice_hi_le (shape0 a) rs). pose proof (slice_hi_le (shape1 a) cs).
  split; simpl.
  - rewrite length_fmap, length_take, length_drop. lia.
  - apply Forall_fmap, Forall_take, Forall_drop.
    eapply Forall_impl; [exact Hr|]. intros r Hlen. simpl in *.
    rewrite length_take, length_drop. lia.
Qed.

Lemma cell_get_slice {A} (a : ndarray A) rs cs i j :
  cell (get_slice a rs cs) i j =
    if decide ((i < slice_len (shape0 a) rs)%nat ∧ (j < slice_len (shape1 a) cs)%nat)
    then cell a (slice_lo (shape0 a) rs + i) (slice_lo (shape1 a) cs + j)
    else None.
Proof.
  unfold cell, get_slice. simpl.
  rewrite list_lookup_fmap, lookup_take, lookup_drop.
  destruct (decide (_ ∧ _)) as [[Hi Hj]|Hd].
  - rewrite decide_True by done.
    destruct (data a !! _) as [r|]; [|done]. simpl.
    rewrite lookup_take, lookup_drop. by rewrite decide_True.
  - destruct (decide (i < _)%nat); [|done].
    destruct (data a !! _) as [r|]; [|done]. simpl.
    rewrite lookup_take. rewrite decide_False; [done|]. tauto.
Qed.

Lemma cell_fliplr {A} (a : ndarray A) i j :
  wf a → (j < shape1 a)%nat →
  cell (np_fliplr a) i j = cell a i (shape1 a - 1 - j).
Proof.
  intros Hwf Hj. unfold cell, np_fliplr. simpl. rewrite list_lookup_fmap.
  destruct (data a !! i) as [r|] eqn:Hr; [|done]. simpl.
  pose proof (wf_row a i r Hwf Hr) as Hlen.
  rewrite reverse_lookup by lia. f_equal. lia.
Qed.

Lemma cell_flipud {A} (a : ndarray A) i j :
  wf a → (i < shape0 a)%nat →
  cell (np_flipud a) i j = cell a (shape0 a - 1 - i) j.
Proof.
  intros [Hl _] Hi. unfold cell, np_flipud. simpl.
  rewrite reverse_lookup by lia. do 2 f_equal. lia.
Qed.

Lemma wf_fliplr {A} (a : ndarray A) : wf a → wf (np_fliplr a).
Proof.
  intros [Hl Hr]. split; simpl; [by rewrite length_fmap|].
  apply Forall_fmap. eapply Forall_impl; [exact Hr|]. intros r. simpl.
  by rewrite length_reverse.
Qed.

Lemma wf_flipud {A} (a : ndarray A) : wf a → wf (np_flipud a).
Proof.
  intros [Hl Hr]. split; simpl; [by rewrite length_reverse|].
  by apply Forall_reverse.
Qed.

(** ** Assignment to a block *)

Lemma lookup_splice {X} (l mid : list X) lo n i :
  (lo + n ≤ length l)%nat → length mid = n →
  (take lo l ++ mid ++ drop (lo + n) l) !! i =
    if decide (lo ≤ i < lo + n)%nat then mid !! (i - lo)%nat else l !! i.
Proof.
  intros Hl Hm. rewrite lookup_app, lookup_take.
  destruct (decide (i < lo)%nat) as [Hi|Hi].
  - rewrite decide_False by lia.
    destruct (l !! i) eqn:E; [done|]. apply lookup_ge_None_1 in E. lia.
  - rewrite length_take_le by lia. rewrite lookup_app.
    destruct (decide (lo ≤ i < lo + n)%nat) as [Hin|Hout].
    + destruct (lookup_lt_is_Some_2 mid (i - lo)) as [x Hx]; [lia|]. by rewrite Hx.
    + rewrite lookup_ge_None_2 by lia. rewrite lookup_drop. f_equal. lia.
Qed.

Lemma set_slice_spec {A} (a b : ndarray A) rs cs :
  wf a → wf b →
  shape b = (slice_len (shape0 a) rs, slice_len (shape1 a) cs) →
  ∃ a', set_slice a rs cs b = Ok a' ∧ wf a' ∧
    shape0 a' = shape0 a ∧ shape1 a' = shape1 a ∧
    ∀ i j, cell a' i j =
      if decide ((slice_lo (shape0 a) rs ≤ i
                  < slice_lo (shape0 a) rs + slice_len (shape0 a) rs)%nat
               ∧ (slice_lo (shape1 a) cs ≤ j
                  < slice_lo (shape1 a) cs + slice_len (shape1 a) cs)%nat)
      then cell b (i - slice_lo (shape0 a) rs) (j - slice_lo (shape1 a) cs)
      else cell a i j.
Proof.
  intros Hwa Hwb Hsh. unfold set_slice. rewrite bool_decide_eq_true_2 by done.
  pose proof (slice_hi_le (shape0 a) rs) as Hr.
  pose proof (slice_hi_le (shape1 a) cs) as Hc.
  set (r0 := slice_lo (shape0 a) rs) in *. set (nr := slice_len (shape0 a) rs) in *.
  set (c0 := slice_lo (shape1 a) cs) in *. set (nc := slice_len (shape1 a) cs) in *.
  destruct Hwa as [Hla Hra]. destruct Hwb as [Hlb Hrb].
  injection Hsh as Hb0 Hb1. rewrite Hb0 in Hlb.
  set (g := λ row new : list A, take c0 row ++ new ++ drop (c0 + nc) row).
  assert (Hzl : length (zip_with g (take nr (drop r0 (data a))) (data b)) = nr).
  { rewrite length_zip_with, length_take, length_drop. lia. }
  assert (Hcells : ∀ i, (take r0 (data a) ++ zip_with g (take nr (drop r0 (data a))) (data b)
                     ++ drop (r0 + nr) (data a)) !! i =
     if decide (r0 ≤ i < r0 + nr)%nat
     then x ← data a !! i; y ← data b !! (i - r0)%nat; Some (g x y)
     else data a !! i).
  { intros i. rewrite lookup_splice by (done || lia).
    case_decide as Hi; [|done].
    rewrite lookup_zip_with, lookup_take, lookup_drop.
    rewrite decide_True by lia. do 2 f_equal. lia. }
  eexists. split; [done|]. split; [|split; [done|split; [done|]]].
  - split; simpl.
    + rewrite !length_app, Hzl, length_take, length_drop. lia.
    + apply Forall_lookup_2. intros i x Hx. rewrite Hcells in Hx.
      case_decide as Hi.
      * destruct (data a !! i) as [ra|] eqn:Ea; [|done].
        destruct (data b !! (i - r0)%nat) as [rb|] eqn:Eb; [|done].
        simpl in Hx. injection Hx as <-.
        pose proof (Forall_lookup_1 _ _ _ _ Hra Ea) as La.
        pose proof (Forall_lookup_1 _ _ _ _ Hrb Eb) as Lb. simpl in La, Lb.
        unfold g. rewrite !length_app, length_take, length_drop. lia.
      * by apply (Forall_lookup_1 _ _ _ _ Hra Hx).
  - intros i j. unfold cell at 1. simpl. rewrite Hcells.
    destruct (decide (r0 ≤ i < r0 + nr)%nat) as [Hi|Hi].
    + destruct (lookup_lt_is_Some_2 (data a) i) as [ra Ea]; [lia|].
      destruct (lookup_lt_is_Some_2 (data b) (i - r0)) as [rb Eb]; [lia|].
      rewrite Ea, Eb. simpl.
      pose proof (Forall_lookup_1 _ _ _ _ Hra Ea) as La.
      pose proof (Forall_lookup_1 _ _ _ _ Hrb Eb) as Lb. simpl in La, Lb.
      unfold g. rewrite lookup_splice by lia.
      destruct (decide (c0 ≤ j < c0 + nc)%nat) as [Hj|Hj].
      * rewrite decide_True by done. unfold cell. by rewrite Eb.
      * rewrite decide_False by tauto. unfold cell. by rewrite Ea.
    + rewrite decide_False by tauto. done.
Qed.

Lemma assign_fliplr {A} (a : ndarray A) rs cs :
  wf a →
  ∃ a', set_slice a rs cs (np_fliplr (get_slice a rs cs)) = Ok a' ∧ wf a' ∧
    shape0 a' = shape0 a ∧ shape1 a' = shape1 a ∧
    ∀ i j, cell a' i j =
      if decide ((slice_lo (shape0 a) rs ≤ i
                  < slice_lo (shape0 a) rs + slice_len (shape0 a) rs)%nat
               ∧ (slice_lo (shape1 a) cs ≤ j
                  < slice_lo (shape1 a) cs + slice_len (shape1 a) cs)%nat)
      then cell a i (2 * slice_lo (shape1 a) cs + slice_len (shape1 a) cs - 1 - j)
      else cell a i j.
Proof.
  intros Hwf.
  destruct (set_slice_spec a (np_fliplr (get_slice a rs cs)) rs cs)
    as (a' & Ha' & Hwf' & H0 & H1 & Hc); [done|by apply wf_fliplr, wf_get_slice|done|].
  exists a'. do 4 (split; [done|]). intros i j. rewrite Hc.
  case_decide as Hin; [|done]. destruct Hin as [Hi Hj].
  rewrite cell_fliplr; [|by apply wf_get_slice|simpl; lia].
  rewrite cell_get_slice. simpl. rewrite decide_True by lia. f_equal; lia.
Qed.

Lemma assign_flipud {A} (a : ndarray A) rs cs :
  wf a →
  ∃ a', set_slice a rs cs (np_flipud (get_slice a rs cs)) = Ok a' ∧ wf a' ∧
    shape0 a' = shape0 a ∧ shape1 a' = shape1 a ∧
    ∀ i j, cell a' i j =
      if decide ((slice_lo (shape0 a) rs ≤ i
                  < slice_lo (shape0 a) rs + slice_len (shape0 a) rs)%nat
               ∧ (slice_lo (shape1 a) cs ≤ j
                  < slice_lo (shape1 a) cs + slice_len (shape1 a) cs)%nat)
      then cell a (2 * slice_lo (shape0 a) rs + slice_len (shape0 a) rs - 1 - i) j
      else cell a i j.
Proof.
  intros Hwf.
  destruct (set_slice_spec a (np_flipud (get_slice a rs cs)) rs cs)
    as (a' & Ha' & Hwf' & H0 & H1 & Hc); [done|by apply wf_flipud, wf_get_slice|done|].
  exists a'. do 4 (split; [done|]). intros i j. rewrite Hc.
  case_decide as Hin; [|done]. destruct Hin as [Hi Hj].
  rewrite cell_flipud; [|by apply wf_get_slice|simpl; lia].
  rewrite cell_get_slice. simpl. rewrite decide_True by lia. f_equal; lia.
Qed.

(** ** Tiling *)

Lemma lookup_app3 {X} (l : list X) i :
  (l ++ l ++ l) !! i =
    if decide (i < 3 * length l)%nat then l !! tile_idx (length l) i else None.
Proof.
  unfold tile_idx. rewrite !lookup_app.
  destruct (decide (i < length l)%nat) as [H1|H1].
  - rewrite decide_True by lia.
    destruct (lookup_lt_is_Some_2 l i) as [x Hx]; [lia|]. by rewrite Hx.
  - rewrite (lookup_ge_None_2 l i) by lia.
    destruct (decide (i < 2 * length l)%nat) as [H2|H2].
    + rewrite decide_True by lia.
      destruct (lookup_lt_is_Some_2 l (i - length l)) as [x Hx]; [lia|]. by rewrite Hx.
    + rewrite (lookup_ge_None_2 l (i - length l)) by lia.
      case_decide; [f_equal; lia|]. apply lookup_ge_None_2. lia.
Qed.

Lemma wf_tile33 {A} (a : ndarray A) : wf a → wf (np_tile33 a).
Proof.
  intros [Hl Hr]. split; simpl.
  - rewrite !length_app, !length_fmap. lia.
  - rewrite !Forall_app. repeat split; apply Forall_fmap;
      (eapply Forall_impl; [exact Hr|]); intros r; simpl;
      rewrite !length_app; lia.
Qed.

Lemma cell_tile33 {A} (a : ndarray A) i j :
  wf a → (i < 3 * shape0 a)%nat → (j < 3 * shape1 a)%nat →
  cell (np_tile33 a) i j = cell a (tile_idx (shape0 a) i) (tile_idx (shape1 a) j).
Proof.
  intros Hwf Hi Hj. pose proof Hwf as [Hl Hr]. unfold cell, np_tile33. simpl.
  rewrite lookup_app3, length_fmap, Hl. rewrite decide_True by done.
  rewrite list_lookup_fmap.
  destruct (data a !! tile_idx (shape0 a) i) as [r|] eqn:E; [|done]. simpl.
  rewrite lookup_app3. rewrite (wf_row a _ r Hwf E). by rewrite decide_True.
Qed.

(** ** The reflections of [tile_and_reflect] *)

Section reflect.
Context {A : Type} (a : ndarray A) (Hwf : wf a).
Let r := shape0 a.
Let c := shape1 a.
Let rows := Z.of_nat (shape0 a).
Let cols := Z.of_nat (shape1 a).

Lemma sides_done_0 : sides_done a 0 (np_tile33 a).
Proof using Hwf.
  split; [by apply wf_tile33|]. do 2 (split; [done|]). intros i j Hi Hj.
  rewrite cell_tile33 by done. by rewrite decide_False by lia.
Qed.

Lemma reflect_sides_step k t :
  (k < 3)%nat → sides_done a k t →
  ∃ t', reflect_sides rows cols t (Z.of_nat k) = Ok t' ∧ sides_done a (S k) t'.
Proof using Hwf.
  intros Hk (Hwt & H0 & H1 & Hc). unfold reflect_sides. fold r c in H0, H1, Hc.
  assert (Hlo : (k * r + r ≤ 3 * r)%nat) by nia.
  assert (HS : (S k * r = k * r + r)%nat) by lia.
  assert (HZ : Z.of_nat k * rows = Z.of_nat (k * r)) by (unfold rows; fold r; lia).
  assert (HZ' : (Z.of_nat k + 1) * rows = Z.of_nat (k * r + r)) by (unfold rows; fold r; lia).
  rewrite HZ, HZ'. generalize dependent (k * r)%nat. intros lo Hc Hlo HS _ _.
  destruct (slice_sl (3 * r) (Z.of_nat lo) (Z.of_nat (lo + r))) as [Er0 Enr]; [lia..|].
  destruct (slice_sl (3 * c) 0 cols) as [Ec0 Enc]; [unfold cols; fold c; lia..|].
  destruct (slice_from_neg c) as [Ec0' Enc'].
  destruct (assign_fliplr t (sl (Z.of_nat lo) (Z.of_nat (lo + r))) (sl 0 cols) Hwt)
    as (t1 & -> & Hw1 & S0 & S1 & C1).
  rewrite H0, H1, Er0, Enr, Ec0, Enc in C1.
  destruct (assign_fliplr t1 (sl (Z.of_nat lo) (Z.of_nat (lo + r))) (sl_from (- cols)) Hw1)
    as (t2 & E2 & Hw2 & T0 & T1 & C2).
  rewrite S0, S1, H0, H1, Er0, Enr in C2. unfold cols in C2. fold c in C2.
  rewrite Ec0', Enc' in C2.
  exists t2. split; [exact E2|]. split; [done|].
  split; [rewrite T0, S0; exact H0|]. split; [rewrite T1, S1; exact H1|].
  intros i j Hi Hj. fold r c in Hi, Hj |- *. rewrite C2, HS. unfold cols.
  replace (Z.to_nat (Z.of_nat (shape1 a) - 0)) with c in C1 by (fold c; lia).
  replace (Z.to_nat (Z.of_nat (lo + r) - Z.of_nat lo)) with r in * by lia.
  replace (Z.to_nat 0) with 0%nat in C1 by lia.
  rewrite Nat2Z.id in *.
  destruct (decide (lo ≤ i < lo + r)%nat) as [Hin|Hout].
  - destruct (decide (2 * c ≤ j)%nat) as [Hj2|Hj2].
    + rewrite decide_True by lia. rewrite C1, decide_False by lia.
      rewrite Hc by lia. rewrite decide_False by lia. rewrite decide_True by lia.
      f_equal. unfold tile_idx, refl. repeat case_decide; lia.
    + rewrite decide_False by lia. rewrite C1.
      destruct (decide (j < c)%nat) as [Hj1|Hj1].
      * rewrite decide_True by lia. rewrite Hc by lia.
        rewrite decide_False by lia. rewrite decide_True by lia.
        f_equal. unfold tile_idx, refl. repeat case_decide; lia.
      * rewrite decide_False by lia. rewrite Hc by lia.
        rewrite decide_False by lia. rewrite decide_True by lia.
        f_equal. unfold tile_idx, refl. repeat case_decide; lia.
  - rewrite decide_False by lia. rewrite C1, decide_False by lia.
    rewrite Hc by lia. f_equal. repeat case_decide; done || lia.
Qed.

Lemma top_bottom_done_0 t : sides_done a 3 t → top_bottom_done a 0 t.
Proof.
  intros (Hwt & H0 & H1 & Hc). do 3 (split; [done|]). intros i j Hi Hj.
  rewrite Hc by done. rewrite decide_True by lia. by rewrite decide_False by lia.
Qed.

Lemma reflect_top_bottom_step k t :
  (k < 3)%nat → top_bottom_done a k t →
  ∃ t', reflect_top_bottom rows cols t (Z.of_nat k) = Ok t' ∧ top_bottom_done a (S k) t'.
Proof using Hwf.
  intros Hk (Hwt & H0 & H1 & Hc). unfold reflect_top_bottom. fold r c in H0, H1, Hc.
  assert (Hlo : (k * c + c ≤ 3 * c)%nat) by nia.
  assert (HS : (S k * c = k * c + c)%nat) by lia.
  assert (HZ : Z.of_nat k * cols = Z.of_nat (k * c)) by (unfold cols; fold c; lia).
  assert (HZ' : (Z.of_nat k + 1) * cols = Z.of_nat (k * c + c)) by (unfold cols; fold c; lia).
  rewrite HZ, HZ'. generalize dependent (k * c)%nat. intros lo Hc Hlo HS _ _.
  destruct (slice_sl (3 * c) (Z.of_nat lo) (Z.of_nat (lo + c))) as [Ec0 Enc]; [lia..|].
  destruct (slice_sl (3 * r) 0 rows) as [Er0 Enr]; [unfold rows; fold r; lia..|].
  destruct (slice_from_neg r) as [Er0' Enr'].
  destruct (assign_flipud t (sl 0 rows) (sl (Z.of_nat lo) (Z.of_nat (lo + c))) Hwt)
    as (t1 & -> & Hw1 & S0 & S1 & C1).
  rewrite H0, H1, Er0, Enr, Ec0, Enc in C1.
  destruct (assign_flipud t1 (sl_from (- rows)) (sl (Z.of_nat lo) (Z.of_nat (lo + c))) Hw1)
    as (t2 & E2 & Hw2 & T0 & T1 & C2).
  rewrite S0, S1, H0, H1, Ec0, Enc in C2. unfold rows in C2. fold r in C2.
  rewrite Er0', Enr' in C2.
  exists t2. split; [exact E2|]. split; [done|].
  split; [rewrite T0, S0; exact H0|]. split; [rewrite T1, S1; exact H1|].
  intros i j Hi Hj. fold r c in Hi, Hj |- *. rewrite C2, HS. unfold rows.
  replace (Z.to_nat (Z.of_nat (shape0 a) - 0)) with r in C1 by (fold r; lia).
  replace (Z.to_nat (Z.of_nat (lo + c) - Z.of_nat lo)) with c in * by lia.
  replace (Z.to_nat 0) with 0%nat in C1 by lia.
  rewrite Nat2Z.id in *.
  destruct (decide (lo ≤ j < lo + c)%nat) as [Hin|Hout].
  - destruct (decide (2 * r ≤ i)%nat) as [Hi2|Hi2].
    + rewrite decide_True by lia. rewrite C1, decide_False by lia.
      rewrite Hc by lia. rewrite decide_False by lia. rewrite decide_True by lia.
      f_equal. unfold tile_idx, refl. repeat case_decide; lia.
    + rewrite decide_False by lia. rewrite C1.
      destruct (decide (i < r)%nat) as [Hi1|Hi1].
      * rewrite decide_True by lia. rewrite Hc by lia.
        rewrite decide_False by lia. rewrite decide_True by lia.
        f_equal. unfold tile_idx, refl. repeat case_decide; lia.
      * rewrite decide_False by lia. rewrite Hc by lia.
        rewrite decide_False by lia. rewrite decide_True by lia.
        f_equal. unfold tile_idx, refl. repeat case_decide; lia.
  - rewrite decide_False by lia. rewrite C1, decide_False by lia.
    rewrite Hc by lia. f_equal. repeat case_decide; done || lia.
Qed.

(** The two loops succeed, and leave the reflected tiling. *)
Lemma reflections_Ok :
  ∃ t, (t1 ← for_each (reflect_sides rows cols) (py_range 3) (np_tile33 a);
        for_each (reflect_top_bottom rows cols) (py_range 3) t1) = Ok t
    ∧ wf t ∧ shape0 t = (3 * shape0 a)%nat ∧ shape1 t = (3 * shape1 a)%nat
    ∧ ∀ i j, (i < 3 * shape0 a)%nat → (j < 3 * shape1 a)%nat →
        cell t i j = cell a (refl (shape0 a) i) (refl (shape1 a) j).
Proof using Hwf.
  change (py_range 3) with [Z.of_nat 0; Z.of_nat 1; Z.of_nat 2]. cbn [for_each].
  destruct (reflect_sides_step 0 _ ltac:(lia) sides_done_0) as (s1 & -> & I1).
  destruct (reflect_sides_step 1 _ ltac:(lia) I1) as (s2 & E2 & I2).
  destruct (reflect_sides_step 2 _ ltac:(lia) I2) as (s3 & E3 & I3).
  cbn [mbind result_bind]. rewrite E2. cbn [mbind result_bind]. rewrite E3.
  cbn [mbind result_bind].
  destruct (reflect_top_bottom_step 0 _ ltac:(lia) (top_bottom_done_0 _ I3))
    as (u1 & F1 & J1).
  destruct (reflect_top_bottom_step 1 _ ltac:(lia) J1) as (u2 & F2 & J2).
  destruct (reflect_top_bottom_step 2 _ ltac:(lia) J2) as (u3 & F3 & J3).
  rewrite F1. cbn [mbind result_bind]. rewrite F2. cbn [mbind result_bind].
  rewrite F3.
  exists u3. split; [done|]. destruct J3 as (Hw & H0 & H1 & Hc).
  do 3 (split; [done|]). intros i j Hi Hj. rewrite Hc by done.
  by rewrite decide_True by lia.
Qed.
End reflect.

(** ** Rows and columns *)

Lemma norm_index_neg n i :
  - Z.of_nat n ≤ i < 0 → norm_index n i = Ok (Z.to_nat (i + Z.of_nat n)).
Proof.
  intros Hi. unfold norm_index.
  destruct (0 <=? i) eqn:E1; [lia|]. simpl.
  destruct (- Z.of_nat n <=? i) eqn:E2; [|lia]. destruct (i <? 0) eqn:E3; [done|lia].
Qed.

Lemma get_row_cells {A} (b : ndarray A) i i' cs :
  wf b → norm_index (shape0 b) i = Ok i' → (i' < shape0 b)%nat →
  ∃ l, get_row b i cs = Ok l ∧
    ∀ j, l !! j = if decide (j < slice_len (shape1 b) cs)%nat
                  then cell b i' (slice_lo (shape1 b) cs + j) else None.
Proof.
  intros Hwf Hn Hi. unfold get_row. rewrite Hn. cbn [mbind result_bind].
  destruct (lookup_lt_is_Some_2 (data b) i') as [row Hrow]; [destruct Hwf; lia|].
  rewrite Hrow. eexists. split; [done|]. intros j.
  rewrite lookup_take, lookup_drop. unfold cell. by rewrite Hrow.
Qed.

Lemma mapM_lookup_rows {A} (rows : list (list A)) j :
  Forall (λ row, j < length row)%nat rows →
  ∃ l, mapM (.!! j) rows = Some l ∧ ∀ i, l !! i = rows !! i ≫= (.!! j).
Proof.
  induction 1 as [|row rows Hrow _ (l & Hl & Hi)].
  - exists []. split; [done|]. by intros [|i].
  - destruct (lookup_lt_is_Some_2 row j Hrow) as [x Hx].
    exists (x :: l). split.
    + cbn. rewrite Hx. cbn. by rewrite Hl.
    + intros [|i]; [by cbn|]. cbn. apply Hi.
Qed.

Lemma get_col_cells {A} (b : ndarray A) rs j j' :
  wf b → norm_index (shape1 b) j = Ok j' → (j' < shape1 b)%nat →
  ∃ l, get_col b rs j = Ok l ∧
    ∀ i, l !! i = if decide (i < slice_len (shape0 b) rs)%nat
                  then cell b (slice_lo (shape0 b) rs + i) j' else None.
Proof.
  intros [Hl Hr] Hn Hj. unfold get_col. rewrite Hn. cbn [mbind result_bind].
  destruct (mapM_lookup_rows
              (take (slice_len (shape0 b) rs) (drop (slice_lo (shape0 b) rs) (data b))) j')
    as (l & -> & Hcells).
  { apply Forall_take, Forall_drop. eapply Forall_impl; [exact Hr|].
    intros row. simpl. lia. }
  exists l. split; [done|]. intros i. rewrite Hcells, lookup_take, lookup_drop.
  by case_decide.
Qed.

Lemma all2_refl {X} (f : X → X → bool) (l : list X) :
  Forall (λ x, f x x = true) l → all2 f l l = true.
Proof. induction 1 as [|x l Hx _ IH]; cbn; [done|]. by rewrite Hx, IH. Qed.

Lemma get_row_Forall {A} (P : A → Prop) (b : ndarray A) i cs l :
  Forall (Forall P) (data b) → get_row b i cs = Ok l → Forall P l.
Proof.
  intros Hb. unfold get_row.
  destruct (norm_index (shape0 b) i) as [i'|]; cbn [mbind result_bind]; [|done].
  destruct (data b !! i') as [row|] eqn:E; [|done]. intros [= <-].
  apply Forall_take, Forall_drop. by apply (Forall_lookup_1 _ _ _ _ Hb E).
Qed.

Lemma get_col_Forall {A} (P : A → Prop) (b : ndarray A) rs j l :
  Forall (Forall P) (data b) → get_col b rs j = Ok l → Forall P l.
Proof.
  intros Hb. unfold get_col.
  destruct (norm_index (shape1 b) j) as [j'|]; cbn [mbind result_bind]; [|done].
  destruct (mapM _ _) as [col|] eqn:E; [|done]. intros [= <-].
  apply mapM_Some_1 in E.
  assert (Hrows : Forall (Forall P)
            (take (slice_len (shape0 b) rs) (drop (slice_lo (shape0 b) rs) (data b))))
    by by apply Forall_take, Forall_drop.
  induction E as [|row y rows col Hy _ IH]; [done|].
  apply Forall_cons in Hrows as [Hrow Hrows]. constructor; [|by apply IH].
  by apply (Forall_lookup_1 _ _ _ _ Hrow Hy).
Qed.

(** ** The reflected tiling and its seams *)

Section seams.
Context {A : Type} (a t : ndarray A) (Hwf : wf a) (Ht : reflected a t).
Let rows := Z.of_nat (shape0 a).
Let cols := Z.of_nat (shape1 a).

Lemma centre_tile : get_slice t (sl rows (2 * rows)) (sl cols (2 * cols)) = a.
Proof using Hwf Ht.
  destruct Ht as (Hwt & H0 & H1 & Hcells).
  destruct (slice_sl (3 * shape0 a) rows (2 * rows)) as [Er0 Enr]; [lia..|].
  destruct (slice_sl (3 * shape1 a) cols (2 * cols)) as [Ec0 Enc]; [lia..|].
  apply array_ext; [by apply wf_get_slice|done| |].
  - unfold shape. simpl. rewrite H0, H1, Enr, Enc. f_equal; lia.
  - simpl. rewrite H0, H1, Enr, Enc. intros i j Hi Hj.
    rewrite cell_get_slice, H0, H1, Er0, Enr, Ec0, Enc.
    rewrite decide_True by lia. rewrite Hcells by lia.
    f_equal; unfold refl; repeat case_decide; lia.
Qed.

(** A full row of [a] against the middle third of a row of [t]. *)
Lemma seam_row (ia it : Z) (pa pt : nat) :
  norm_index (shape0 a) ia = Ok pa → (pa < shape0 a)%nat →
  norm_index (3 * shape0 a) it = Ok pt → (pt < 3 * shape0 a)%nat →
  refl (shape0 a) pt = pa →
  ∃ l, get_row a ia sl_all = Ok l ∧ get_row t it (sl cols (2 * cols)) = Ok l.
Proof using Hwf Ht.
  destruct Ht as (Hwt & H0 & H1 & Hcells). intros Ha Hpa Hb Hpt Hrefl.
  destruct (slice_sl (3 * shape1 a) cols (2 * cols)) as [Ec0 Enc]; [lia..|].
  destruct (slice_all (shape1 a)) as [Ea0 Ean].
  destruct (get_row_cells a ia pa sl_all Hwf Ha Hpa) as (l & El & Hl).
  destruct (get_row_cells t it pt (sl cols (2 * cols)) Hwt) as (l' & El' & Hl');
    [by rewrite H0|lia|].
  exists l. split; [done|]. rewrite El'. f_equal. apply list_eq. intros j.
  rewrite Hl, Hl', H1, Ea0, Ean, Ec0, Enc.
  replace (Z.to_nat (2 * cols - cols)) with (shape1 a) by lia.
  case_decide; [|done]. rewrite Hcells by lia. rewrite Hrefl.
  f_equal; unfold refl; repeat case_decide; lia.
Qed.

(** A full column of [a] against the middle third of a column of [t]. *)
Lemma seam_col (ja jt : Z) (pa pt : nat) :
  norm_index (shape1 a) ja = Ok pa → (pa < shape1 a)%nat →
  norm_index (3 * shape1 a) jt = Ok pt → (pt < 3 * shape1 a)%nat →
  refl (shape1 a) pt = pa →
  ∃ l, get_col a sl_all ja = Ok l ∧ get_col t (sl rows (2 * rows)) jt = Ok l.
Proof using Hwf Ht.
  destruct Ht as (Hwt & H0 & H1 & Hcells). intros Ha Hpa Hb Hpt Hrefl.
  destruct (slice_sl (3 * shape0 a) rows (2 * rows)) as [Er0 Enr]; [lia..|].
  destruct (slice_all (shape0 a)) as [Ea0 Ean].
  destruct (get_col_cells a sl_all ja pa Hwf Ha Hpa) as (l & El & Hl).
  destruct (get_col_cells t (sl rows (2 * rows)) jt pt Hwt) as (l' & El' & Hl');
    [by rewrite H1|lia|].
  exists l. split; [done|]. rewrite El'. f_equal. apply list_eq. intros i.
  rewrite Hl, Hl', H0, Ea0, Ean, Er0, Enr.
  replace (Z.to_nat (2 * rows - rows)) with (shape0 a) by lia.
  case_decide; [|done]. rewrite Hcells by lia. rewrite Hrefl.
  f_equal; unfold refl; repeat case_decide; lia.
Qed.

Context (Hr : (0 < shape0 a)%nat) (Hc : (0 < shape1 a)%nat).

Lemma seam_top :
  ∃ l, get_row a 0 sl_all = Ok l ∧ get_row t (rows - 1) (sl cols (2 * cols)) = Ok l.
Proof using Hwf Ht Hr.
  clear Hc.
  apply (seam_row 0 (rows - 1) 0%nat (shape0 a - 1)%nat);
    [by apply norm_index_in; lia|done| |lia|unfold refl; repeat case_decide; lia].
  rewrite norm_index_in by lia. f_equal. lia.
Qed.

Lemma seam_right :
  ∃ l, get_col a sl_all (-1) = Ok l ∧ get_col t (sl rows (2 * rows)) (2 * cols) = Ok l.
Proof using Hwf Ht Hc.
  clear Hr.
  apply (seam_col (-1) (2 * cols) (shape1 a - 1)%nat (2 * shape1 a)%nat);
    [|lia| |lia|unfold refl; repeat case_decide; lia].
  - rewrite norm_index_neg by lia. f_equal. lia.
  - rewrite norm_index_in by lia. f_equal. lia.
Qed.

Lemma seam_bottom :
  ∃ l, get_row a (-1) sl_all = Ok l ∧ get_row t (2 * rows) (sl cols (2 * cols)) = Ok l.
Proof using Hwf Ht Hr.
  clear Hc.
  apply (seam_row (-1) (2 * rows) (shape0 a - 1)%nat (2 * shape0 a)%nat);
    [|lia| |lia|unfold refl; repeat case_decide; lia].
  - rewrite norm_index_neg by lia. f_equal. lia.
  - rewrite norm_index_in by lia. f_equal. lia.
Qed.

Lemma seam_left :
  ∃ l, get_col a sl_all 0 = Ok l ∧ get_col t (sl rows (2 * rows)) (cols - 1) = Ok l.
Proof using Hwf Ht Hc.
  clear Hr.
  apply (seam_col 0 (cols - 1) 0%nat (shape1 a - 1)%nat);
    [by apply norm_index_in; lia|done| |lia|unfold refl; repeat case_decide; lia].
  rewrite norm_index_in by lia. f_equal. lia.
Qed.
End seams.

(** ** [tile_and_reflect] returns the reflected tiling *)

Section tile_and_reflect.
Context {A : Type} `{PyEq A}.

(** On an empty array the checks of the seams index a row or a column
    that does not exist; otherwise all checks pass, provided that every
    element is equal to itself. *)
Lemma tile_and_reflect_checked (a : ndarray A) :
  wf a → self_equal a →
  if decide ((0 < shape0 a)%nat ∧ (0 < shape1 a)%nat) then
    ∃ t, tile_and_reflect a = Ok t ∧ reflected a t
  else tile_and_reflect a = Raise IndexError.
Proof.
  intros Hwf Hself. unfold tile_and_reflect.
  destruct (reflections_Ok a Hwf) as (t & Ht & Hrefl).
  destruct (for_each (reflect_sides _ _) (py_range 3) (np_tile33 a))
    as [t1|e]; [|by case_decide].
  cbn [mbind result_bind] in *. rewrite Ht. cbn [mbind result_bind].
  rewrite (centre_tile a t Hwf Hrefl). unfold np_array_equal.
  rewrite bool_decide_eq_true_2 by done.
  rewrite all2_refl; cycle 1.
  { eapply Forall_impl; [exact Hself|]. intros row. apply all2_refl. }
  cbn [andb py_assert mbind result_bind].
  destruct (decide (0 < shape0 a)%nat) as [Hr|Hr]; cycle 1.
  { rewrite decide_False by tauto. unfold get_row.
    rewrite (norm_index_out (shape0 a) 0) by lia. done. }
  destruct (seam_top a t Hwf Hrefl Hr) as (top & Htop & ->).
  rewrite Htop. cbn [mbind result_bind]. unfold np_array_equal1.
  rewrite all2_refl by (by eapply get_row_Forall).
  cbn [py_assert mbind result_bind].
  destruct (decide (0 < shape1 a)%nat) as [Hc|Hc]; cycle 1.
  { rewrite decide_False by tauto. unfold get_col.
    rewrite (norm_index_out (shape1 a) (-1)) by lia. done. }
  rewrite decide_True by done.
  destruct (seam_right a t Hwf Hrefl Hc) as (right & Hright & ->).
  rewrite Hright. cbn [mbind result_bind].
  rewrite all2_refl by (by eapply get_col_Forall).
  cbn [py_assert mbind result_bind].
  destruct (seam_bottom a t Hwf Hrefl Hr) as (bottom & Hbottom & ->).
  rewrite Hbottom. cbn [mbind result_bind].
  rewrite all2_refl by (by eapply get_row_Forall).
  cbn [py_assert mbind result_bind].
  destruct (seam_left a t Hwf Hrefl Hc) as (left & Hleft & ->).
  rewrite Hleft. cbn [mbind result_bind].
  rewrite all2_refl by (by eapply get_col_Forall).
  cbn [py_assert mbind result_bind].
  by exists t.
Qed.

(** C3, amended: on an array with at least one row and one column, none of
    whose elements is a NaN, [tile_and_reflect] returns an array three times
    as large each way, whose central tile is the input and whose rows and
    columns next to the central tile repeat the border rows and columns of
    the input. *)
Theorem tile_and_reflect_seams (a : ndarray A) :
  wf a → self_equal a → (0 < shape0 a)%nat → (0 < shape1 a)%nat →
  let rows := Z.of_nat (shape0 a) in
  let cols := Z.of_nat (shape1 a) in
  ∃ t, tile_and_reflect a = Ok t
    ∧ wf t ∧ shape t = (3 * shape0 a, 3 * shape1 a)%nat
    ∧ get_slice t (sl rows (2 * rows)) (sl cols (2 * cols)) = a
    ∧ (∃ top, get_row a 0 sl_all = Ok top
           ∧ get_row t (rows - 1) (sl cols (2 * cols)) = Ok top)
    ∧ (∃ right, get_col a sl_all (-1) = Ok right
           ∧ get_col t (sl rows (2 * rows)) (2 * cols) = Ok right)
    ∧ (∃ bottom, get_row a (-1) sl_all = Ok bottom
           ∧ get_row t (2 * rows) (sl cols (2 * cols)) = Ok bottom)
    ∧ (∃ left, get_col a sl_all 0 = Ok left
           ∧ get_col t (sl rows (2 * rows)) (cols - 1) = Ok left).
Proof.
  intros Hwf Hself Hr Hc rows cols.
  pose proof (tile_and_reflect_checked a Hwf Hself) as Hcases.
  rewrite decide_True in Hcases by done. destruct Hcases as (t & Ht & Hrefl).
  exists t. split; [done|]. pose proof Hrefl as (Hwt & H0 & H1 & _).
  split; [done|]. split; [unfold shape; congruence|].
  split; [by apply centre_tile|].
  split; [by apply seam_top|]. split; [by apply seam_right|].
  split; [by apply seam_bottom|by apply seam_left].
Qed.

(** The arrays of [convolve] hold rationals and booleans, which are equal to
    themselves. *)
Context `{!PyEqRefl A}.

Lemma self_equal_refl (a : ndarray A) : self_equal a.
Proof using Type*.
  apply Forall_forall. intros row _. apply Forall_forall. intros x _. apply py_eq_refl.
Qed.

Lemma tile_and_reflect_cases (a : ndarray A) :
  wf a →
  if decide ((0 < shape0 a)%nat ∧ (0 < shape1 a)%nat) then
    ∃ t, tile_and_reflect a = Ok t ∧ reflected a t
  else tile_and_reflect a = Raise IndexError.
Proof using Type*.
  intros Hwf. apply tile_and_reflect_checked; [done|apply self_equal_refl].
Qed.

Lemma tile_and_reflect_Ok (a : ndarray A) :
  wf a → (0 < shape0 a)%nat → (0 < shape1 a)%nat →
  ∃ t, tile_and_reflect a = Ok t ∧ reflected a t.
Proof using Type*.
  intros Hwf Hr Hc. pose proof (tile_and_reflect_cases a Hwf) as H'.
  by rewrite decide_True in H'.
Qed.

Lemma tile_and_reflect_empty (a : ndarray A) :
  wf a → shape0 a = 0%nat ∨ shape1 a = 0%nat →
  tile_and_reflect a = Raise IndexError.
Proof using Type*.
  intros Hwf Hr. pose proof (tile_and_reflect_cases a Hwf) as H'.
  rewrite decide_False in H'; [done|lia].
Qed.
End tile_and_reflect.

#[global] Instance Qc_py_eq_refl : PyEqRefl Qc.
Proof. intros x. by apply bool_decide_eq_true_2. Qed.

#[global] Instance bool_py_eq_refl : PyEqRefl bool.
Proof. intros []; reflexivity. Qed.

(** ** The outcomes of [tile_and_reflect] *)

Lemma all2_self {X} (f : X → X → bool) (l : list X) :
  all2 f l l = true → Forall (λ x, f x x = true) l.
Proof.
  induction l as [|x l IH]; cbn; [done|].
  intros [Hx Hl]%andb_prop. constructor; auto.
Qed.


Section outcome.
Context {A : Type} `{PyEq A}.

(** The function returns on the arrays that have an element and no NaN; it
    ends with an [IndexError] on an array without elements, and with an
    [AssertionError] on an array with a NaN. *)
Lemma tile_and_reflect_outcome (a : ndarray A) :
  wf a →
  if decide ((0 < shape0 a)%nat ∧ (0 < shape1 a)%nat) then
    if decide (self_equal a) then ∃ t, tile_and_reflect a = Ok t ∧ reflected a t
    else tile_and_reflect a = Raise AssertionError
  else tile_and_reflect a = Raise IndexError.
Proof.
  intros Hwf.
  destruct (decide (self_equal a)) as [Hself|Hself].
  { pose proof (tile_and_reflect_checked a Hwf Hself). by case_decide. }
  case_decide as Hne.
  - unfold tile_and_reflect.
    destruct (reflections_Ok a Hwf) as (t & Ht & Hrefl).
    destruct (for_each (reflect_sides _ _) (py_range 3) (np_tile33 a)) as [t1|e]; [|done].
    cbn [mbind result_bind] in *. rewrite Ht. cbn [mbind result_bind].
    rewrite (centre_tile a t Hwf Hrefl). unfold np_array_equal.
    destruct (all2 (all2 py_eq) (data a) (data a)) eqn:E.
    + exfalso. apply Hself. apply all2_self in E.
      eapply Forall_impl; [exact E|]. intros row. apply all2_self.
    + by rewrite andb_false_r.
  - exfalso. apply Hself. destruct Hwf as [Hl Hrows].
    apply Forall_forall. intros row Hrow.
    destruct (decide (0 < shape0 a)%nat) as [Hr|Hr].
    + rewrite Forall_forall in Hrows. apply Hrows in Hrow.
      assert (length row = 0%nat) as ->%nil_length_inv by lia. constructor.
    + assert (length (data a) = 0%nat) as E%nil_length_inv by lia.
      rewrite E in Hrow. by apply elem_of_nil in Hrow.
Qed.
(** X1: whenever [tile_and_reflect] returns, the input has a row and a
    column and no NaN, and the result is three times as large each way and
    holds at [(i, j)] the element of the input at the mirrored position
    [(refl rows i, refl cols j)]. *)
Theorem tile_and_reflect_returns (a t : ndarray A) :
  wf a → tile_and_reflect a = Ok t →
  ((0 < shape0 a)%nat ∧ (0 < shape1 a)%nat ∧ self_equal a)
  ∧ wf t ∧ shape t = (3 * shape0 a, 3 * shape1 a)%nat
  ∧ ∀ i j, (i < 3 * shape0 a)%nat → (j < 3 * shape1 a)%nat →
      cell t i j = cell a (refl (shape0 a) i) (refl (shape1 a) j).
Proof.
  intros Hwf Ht. pose proof (tile_and_reflect_outcome a Hwf) as Hcases.
  repeat case_decide; try congruence.
  destruct Hcases as (t' & Ht' & Hwt & Hs0 & Hs1 & Hcells).
  assert (t' = t) as -> by congruence.
  split; [tauto|]. split; [done|]. split; [unfold shape; congruence|done].
Qed.

(** X2: [tile_and_reflect] ends with an [IndexError] on an array without rows
    or without columns, and with an [AssertionError] on an array with
    elements one of which is not equal to itself (a NaN). *)
Theorem tile_and_reflect_errors (a : ndarray A) :
  wf a →
  (shape0 a = 0%nat ∨ shape1 a = 0%nat → tile_and_reflect a = Raise IndexError)
  ∧ ((0 < shape0 a)%nat → (0 < shape1 a)%nat → ¬ self_equal a →
     tile_and_reflect a = Raise AssertionError).
Proof.
  intros Hwf. pose proof (tile_and_reflect_outcome a Hwf) as Hcases. split.
  - intros Hempty. rewrite decide_False in Hcases; [done|lia].
  - intros Hr Hc Hself. by rewrite decide_True, decide_False in Hcases.
Qed.

(** X3: the array that [tile_and_reflect] returns is mirrored at the four
    edges of the central tile: the row at distance [k] outside the top or
    the bottom edge is the row at distance [k] inside it, and likewise the
    columns at the left and the right edge. *)
Theorem tile_and_reflect_mirrored_at_seams (a t : ndarray A) :
  wf a → tile_and_reflect a = Ok t →
  let rows := shape0 a in
  let cols := shape1 a in
  (∀ k j, (k < rows)%nat → (j < 3 * cols)%nat →
     cell t (rows - 1 - k) j = cell t (rows + k) j
     ∧ cell t (2 * rows + k) j = cell t (2 * rows - 1 - k) j)
  ∧ (∀ i k, (i < 3 * rows)%nat → (k < cols)%nat →
     cell t i (cols - 1 - k) = cell t i (cols + k)
     ∧ cell t i (2 * cols + k) = cell t i (2 * cols - 1 - k)).
Proof.
  intros Hwf Ht rows cols. pose proof (tile_and_reflect_outcome a Hwf) as Hcases.
  repeat case_decide; try congruence.
  destruct Hcases as (t' & Ht' & Hwt & Hs0 & Hs1 & Hcells).
  assert (t' = t) as -> by congruence. fold rows cols in Hcells.
  split.
  - intros k j Hk Hj. rewrite !Hcells by lia.
    split; f_equal; unfold refl; repeat case_decide; lia.
  - intros i k Hi Hk. rewrite !Hcells by lia.
    split; f_equal; unfold refl; repeat case_decide; lia.
Qed.
End outcome.

(** ** Loops *)

Lemma for_each_fmap {S X Y} (body : S → Y → result S) (f : X → Y) xs s :
  for_each body (f <$> xs) s = for_each (λ s x, body s (f x)) xs s.
Proof.
  revert s. induction xs as [|x xs IH]; intros s; [done|]. cbn.
  destruct (body s (f x)); cbn; [apply IH|done].
Qed.

Lemma for_each_app {S X} (body : S → X → result S) xs ys s :
  for_each body (xs ++ ys) s = s' ← for_each body xs s; for_each body ys s'.
Proof.
  revert s. induction xs as [|x xs IH]; intros s; [done|]. cbn.
  destruct (body s x); cbn; [apply IH|done].
Qed.

(** Two bodies that agree on the states of an invariant run alike. *)
Lemma for_each_ext {S X} (I : S → Prop) (body1 body2 : S → X → result S) xs s :
  (∀ s x, x ∈ xs → I s → body1 s x = body2 s x) →
  (∀ s x s', x ∈ xs → I s → body1 s x = Ok s' → I s') →
  I s → for_each body1 xs s = for_each body2 xs s.
Proof.
  revert s. induction xs as [|x xs IH]; intros s Heq Hinv Hs; [done|]. cbn.
  rewrite <- (Heq s x) by (done || left).
  destruct (body1 s x) as [s'|e] eqn:E; cbn; [|done].
  apply IH.
  - intros s0 y Hy. apply Heq. by right.
  - intros s0 y s1 Hy. apply Hinv. by right.
  - eapply Hinv; [left|done..].
Qed.

(** A loop nest is one loop over the pairs, in the order of the nest. *)
Lemma for_each_nest {S X Y} (body : S → X * Y → result S) (xs : list X) (ys : list Y) s :
  for_each (λ s x, for_each (λ s y, body s (x, y)) ys s) xs s
  = for_each body (xs ≫= λ x, (λ y, (x, y)) <$> ys) s.
Proof.
  revert s. induction xs as [|x xs IH]; intros s; [done|]. cbn.
  rewrite for_each_app, for_each_fmap.
  destruct (for_each _ ys s); cbn; [apply IH|done].
Qed.

Lemma zip_fmap_same {X Y Z'} (f : X → Y) (g : X → Z') (l : list X) :
  zip (f <$> l) (g <$> l) = (λ x, (f x, g x)) <$> l.
Proof. induction l; cbn; [done|]. by f_equal. Qed.

(** [zip(range(n, n * 2), range(n))] *)
Lemma zip_ranges (n : nat) :
  zip (py_range2 (Z.of_nat n) (Z.of_nat n * 2)) (py_range n)
  = (λ k, (Z.of_nat n + Z.of_nat k, Z.of_nat k)) <$> seq 0 n.
Proof.
  unfold py_range2, py_range.
  replace (Z.to_nat (Z.of_nat n * 2 - Z.of_nat n)) with n by lia.
  apply zip_fmap_same.
Qed.

Lemma elem_of_all_cells r c p :
  p ∈ all_cells r c ↔ (p.1 < r)%nat ∧ (p.2 < c)%nat.
Proof.
  unfold all_cells. rewrite list_elem_of_bind. split.
  - intros (io & Hp & Hio). apply list_elem_of_fmap in Hp as (jo & -> & Hjo).
    apply elem_of_seq in Hio, Hjo. simpl. lia.
  - intros [H1 H2]. exists p.1. split; [|apply elem_of_seq; lia].
    apply list_elem_of_fmap. exists p.2. split; [by destruct p|apply elem_of_seq; lia].
Qed.

Lemma NoDup_all_cells r c : NoDup (all_cells r c).
Proof.
  unfold all_cells. apply NoDup_bind.
  - intros x1 x2 y _ _ H1 H2.
    apply list_elem_of_fmap in H1 as (? & -> & _).
    apply list_elem_of_fmap in H2 as (? & [= -> _] & _). done.
  - intros x _. apply NoDup_fmap_2; [|apply NoDup_seq]. by intros ?? [= ->].
  - apply NoDup_seq.
Qed.

(** ** Writing one cell *)

Lemma set_item_spec {A} (a : ndarray A) io jo v :
  wf a → (io < shape0 a)%nat → (jo < shape1 a)%nat →
  wf (set_item a io jo v) ∧
  ∀ x y, cell (set_item a io jo v) x y =
    if decide (x = io ∧ y = jo) then Some v else cell a x y.
Proof.
  intros [Hl Hr] Hio Hjo. split.
  - split; simpl; [by rewrite length_alter|].
    apply Forall_lookup_2. intros i row Hrow.
    rewrite list_lookup_alter in Hrow. case_decide; subst.
    + destruct (data a !! i) as [row'|] eqn:E; [|done]. injection Hrow as <-.
      rewrite length_insert. by apply (Forall_lookup_1 _ _ _ _ Hr E).
    + by apply (Forall_lookup_1 _ _ _ _ Hr Hrow).
  - intros x y. unfold cell. simpl. rewrite list_lookup_alter.
    destruct (decide (io = x)) as [->|Hx].
    + destruct (lookup_lt_is_Some_2 (data a) x) as [row Hrow]; [lia|].
      rewrite Hrow. simpl. pose proof (Forall_lookup_1 _ _ _ _ Hr Hrow) as Hlen.
      simpl in Hlen. rewrite list_lookup_insert by lia.
      destruct (decide (jo = y)) as [->|Hy].
      * by rewrite decide_True, decide_True by (split; done || lia).
      * rewrite decide_False by tauto. rewrite decide_False; [done|]. intros [_ ->]. done.
    + rewrite decide_False; [done|]. intros [-> _]. done.
Qed.

Lemma set_item_at_in {A} (a : ndarray A) (io jo : nat) v :
  (io < shape0 a)%nat → (jo < shape1 a)%nat →
  set_item_at a (Z.of_nat io) (Z.of_nat jo) v = Ok (set_item a io jo v).
Proof.
  intros Hio Hjo. unfold set_item_at. rewrite !norm_index_in by lia.
  cbn. by rewrite !Nat2Z.id.
Qed.

(** ** The loop nest of [convolve] *)

Section loop.
Context (tiled_input weights : ndarray Qc) (tiled_mask : option (ndarray bool))
        (slow : bool) (r c : nat).

Local Abbreviation cell_val := (cell_val tiled_input weights tiled_mask slow r c).
Local Abbreviation write_val := (write_val tiled_input weights tiled_mask slow r c).

Lemma convolve_cell_val output io jo :
  shape0 output = r → shape1 output = c → (io < r)%nat → (jo < c)%nat →
  convolve_cell tiled_input weights tiled_mask slow
    (Z.of_nat r + Z.of_nat io) (Z.of_nat io) (Z.of_nat c + Z.of_nat jo) (Z.of_nat jo) output
  = write_val output (io, jo).
Proof.
  intros H0 H1 Hio Hjo. unfold convolve_cell, write_val, cell_val. simpl.
  destruct (match tiled_mask with Some _ => _ | None => _ end) as [[|]|e]; cbn; try done.
  destruct (average_at _ _ _ _ _ _) as [v|e]; cbn; [|done].
  apply set_item_at_in; lia.
Qed.

Lemma convolve_cell_shape i io j jo output output' :
  convolve_cell tiled_input weights tiled_mask slow i io j jo output = Ok output' →
  shape0 output' = shape0 output ∧ shape1 output' = shape1 output.
Proof.
  unfold convolve_cell.
  destruct (match tiled_mask with Some _ => _ | None => _ end) as [[|]|e]; cbn;
    [by intros [= ->]| |done].
  destruct (average_at _ _ _ _ _ _) as [v|e]; cbn; [|done].
  unfold set_item_at.
  destruct (norm_index (shape0 output) io) as [i'|]; cbn; [|done].
  destruct (norm_index (shape1 output) jo) as [j'|]; cbn; [|done].
  by intros [= <-].
Qed.

Lemma convolve_loops output :
  shape0 output = r → shape1 output = c →
  for_each (λ output '(i, io),
      for_each (λ output '(j, jo),
          convolve_cell tiled_input weights tiled_mask slow i io j jo output)
        (zip (py_range2 (Z.of_nat c) (Z.of_nat c * 2)) (py_range c)) output)
    (zip (py_range2 (Z.of_nat r) (Z.of_nat r * 2)) (py_range r)) output
  = for_each write_val (all_cells r c) output.
Proof.
  intros H0 H1. rewrite !zip_ranges, for_each_fmap.
  unfold all_cells. rewrite <- for_each_nest.
  apply (for_each_ext (λ s, shape0 s = r ∧ shape1 s = c)); [| |done].
  - intros s io Hio [Hs0 Hs1]. rewrite for_each_fmap.
    apply (for_each_ext (λ s, shape0 s = r ∧ shape1 s = c)); [| |done].
    + intros s' jo Hjo [Hs0' Hs1']. apply elem_of_seq in Hio, Hjo.
      apply convolve_cell_val; lia.
    + intros s' jo s'' Hjo [Hs0' Hs1'] Hcell. apply elem_of_seq in Hio, Hjo.
      rewrite convolve_cell_val in Hcell by lia. unfold write_val in Hcell.
      destruct (cell_val _ _) as [[v|]|e]; simplify_eq; done.
  - intros s io s' Hio [Hs0 Hs1]. rewrite for_each_fmap. clear Hio.
    generalize (seq 0 c). intros l. revert s Hs0 Hs1.
    induction l as [|jo l IH]; intros s Hs0 Hs1 Hloop; cbn in Hloop; [by simplify_eq|].
    destruct (convolve_cell _ _ _ _ _ _ _ _ s) as [s1|e] eqn:E; [|done].
    apply convolve_cell_shape in E as [E0 E1]. cbn in Hloop.
    apply (IH s1); [congruence..|done].
Qed.

(** A run of the loop over distinct positions of the output. *)
Lemma write_vals_Ok (ps : list (nat * nat)) output output' :
  NoDup ps → (∀ p, p ∈ ps → (p.1 < r)%nat ∧ (p.2 < c)%nat) →
  wf output → shape0 output = r → shape1 output = c →
  for_each write_val ps output = Ok output' →
  wf output' ∧ shape0 output' = r ∧ shape1 output' = c
  ∧ (∀ p, p ∈ ps → ∃ o, cell_val p.1 p.2 = Ok o)
  ∧ ∀ x y, cell output' x y =
      if decide ((x, y) ∈ ps) then
        match cell_val x y with Ok (Some v) => Some v | _ => cell output x y end
      else cell output x y.
Proof.
  revert output. induction ps as [|p ps IH]; intros output Hnd Hin Hwf H0 H1 Hloop.
  - cbn in Hloop. simplify_eq. do 3 (split; [done|]). split.
    + intros p Hp. by apply elem_of_nil in Hp.
    + intros x y. rewrite decide_False; [done|]. apply not_elem_of_nil.
  - apply NoDup_cons in Hnd as [Hp Hnd]. cbn [for_each] in Hloop.
    destruct (Hin p) as [Hp1 Hp2]; [left|]. destruct p as [io jo]. simpl in Hp1, Hp2.
    destruct (write_val output (io, jo)) as [mid|e0] eqn:Ew; [|done].
    cbn [mbind result_bind] in Hloop. rename Hloop into Hmid.
    unfold write_val in Ew. simpl in Ew.
    destruct (cell_val io jo) as [o|e] eqn:Eval; [|done].
    assert (wf mid ∧ shape0 mid = r ∧ shape1 mid = c
              ∧ ∀ x y, cell mid x y =
                  if decide (x = io ∧ y = jo)
                  then match o with Some v => Some v | None => cell output x y end
                  else cell output x y) as (Hwm & Hm0 & Hm1 & Hcm).
    { destruct o as [v|]; simplify_eq.
      - destruct (set_item_spec output io jo v) as [Hw Hc]; [done|lia..|]. done.
      - do 3 (split; [done|]). intros x y. by case_decide. }
    destruct (IH mid) as (Hw' & H0' & H1' & Hall & Hcells); [done| |done..|].
    { intros q Hq. apply Hin. by right. }
    do 3 (split; [done|]). split.
    + intros q [->|Hq]%elem_of_cons; [by eexists|by apply Hall].
    + intros x y. rewrite Hcells, Hcm.
      destruct (decide ((x, y) ∈ (io, jo) :: ps)) as [Hc|Hc];
        destruct (decide ((x, y) ∈ ps)) as [Hps|Hps].
      * destruct (cell_val x y) as [[v|]|e]; [done| |];
          (rewrite decide_False; [done|]; intros [-> ->]; done).
      * apply elem_of_cons in Hc as [[= -> ->]|?]; [|done].
        rewrite decide_True by done. rewrite Eval. by destruct o.
      * exfalso. apply Hc. by right.
      * rewrite decide_False; [done|]. intros [-> ->]. apply Hc. by left.
Qed.

Lemma write_vals_run (ps : list (nat * nat)) output :
  (∀ p, p ∈ ps → ∃ o, cell_val p.1 p.2 = Ok o) →
  ∃ output', for_each write_val ps output = Ok output'.
Proof.
  revert output. induction ps as [|p ps IH]; intros output Hall; [by eexists|].
  cbn [for_each]. destruct (Hall p) as [o Ho]; [left|].
  assert (∃ mid, write_val output p = Ok mid) as [mid ->].
  { unfold write_val. rewrite Ho. destruct o; by eexists. }
  cbn [mbind result_bind]. apply IH. intros q Hq. apply Hall. by right.
Qed.
End loop.

(** ** Items *)

Lemma cell_Some_bounds {A} (a : ndarray A) i j x :
  wf a → cell a i j = Some x → (i < shape0 a)%nat ∧ (j < shape1 a)%nat.
Proof.
  intros Hwf Hc. destruct (decide ((i < shape0 a)%nat ∧ (j < shape1 a)%nat)); [done|].
  by rewrite cell_None in Hc.
Qed.

Lemma get_item_cell {A} (a : ndarray A) (i j : nat) :
  wf a → (i < shape0 a)%nat → (j < shape1 a)%nat →
  ∃ x, cell a i j = Some x ∧ get_item a (Z.of_nat i) (Z.of_nat j) = Ok x.
Proof.
  intros Hwf Hi Hj. destruct (cell_is_Some a i j Hwf Hi Hj) as [x Hx].
  exists x. split; [done|]. unfold get_item. rewrite !norm_index_in by lia.
  cbn. rewrite !Nat2Z.id. unfold cell in Hx. by rewrite Hx.
Qed.

(** ** Sums *)

Lemma foldl_concat {X Y} (f : X → Y → X) (ls : list (list Y)) a :
  foldl f a (concat ls) = foldl (λ a l, foldl f a l) a ls.
Proof.
  revert a. induction ls as [|l ls IH]; intros a; [done|]. cbn.
  by rewrite foldl_app, IH.
Qed.

Lemma foldl_zip_with {X Y Z' S'} (f : S' → Z' → S') (g : X → Y → Z') xs ys a :
  foldl f a (zip_with g xs ys) = foldl (λ acc p, f acc (g p.1 p.2)) a (zip xs ys).
Proof.
  revert ys a. induction xs as [|x xs IH]; intros [|y ys] a; cbn; try done.
Qed.

(** A loop over [range(len(xs))] that reads [xs] by index is a fold. *)
Lemma for_each_foldl {St X} (body : St → Z → result St) (step : St → X → St)
    (xs : list X) acc :
  (∀ acc l x, xs !! l = Some x → body acc (Z.of_nat l) = Ok (step acc x)) →
  for_each body (py_range (length xs)) acc = Ok (foldl step acc xs).
Proof.
  unfold py_range. rewrite for_each_fmap.
  assert (∀ s acc,
    (∀ acc l x, xs !! l = Some x → body acc (Z.of_nat (s + l)) = Ok (step acc x)) →
    for_each (λ s x, body s (Z.of_nat x)) (seq s (length xs)) acc
    = Ok (foldl step acc xs)) as Hgen.
  { clear acc. induction xs as [|x xs IH]; intros s acc Hbody; [done|]. cbn.
    specialize (Hbody acc 0%nat x eq_refl) as Hx. rewrite Nat.add_0_r in Hx.
    rewrite Hx. cbn. apply IH. intros acc' l y Hy.
    replace (S s + l)%nat with (s + S l)%nat by lia. by apply Hbody. }
  intros Hbody. by apply (Hgen 0%nat).
Qed.

(** ** The window of a pixel *)

Lemma half_odd (k : nat) :
  Nat.odd k = true → Z.of_nat k = 2 * (Z.of_nat k / 2) + 1.
Proof.
  intros Hk. apply Nat.odd_spec in Hk as [m ->].
  rewrite <- (Z.div_unique (Z.of_nat (2 * m + 1)) 2 (Z.of_nat m) 1); lia.
Qed.

Lemma half_bounds (k : nat) : 0 ≤ Z.of_nat k / 2 ∧ 2 * (Z.of_nat k / 2) ≤ Z.of_nat k.
Proof.
  split; [apply Z.div_pos; lia|]. apply Z.mul_div_le. lia.
Qed.

Lemma window_slice (n k p : nat) :
  (k < n + 1)%nat → (p < n)%nat →
  let hw := Z.of_nat k / 2 in
  slice_lo (3 * n) (sl (Z.of_nat n + Z.of_nat p - hw) (Z.of_nat n + Z.of_nat p + hw + 1))
    = Z.to_nat (Z.of_nat n + Z.of_nat p - hw)
  ∧ slice_len (3 * n) (sl (Z.of_nat n + Z.of_nat p - hw) (Z.of_nat n + Z.of_nat p + hw + 1))
    = Z.to_nat (2 * hw + 1).
Proof.
  intros Hk Hp hw. pose proof (half_bounds k) as [H1 H2]. fold hw in H1, H2.
  destruct (slice_sl (3 * n) (Z.of_nat n + Z.of_nat p - hw)
              (Z.of_nat n + Z.of_nat p + hw + 1)) as [-> ->]; [lia..|].
  split; [done|]. f_equal. lia.
Qed.

Section window.
Context (t w : ndarray Qc) (r c io jo : nat).
Context (Hwt : wf t) (Ht0 : shape0 t = (3 * r)%nat) (Ht1 : shape1 t = (3 * c)%nat).
Context (Hww : wf w).
Context (Hk0 : (shape0 w < r + 1)%nat) (Hk1 : (shape1 w < c + 1)%nat).
Context (Hio : (io < r)%nat) (Hjo : (jo < c)%nat).

Let i := Z.of_nat r + Z.of_nat io.
Let j := Z.of_nat c + Z.of_nat jo.
Let hw_row := Z.of_nat (shape0 w) / 2.
Let hw_col := Z.of_nat (shape1 w) / 2.

Local Abbreviation window_of := (window_of w r c io jo).
Local Abbreviation weighted_sum := (weighted_sum t w r c io jo).

Lemma shape_window :
  shape (window_of t) = (Z.to_nat (2 * hw_row + 1), Z.to_nat (2 * hw_col + 1)).
Proof using Ht0 Ht1 Hk0 Hk1 Hio Hjo.
  unfold window_of, shape, i, j, hw_row, hw_col. simpl. rewrite Ht0, Ht1.
  destruct (window_slice r (shape0 w) io Hk0 Hio) as [_ ->].
  destruct (window_slice c (shape1 w) jo Hk1 Hjo) as [_ ->]. done.
Qed.

Lemma cell_window k l :
  (k < Z.to_nat (2 * hw_row + 1))%nat → (l < Z.to_nat (2 * hw_col + 1))%nat →
  cell (window_of t) k l
  = cell t (Z.to_nat (i - hw_row + Z.of_nat k)) (Z.to_nat (j - hw_col + Z.of_nat l)).
Proof using Ht0 Ht1 Hk0 Hk1 Hio Hjo.
  intros Hk Hl. unfold window_of. rewrite cell_get_slice, Ht0, Ht1.
  unfold i, j, hw_row, hw_col in *.
  destruct (window_slice r (shape0 w) io Hk0 Hio) as [-> ->].
  destruct (window_slice c (shape1 w) jo Hk1 Hjo) as [-> ->].
  rewrite decide_True by done.
  pose proof (half_bounds (shape0 w)). pose proof (half_bounds (shape1 w)).
  f_equal; lia.
Qed.

Context (Hodd0 : Nat.odd (shape0 w) = true) (Hodd1 : Nat.odd (shape1 w) = true).

Lemma shape_window_odd : shape (window_of t) = shape w.
Proof using Ht0 Ht1 Hk0 Hk1 Hio Hjo Hodd0 Hodd1.
  rewrite shape_window. unfold shape, hw_row, hw_col.
  pose proof (half_odd _ Hodd0). pose proof (half_odd _ Hodd1). f_equal; lia.
Qed.

Lemma average_fast_unmasked :
  average_at t w None false i j = Ok weighted_sum.
Proof using Ht0 Ht1 Hk0 Hk1 Hio Hjo Hodd0 Hodd1.
  unfold average_at. cbv zeta. change (get_slice t _ _) with (window_of t).
  rewrite bool_decide_eq_true_2 by apply shape_window_odd. done.
Qed.

Lemma average_slow :
  average_at t w None true i j = Ok weighted_sum.
Proof using All.
  unfold average_at. fold hw_row hw_col. cbv zeta.
  assert (Hs0 : shape0 (window_of t) = shape0 w)
    by (pose proof shape_window_odd as E; unfold shape in E; congruence).
  assert (Hs1 : shape1 (window_of t) = shape1 w)
    by (pose proof shape_window_odd as E; unfold shape in E; congruence).
  assert (Hwo : wf (window_of t)) by apply wf_get_slice, Hwt.
  pose proof (half_odd _ Hodd0) as Ho0. pose proof (half_odd _ Hodd1) as Ho1.
  fold hw_row in Ho0. fold hw_col in Ho1.
  set (step_row := λ (acc : Qc) (p : list Qc * list Qc),
                     foldl Qcplus acc (zip_with Qcmult p.1 p.2)).
  assert (Hlen : length (zip (data w) (data (window_of t))) = shape0 w).
  { rewrite length_zip_with. pose proof Hww as [-> _]. pose proof Hwo as [-> _]. lia. }
  rewrite <- Hlen.
  rewrite (for_each_foldl _ step_row).
  - f_equal. unfold weighted_sum, np_sum, np_sum1, zip_array. cbn [data].
    by rewrite foldl_concat, (foldl_zip_with _ (zip_with Qcmult)).
  - intros acc k [wrow orow] Hk.
    apply lookup_zip_with_Some in Hk as (? & ? & [= <- <-] & Hwk & Hok).
    pose proof (wf_row _ _ _ Hww Hwk) as Lw.
    pose proof (wf_row _ _ _ Hwo Hok) as Lo.
    pose proof (lookup_lt_Some _ _ _ Hwk) as Hk. pose proof Hww as [Hl _]. rewrite Hl in Hk.
    set (step := λ (acc : Qc) (p : Qc * Qc), (acc + p.1 * p.2)%Qc).
    assert (Hlen' : length (zip wrow orow) = shape1 w).
    { rewrite length_zip_with. lia. }
    rewrite <- Hlen'. rewrite (for_each_foldl _ step).
    + f_equal. unfold step_row. cbn [fst snd]. by rewrite (foldl_zip_with _ Qcmult).
    + intros acc' l [wv ov] Hlk.
      apply lookup_zip_with_Some in Hlk as (? & ? & [= <- <-] & Hwl & Hol).
      pose proof (lookup_lt_Some _ _ _ Hwl) as Hl'. rewrite Lw in Hl'.
      assert (cell (window_of t) k l = Some ov) as Hcell.
      { unfold cell. rewrite Hok. done. }
      rewrite cell_window in Hcell by lia.
      apply cell_Some_bounds in Hcell as Hb; [|done]. destruct Hb as [Hb0 Hb1].
      destruct (get_item_cell t _ _ Hwt Hb0 Hb1) as (x & Hx & Hget).
      rewrite Hcell in Hx. injection Hx as <-.
      pose proof (half_bounds (shape0 w)) as Hh0. fold hw_row in Hh0.
      pose proof (half_bounds (shape1 w)) as Hh1. fold hw_col in Hh1.
      rewrite !Z2Nat.id in Hget by (unfold i, j; lia).
      replace (i + Z.of_nat k - hw_row) with (i - hw_row + Z.of_nat k) by lia.
      replace (j + Z.of_nat l - hw_col) with (j - hw_col + Z.of_nat l) by lia.
      rewrite Hget. cbn.
      destruct (get_item_cell w k l) as (y & Hy & ->); [done|lia..|].
      unfold cell in Hy. rewrite Hwk in Hy. simpl in Hy. rewrite Hwl in Hy.
      injection Hy as <-. cbn. unfold step. simpl. by rewrite Qcmult_comm.
Qed.
End window.

(** ** A mask without a masked point *)

Lemma all_false_cell m i j b : all_false m → cell m i j = Some b → b = false.
Proof.
  intros Hm Hc. unfold cell in Hc.
  destruct (data m !! i) as [row|] eqn:E; [|done]. simpl in Hc.
  pose proof (Forall_lookup_1 _ _ _ _ Hm E) as Hrow.
  by apply (Forall_lookup_1 _ _ _ _ Hrow Hc).
Qed.

Lemma cells_all_false m :
  (∀ i j b, cell m i j = Some b → b = false) → all_false m.
Proof.
  intros Hc. apply Forall_lookup_2. intros i row Hrow.
  apply Forall_lookup_2. intros j b Hb. apply (Hc i j). unfold cell.
  by rewrite Hrow.
Qed.

Lemma select_all_false {A} (bs : list bool) (xs : list A) :
  Forall (λ b, b = false) bs → select bs xs = [].
Proof.
  intros Hbs. revert xs. induction Hbs as [|b bs -> _ IH]; intros [|x xs]; cbn; auto.
Qed.

Lemma existsb_all_false (bs : list bool) :
  Forall (λ b, b = false) bs → existsb id bs = false.
Proof. induction 1 as [|b bs -> _ IH]; cbn; auto. Qed.

Lemma zip_with_all_false (ws : list Qc) (bs : list bool) :
  length bs = length ws → Forall (λ b, b = false) bs →
  zip_with (λ (w : Qc) (b : bool), if b then 0%Qc else w) ws bs = ws.
Proof.
  intros Hlen Hbs. revert ws Hlen.
  induction Hbs as [|b bs -> _ IH]; intros [|w ws] Hlen; cbn in *; try done.
  f_equal. apply IH. lia.
Qed.

Lemma add_zero_nonzero (ws : list Qc) (corr : Qc) :
  corr = 0%Qc →
  (λ w : Qc, if decide (w ≠ 0%Qc) then (w + corr)%Qc else w) <$> ws = ws.
Proof.
  intros ->. induction ws as [|w ws IH]; cbn; [done|]. rewrite IH. f_equal.
  case_decide; [apply Qcplus_0_r|done].
Qed.

Lemma masked_weights_all_false (w : ndarray Qc) (om : ndarray bool) :
  wf w → wf om → shape om = shape w → all_false om →
  (0 < shape0 w)%nat → (0 < shape1 w)%nat →
  (Qcabs (np_sum w - 1) < tol)%Qc →
  masked_weights w om = Ok w.
Proof.
  intros Hww Hwo Hsh Hfalse Hr Hc Hsum. unfold masked_weights.
  rewrite (bool_decide_eq_true_2 (shape om = shape w)) by done.
  cbn [py_assert mbind result_bind].
  injection Hsh as Hs0 Hs1.
  assert (Hflat : Forall (λ b, b = false) (concat (data om))) by by apply Forall_concat.
  assert (Hcount : (0 < count_false om)%nat).
  { unfold count_false. pose proof Hwo as [Hl Hrows].
    pose proof Hfalse as Hf. unfold all_false in Hf.
    destruct (data om) as [|row rows] eqn:E; [simpl in Hl; lia|].
    apply Forall_cons in Hrows as [Hrow _]. simpl in Hrow.
    destruct row as [|b row]; [simpl in Hrow; lia|].
    apply Forall_cons in Hf as [Hb _]. apply Forall_cons in Hb as [-> _].
    cbn [concat app]. rewrite filter_cons_True by done. cbn [length]. lia. }
  rewrite (bool_decide_eq_true_2 (0 < count_false om)%nat) by done.
  cbn [py_assert mbind result_bind].
  unfold bool_index. rewrite select_all_false by done.
  change (np_sum1 []) with 0%Qc.
  assert (Hcorr : (0 / Qc_of_nat (count_false om))%Qc = 0%Qc) by apply Qcmult_0_l.
  rewrite decide_True by done.
  unfold np_any. rewrite existsb_all_false by done.
  cbn [negb py_assert mbind result_bind].
  assert (Hsame : map_array (λ w0 : Qc, if decide (w0 ≠ 0%Qc)
                      then (w0 + 0 / Qc_of_nat (count_false om))%Qc else w0)
            (zip_array (λ (w0 : Qc) (b : bool), if b then 0%Qc else w0) w om) = w).
  { unfold map_array, zip_array. destruct w as [r c d]. simpl in *. f_equal.
    destruct Hww as [Hl Hrows], Hwo as [Hl' Hrows']. simpl in *.
    apply list_eq. intros k. rewrite list_lookup_fmap, lookup_zip_with.
    destruct (d !! k) as [ws|] eqn:Ew; [|done]. simpl.
    destruct (lookup_lt_is_Some_2 (data om) k) as [bs Eb].
    { apply lookup_lt_Some in Ew. lia. }
    rewrite Eb. simpl. f_equal.
    pose proof (Forall_lookup_1 _ _ _ _ Hrows Ew) as Lw.
    pose proof (Forall_lookup_1 _ _ _ _ Hrows' Eb) as Lb.
    pose proof (Forall_lookup_1 _ _ _ _ Hfalse Eb) as Fb. simpl in *.
    rewrite zip_with_all_false by (done || lia). by apply add_zero_nonzero. }
  rewrite Hsame. by rewrite bool_decide_eq_true_2.
Qed.

(** ** [convolve], step by step *)

Ltac monad_step := cbn [mbind result_bind fmap result_fmap py_assert negb].

Lemma convolve_steps (g w : ndarray Qc) (mask : option (ndarray bool)) (slow : bool) :
  convolve g w mask slow =
    (py_assert (bool_decide (shape0 w < shape0 g + 1)%nat);;
     py_assert (bool_decide (shape1 w < shape1 g + 1)%nat);;
     tiled_mask ←
       match mask with
       | Some mask =>
           py_assert (negb slow);;
           py_assert (bool_decide (shape g = shape mask));;
           Some <$> tile_and_reflect mask
       | None => Ok None
       end;
     tiled_input ← tile_and_reflect g;
     for_each (write_val tiled_input w tiled_mask slow (shape0 g) (shape1 g))
       (all_cells (shape0 g) (shape1 g)) g).
Proof.
  unfold convolve.
  destruct (py_assert (bool_decide (shape0 w < _)%nat)); monad_step; [|done].
  destruct (py_assert (bool_decide (shape1 w < _)%nat)); monad_step; [|done].
  destruct (match mask with Some _ => _ | None => _ end) as [tm|]; monad_step; [|done].
  destruct (tile_and_reflect g) as [t|]; monad_step; [|done].
  by apply convolve_loops.
Qed.

(** C8: a violated precondition ends the call with an [AssertionError]
    before anything is tiled or computed: a kernel dimension that is not
    less than the grid dimension plus one, a mask together with the slow
    mode, a mask whose shape is not the shape of the grid. *)
Theorem convolve_invalid_input (g w : ndarray Qc) (mask : option (ndarray bool))
    (slow : bool) :
  ¬ (shape0 w < shape0 g + 1)%nat
  ∨ ¬ (shape1 w < shape1 g + 1)%nat
  ∨ (∃ m, mask = Some m ∧ (slow = true ∨ shape m ≠ shape g)) →
  convolve g w mask slow = Raise AssertionError.
Proof.
  unfold convolve. intros [H|[H|(m & -> & H)]].
  - rewrite (bool_decide_eq_false_2 _ H). reflexivity.
  - destruct (bool_decide (shape0 w < _)%nat); monad_step; [|done].
    rewrite (bool_decide_eq_false_2 _ H). reflexivity.
  - destruct (bool_decide (shape0 w < _)%nat); monad_step; [|done].
    destruct (bool_decide (shape1 w < _)%nat); monad_step; [|done].
    destruct slow; monad_step; [done|]. destruct H as [?|H]; [done|].
    rewrite (bool_decide_eq_false_2 (shape g = shape m)); [reflexivity|].
    intros E. by apply H.
Qed.

(** C4: in the grid returned by a masked convolution every masked cell
    holds the value of the input at that cell, and the grid has the shape
    of the input. *)
Theorem masked_cells_pass_through (g w : ndarray Qc) (m : ndarray bool)
    (slow : bool) (out : ndarray Qc) :
  wf g → wf m →
  convolve g w (Some m) slow = Ok out →
  wf out ∧ shape out = shape g
  ∧ ∀ io jo, cell m io jo = Some true → cell out io jo = cell g io jo.
Proof.
  intros Hwg Hwm. rewrite convolve_steps.
  destruct (py_assert (bool_decide (shape0 w < _)%nat)); monad_step; [|done].
  destruct (py_assert (bool_decide (shape1 w < _)%nat)); monad_step; [|done].
  destruct slow; monad_step; [done|].
  destruct (bool_decide (shape g = shape m)) eqn:Hsh; monad_step; [|done].
  apply bool_decide_eq_true_1 in Hsh. injection Hsh as Hs0 Hs1.
  pose proof (tile_and_reflect_cases m Hwm) as Hm.
  destruct (tile_and_reflect m) as [tm|] eqn:Etm; monad_step; [|done].
  destruct (tile_and_reflect g) as [t|] eqn:Et; monad_step; [|done].
  intros Hloop.
  destruct (write_vals_Ok t w (Some tm) false (shape0 g) (shape1 g)
              (all_cells (shape0 g) (shape1 g)) g out)
    as (Hwo & Ho0 & Ho1 & _ & Hcells);
    [apply NoDup_all_cells|by intros p ?%elem_of_all_cells|done..|].
  split; [done|]. split; [unfold shape; congruence|].
  intros io jo Hmask. rewrite Hcells.
  apply cell_Some_bounds in Hmask as Hb; [|done]. destruct Hb as [Hio Hjo].
  rewrite decide_True by (apply elem_of_all_cells; simpl; lia).
  rewrite decide_True in Hm by lia. destruct Hm as (tm' & [= <-] & Hwtm & Hm0 & Hm1 & Hmc).
  unfold cell_val.
  destruct (get_item_cell tm (shape0 g + io) (shape1 g + jo) Hwtm) as (b & Hb & Hget);
    [lia..|].
  rewrite Hmc in Hb by lia.
  replace (refl (shape0 m) (shape0 g + io)) with io in Hb
    by (unfold refl; repeat case_decide; lia).
  replace (refl (shape1 m) (shape1 g + jo)) with jo in Hb
    by (unfold refl; repeat case_decide; lia).
  rewrite Hmask in Hb. injection Hb as <-.
  rewrite !Nat2Z.inj_add in Hget. rewrite Hget. done.
Qed.

(** ** The two modes without a mask *)

(** With an odd kernel that fits the grid, every pixel gets the sum of the
    products of the kernel with its window, in either mode. *)
Lemma convolve_unmasked_cells (g w : ndarray Qc) :
  wf g → wf w →
  Nat.odd (shape0 w) = true → Nat.odd (shape1 w) = true →
  (shape0 w < shape0 g + 1)%nat → (shape1 w < shape1 g + 1)%nat →
  ∃ t out, tile_and_reflect g = Ok t ∧ reflected g t
    ∧ convolve g w None true = Ok out ∧ convolve g w None false = Ok out
    ∧ wf out ∧ shape out = shape g
    ∧ ∀ io jo, (io < shape0 g)%nat → (jo < shape1 g)%nat →
        cell out io jo = Some (weighted_sum t w (shape0 g) (shape1 g) io jo).
Proof.
  intros Hwg Hww Ho0 Ho1 Hk0 Hk1.
  assert (Hr : (0 < shape0 g)%nat) by (destruct (shape0 w); [done|lia]).
  assert (Hc : (0 < shape1 g)%nat) by (destruct (shape1 w); [done|lia]).
  destruct (tile_and_reflect_Ok g Hwg Hr Hc) as (t & Et & Hrefl).
  pose proof Hrefl as (Hwt & Ht0 & Ht1 & _).
  set (r := shape0 g) in *. set (c := shape1 g) in *.
  assert (Hval : ∀ slow p, p ∈ all_cells r c →
            cell_val t w None slow r c p.1 p.2
            = Ok (Some (weighted_sum t w r c p.1 p.2))).
  { intros slow p [Hp1 Hp2]%elem_of_all_cells. unfold cell_val. monad_step.
    destruct slow.
    - by rewrite average_slow.
    - by rewrite average_fast_unmasked. }
  destruct (write_vals_run t w None false r c (all_cells r c) g) as [out Hout].
  { intros p Hp. rewrite Hval by done. by eexists. }
  destruct (write_vals_Ok t w None false r c (all_cells r c) g out)
    as (Hwo & Hs0 & Hs1 & _ & Hcells);
    [apply NoDup_all_cells|by intros p ?%elem_of_all_cells|done..|].
  exists t, out. do 2 (split; [done|]).
  rewrite !convolve_steps. fold r c.
  rewrite !bool_decide_eq_true_2 by done. monad_step. rewrite Et. monad_step.
  split; [|split; [done|split; [done|split; [unfold shape; by rewrite Hs0, Hs1|]]]].
  - rewrite <- Hout.
    apply (for_each_ext (λ _, True)); [|done..].
    intros s p Hp _. unfold write_val. by rewrite !Hval.
  - intros io jo Hio Hjo. rewrite Hcells.
    rewrite decide_True by (apply elem_of_all_cells; simpl; lia).
    pose proof (Hval false (io, jo)) as Hv. simpl in Hv.
    by rewrite Hv by (apply elem_of_all_cells; simpl; lia).
Qed.


(** ** A mask without a masked point *)


(** ** Sums of non-negative numbers *)

Lemma np_sum1_from (a : Qc) (l : list Qc) :
  foldl Qcplus a l = (a + np_sum1 l)%Qc.
Proof.
  unfold np_sum1. revert a. induction l as [|x l IH]; intros a; cbn.
  - by rewrite Qcplus_0_r.
  - rewrite (IH (a + x)%Qc), (IH (0 + x)%Qc). ring.
Qed.

Lemma np_sum1_cons (x : Qc) (l : list Qc) : np_sum1 (x :: l) = (x + np_sum1 l)%Qc.
Proof. unfold np_sum1 at 1. cbn. rewrite np_sum1_from. ring. Qed.

Lemma np_sum1_app (l k : list Qc) : np_sum1 (l ++ k) = (np_sum1 l + np_sum1 k)%Qc.
Proof.
  induction l as [|x l IH]; cbn [app].
  - change (np_sum1 []) with 0%Qc. ring.
  - rewrite !np_sum1_cons, IH. ring.
Qed.

Lemma np_sum1_nonneg (l : list Qc) :
  Forall (λ x, 0 ≤ x)%Qc l → (0 ≤ np_sum1 l)%Qc.
Proof.
  induction 1 as [|x l Hx _ IH]; [done|]. rewrite np_sum1_cons.
  by apply Qcplus_nonneg_nonneg.
Qed.

Lemma np_sum1_elem (l : list Qc) (x : Qc) :
  Forall (λ x, 0 ≤ x)%Qc l → x ∈ l → (x ≤ np_sum1 l)%Qc.
Proof.
  intros Hl Hx. apply list_elem_of_split in Hx as (l1 & l2 & ->).
  apply Forall_app in Hl as [H1 H2]. apply Forall_cons in H2 as [_ H2].
  rewrite np_sum1_app, np_sum1_cons.
  apply np_sum1_nonneg in H1, H2.
  rewrite <- (Qcplus_0_l x) at 1. rewrite <- (Qcplus_0_r (0 + x)).
  rewrite <- Qcplus_assoc. apply Qcplus_le_compat; [done|].
  apply Qcplus_le_compat; [apply Qcle_refl|done].
Qed.

Lemma np_sum1_scale (l : list Qc) (s : Qc) :
  np_sum1 ((λ v, v / s)%Qc <$> l) = (np_sum1 l / s)%Qc.
Proof.
  induction l as [|x l IH]; cbn [fmap list_fmap].
  - change (np_sum1 []) with 0%Qc. unfold Qcdiv. ring.
  - rewrite !np_sum1_cons, IH. unfold Qcdiv. ring.
Qed.

Lemma elem_of_concat {X} (x : X) (l : list X) (ls : list (list X)) :
  x ∈ l → l ∈ ls → x ∈ concat ls.
Proof.
  intros Hx Hl. induction Hl as [l ls|l l' ls _ IH]; cbn; apply elem_of_app; auto.
Qed.

Lemma concat_fmap_fmap {X Y} (f : X → Y) (ls : list (list X)) :
  concat ((λ r : list X, f <$> r) <$> ls) = f <$> concat ls.
Proof. induction ls as [|l ls IH]; cbn; [done|]. by rewrite fmap_app, IH. Qed.

Lemma np_sum_scale (a : ndarray Qc) (s : Qc) :
  np_sum (map_array (λ v, v / s)%Qc a) = (np_sum a / s)%Qc.
Proof. unfold np_sum, map_array. simpl. by rewrite concat_fmap_fmap, np_sum1_scale. Qed.

(** ** [int] and the radius *)

Lemma py_int_floor (x : Qc) : (0 ≤ x)%Qc → py_int x = Qfloor x.
Proof.
  intros Hx. unfold py_int, Qfloor. destruct x as [[n d] Hc]. simpl.
  apply Z.quot_div_nonneg; [|done].
  unfold Qcle, Qle in Hx. simpl in Hx. lia.
Qed.

Lemma py_int_nonneg (x : Qc) : (0 ≤ x)%Qc → 0 ≤ py_int x.
Proof.
  intros Hx. unfold py_int. destruct x as [[n d] Hc]. simpl.
  apply Z.quot_pos; [|done]. unfold Qcle, Qle in Hx. simpl in Hx. lia.
Qed.

Lemma kernel_radius_nonneg (sigma truncate : Qc) :
  (0 < sigma)%Qc → (0 ≤ truncate)%Qc → 0 ≤ kernel_radius sigma truncate.
Proof.
  intros Hs Ht. apply py_int_nonneg. apply Qcplus_nonneg_nonneg; [|done].
  apply Qcmult_nonneg_nonneg; [done|]. by apply Qclt_le_weak.
Qed.

(** ** The kernel before and after normalisation *)

Section gaussian.
Context (np_exp : Qc → Qc).

Local Abbreviation gauss := (gauss np_exp).
Local Abbreviation unnormalized := (unnormalized np_exp).

Lemma zip_with_const_l {X Y Z'} (f : X → Y → Z') (x : X) (ys : list Y) :
  zip_with f ((λ _, x) <$> ys) ys = f x <$> ys.
Proof. induction ys as [|y ys IH]; cbn; [done|]. by f_equal. Qed.

Lemma zip_with_mgrid {X Y Z'} (f : X → Y → Z') (xs : list X) (ys : list Y) :
  zip_with (zip_with f) ((λ x, (λ _, x) <$> ys) <$> xs) ((λ _, ys) <$> xs)
  = (λ x, f x <$> ys) <$> xs.
Proof.
  induction xs as [|x xs IH]; cbn; [done|]. f_equal; [|done].
  apply zip_with_const_l.
Qed.

Lemma gaussian_kernel_unfold (sigma truncate : Qc) :
  gaussian_kernel np_exp sigma truncate
  = map_array (λ v, v / np_sum (unnormalized sigma truncate))%Qc
      (unnormalized sigma truncate).
Proof.
  unfold gaussian_kernel, np_mgrid, unnormalized, offsets, kernel_radius.
  cbv zeta. unfold zip_array at 1 2. cbn [shape0 shape1 data].
  by rewrite zip_with_mgrid.
Qed.

Lemma length_offsets (radius : Z) : length (offsets radius) = Z.to_nat (2 * radius + 1).
Proof. unfold offsets, py_range2. rewrite length_fmap, length_seq. f_equal. lia. Qed.

Lemma lookup_offsets (radius : Z) (x : Z) :
  - radius ≤ x ≤ radius → offsets radius !! Z.to_nat (x + radius) = Some x.
Proof.
  intros Hx. unfold offsets, py_range2. rewrite list_lookup_fmap, lookup_seq_lt by lia.
  simpl. f_equal. lia.
Qed.

Lemma wf_unnormalized sigma truncate : wf (unnormalized sigma truncate).
Proof.
  split; simpl; [by rewrite length_fmap|]. apply Forall_fmap, Forall_forall.
  intros x _. simpl. by rewrite length_fmap.
Qed.

Lemma cell_unnormalized sigma truncate (x y : Z) :
  let radius := kernel_radius sigma truncate in
  - radius ≤ x ≤ radius → - radius ≤ y ≤ radius →
  cell (unnormalized sigma truncate) (Z.to_nat (x + radius)) (Z.to_nat (y + radius))
  = Some (gauss sigma x y).
Proof.
  intros radius Hx Hy. unfold cell, unnormalized. fold radius. simpl.
  rewrite list_lookup_fmap, lookup_offsets by done. simpl.
  by rewrite list_lookup_fmap, lookup_offsets.
Qed.

Context (np_exp_nonneg : ∀ x, (0 ≤ np_exp x)%Qc) (np_exp_0 : np_exp 0%Qc = 1%Qc).

Lemma gauss_nonneg sigma x y : (0 ≤ gauss sigma x y)%Qc.
Proof using np_exp_nonneg. apply Qcmult_nonneg_nonneg; [done|apply np_exp_nonneg]. Qed.

Lemma gauss_centre sigma : gauss sigma 0 0 = 2%Qc.
Proof using np_exp_0.
  unfold gauss. change (Qc_of_Z (0 ^ 2 + 0 ^ 2)) with (Qc_of_Z 0).
  replace (- Q2Qc (1 # 2) * Qc_of_Z 0 / (sigma * sigma))%Qc with 0%Qc.
  - rewrite np_exp_0. ring.
  - replace (Qc_of_Z 0) with 0%Qc by by apply Qc_is_canon.
    unfold Qcdiv. ring.
Qed.

(** The sum that divides the weights is positive as soon as there is a
    central weight. *)
Lemma sum_unnormalized_pos sigma truncate :
  0 ≤ kernel_radius sigma truncate →
  (0 < np_sum (unnormalized sigma truncate))%Qc.
Proof using np_exp_nonneg np_exp_0.
  intros Hr. apply Qclt_le_trans with 2%Qc; [done|].
  rewrite <- (gauss_centre sigma). unfold np_sum. apply np_sum1_elem.
  - apply Forall_concat, Forall_fmap, Forall_forall. intros x _. simpl.
    apply Forall_fmap, Forall_forall. intros y _. simpl. apply gauss_nonneg.
  - pose proof (lookup_offsets (kernel_radius sigma truncate) 0 ltac:(lia)) as H0.
    apply list_elem_of_lookup_2 in H0.
    apply (elem_of_concat _ (gauss sigma 0 <$> offsets (kernel_radius sigma truncate)));
      [by apply list_elem_of_fmap_2|].
    simpl. by apply (list_elem_of_fmap_2 (λ x, gauss sigma x <$> _)).
Qed.

End gaussian.

Lemma cell_map_array {A B} (f : A → B) (a : ndarray A) i j :
  cell (map_array f a) i j = f <$> cell a i j.
Proof.
  unfold cell, map_array. simpl. rewrite list_lookup_fmap.
  destruct (data a !! i) as [row|]; [|done]. simpl. apply list_lookup_fmap.
Qed.

Lemma wf_map_array {A B} (f : A → B) (a : ndarray A) : wf a → wf (map_array f a).
Proof.
  intros [Hl Hr]. split; simpl; [by rewrite length_fmap|].
  apply Forall_fmap. eapply Forall_impl; [exact Hr|]. intros row. simpl.
  by rewrite length_fmap.
Qed.

Section gaussian_weights.
Context (np_exp : Qc → Qc).
Context (np_exp_nonneg : ∀ x, (0 ≤ np_exp x)%Qc) (np_exp_0 : np_exp 0%Qc = 1%Qc).

End gaussian_weights.

(** ** The smoothing step *)

Section smoothing.
Context (np_exp : Qc → Qc).
Context (NONE_SMOOTHING NUMPY_SMOOTHING : string).

End smoothing.


(** ** A flat field *)

Lemma constant_cell {A} (v : A) (a : ndarray A) i j x :
  constant v a → cell a i j = Some x → x = v.
Proof.
  intros Ha Hc. unfold cell in Hc.
  destruct (data a !! i) as [row|] eqn:E; [|done]. simpl in Hc.
  pose proof (Forall_lookup_1 _ _ _ _ Ha E) as Hrow.
  by apply (Forall_lookup_1 _ _ _ _ Hrow Hc).
Qed.

Lemma cells_constant {A} (v : A) (a : ndarray A) :
  (∀ i j x, cell a i j = Some x → x = v) → constant v a.
Proof.
  intros Hc. apply Forall_lookup_2. intros i row Hrow.
  apply Forall_lookup_2. intros j b Hb. apply (Hc i j). unfold cell.
  by rewrite Hrow.
Qed.

Lemma zip_with_const_r {X Y Z'} (f : X → Y → Z') (xs : list X) (ys : list Y) v :
  length ys = length xs → Forall (λ y, y = v) ys →
  zip_with f xs ys = (λ x, f x v) <$> xs.
Proof.
  intros Hlen Hys. revert xs Hlen.
  induction Hys as [|y ys -> _ IH]; intros [|x xs] Hlen; cbn in *; try done.
  f_equal. apply IH. lia.
Qed.

Lemma zip_array_constant {X Y Z'} (f : X → Y → Z') (w : ndarray X) (o : ndarray Y) v :
  wf w → wf o → shape o = shape w → constant v o →
  zip_array f w o = map_array (λ x, f x v) w.
Proof.
  intros [Hl Hrows] [Hl' Hrows'] [= Hs0 Hs1] Hconst.
  unfold zip_array, map_array. f_equal.
  apply list_eq. intros k. rewrite list_lookup_fmap, lookup_zip_with.
  destruct (data w !! k) as [ws|] eqn:Ew; [|done]. simpl.
  destruct (lookup_lt_is_Some_2 (data o) k) as [os Eo].
  { apply lookup_lt_Some in Ew. lia. }
  rewrite Eo. simpl. f_equal.
  pose proof (Forall_lookup_1 _ _ _ _ Hrows Ew) as Lw.
  pose proof (Forall_lookup_1 _ _ _ _ Hrows' Eo) as Lo.
  pose proof (Forall_lookup_1 _ _ _ _ Hconst Eo) as Fo. simpl in *.
  apply zip_with_const_r; [lia|done].
Qed.

Lemma np_sum1_times (l : list Qc) (v : Qc) :
  np_sum1 ((λ x, x * v)%Qc <$> l) = (np_sum1 l * v)%Qc.
Proof.
  induction l as [|x l IH]; cbn [fmap list_fmap].
  - change (np_sum1 []) with 0%Qc. ring.
  - rewrite !np_sum1_cons, IH. ring.
Qed.

Lemma np_sum_times (a : ndarray Qc) (v : Qc) :
  np_sum (map_array (λ x, x * v)%Qc a) = (np_sum a * v)%Qc.
Proof. unfold np_sum, map_array. simpl. by rewrite concat_fmap_fmap, np_sum1_times. Qed.

(** The tiling of a flat field is flat, and so is every window. *)
Lemma reflected_constant {A} (v : A) (a t : ndarray A) :
  wf a → reflected a t → constant v a → constant v t.
Proof.
  intros Hwf (Hwt & H0 & H1 & Hc) Ha. apply cells_constant. intros i j x Hx.
  apply cell_Some_bounds in Hx as Hb; [|done]. rewrite Hc in Hx by lia.
  by eapply constant_cell.
Qed.

Lemma window_constant {A} (v : A) (w : ndarray Qc) r c io jo (t : ndarray A) :
  constant v t → constant v (window_of w r c io jo t).
Proof.
  intros Ht. apply cells_constant. intros k l x Hx. unfold window_of in Hx.
  rewrite cell_get_slice in Hx. case_decide; [|done]. by eapply constant_cell.
Qed.

(** Without a mask, a flat field convolved with weights that sum to 1 is
    the same flat field, in either mode. *)
Lemma convolve_constant_unmasked (g w : ndarray Qc) (v : Qc) :
  wf g → wf w →
  Nat.odd (shape0 w) = true → Nat.odd (shape1 w) = true →
  (shape0 w < shape0 g + 1)%nat → (shape1 w < shape1 g + 1)%nat →
  constant v g → np_sum w = 1%Qc →
  ∃ out, convolve g w None true = Ok out ∧ convolve g w None false = Ok out
    ∧ wf out ∧ shape out = shape g ∧ constant v out.
Proof.
  intros Hwg Hww Ho0 Ho1 Hk0 Hk1 Hconst Hsum.
  destruct (convolve_unmasked_cells g w)
    as (t & out & Et & Hrefl & Hs & Hf & Hwo & Hsh & Hcells); [done..|].
  exists out. do 4 (split; [done|]). apply cells_constant. intros i j x Hx.
  apply cell_Some_bounds in Hx as Hb; [|done]. unfold shape in Hsh. injection Hsh as Hs0 Hs1.
  rewrite Hcells in Hx by lia. injection Hx as <-.
  pose proof Hrefl as (Hwt & Ht0 & Ht1 & _).
  unfold weighted_sum.
  rewrite (zip_array_constant Qcmult w _ v); [| done | by apply wf_get_slice | |].
  - rewrite np_sum_times, Hsum. ring.
  - destruct Hb as [Hb0 Hb1].
    apply (shape_window_odd t w (shape0 g) (shape1 g) i j Ht0 Ht1 Hk0 Hk1);
      [lia|lia|done|done].
  - apply window_constant. by apply (reflected_constant v g t).
Qed.

(** ** The working kernel of the masked branch *)

Lemma rows_same_length {X Y} (w : ndarray X) (o : ndarray Y) :
  wf w → wf o → shape o = shape w →
  Forall2 (λ ws os, length ws = length os) (data w) (data o).
Proof.
  intros [Hl Hrows] [Hl' Hrows'] [= Hs0 Hs1].
  apply Forall2_same_length_lookup_2; [lia|]. intros k ws os Ew Eo.
  pose proof (Forall_lookup_1 _ _ _ _ Hrows Ew) as Lw.
  pose proof (Forall_lookup_1 _ _ _ _ Hrows' Eo) as Lo. simpl in *. lia.
Qed.

Lemma concat_zip_with {X Y Z'} (f : X → Y → Z') (W : list (list X)) (M : list (list Y)) :
  Forall2 (λ ws bs, length ws = length bs) W M →
  concat (zip_with (zip_with f) W M) = zip_with f (concat W) (concat M)
  ∧ length (concat W) = length (concat M).
Proof.
  induction 1 as [|ws bs W M Hlen _ [IH IHlen]]; cbn; [done|].
  rewrite zip_with_app by done. rewrite IH, !length_app. split; [done|lia].
Qed.

Lemma Qc_of_nat_S (n : nat) : Qc_of_nat (S n) = (Qc_of_nat n + 1)%Qc.
Proof.
  unfold Qc_of_nat. rewrite Nat2Z.inj_succ, <- Z.add_1_r, Z2Qc_inj_add.
  by rewrite Z2Qc_inj_1.
Qed.

Lemma Qc_of_nat_nonzero (n : nat) : (0 < n)%nat → Qc_of_nat n ≠ 0%Qc.
Proof.
  intros Hn E. unfold Qc_of_nat in E. rewrite <- Z2Qc_inj_0 in E.
  apply Z2Qc_inj in E. lia.
Qed.

(** The zeroed and corrected weights, the clobbered weights and the
    correction add up to the weights, when no unmasked weight is zero. *)
Lemma redistribute_sum (ws : list Qc) (bs : list bool) (corr : Qc) :
  length bs = length ws →
  Forall (λ x, x ≠ 0%Qc) (select (negb <$> bs) ws) →
  (np_sum1 ((λ w : Qc, if decide (w ≠ 0%Qc) then (w + corr)%Qc else w)
              <$> zip_with (λ (w : Qc) (b : bool), if b then 0%Qc else w) ws bs)
   + np_sum1 (select bs ws))%Qc
  = (np_sum1 ws + Qc_of_nat (length (filter (λ b, b = false) bs)) * corr)%Qc.
Proof.
  revert ws. induction bs as [|b bs IH]; intros [|w ws] Hlen Hnz; try done.
  cbn in Hlen. destruct b; cbn [fmap list_fmap negb select zip_with] in *.
  - rewrite decide_False by (intros E; by apply E).
    rewrite filter_cons_False by done. rewrite !np_sum1_cons.
    transitivity (w + (np_sum1 ws
                    + Qc_of_nat (length (filter (λ b, b = false) bs)) * corr))%Qc;
      [|ring].
    rewrite <- (IH ws) by (done || lia). ring.
  - apply Forall_cons in Hnz as [Hw Hnz]. rewrite decide_True by done.
    rewrite filter_cons_True by done. cbn [length]. rewrite Qc_of_nat_S.
    rewrite !np_sum1_cons.
    transitivity (w + corr + (np_sum1 ws
                    + Qc_of_nat (length (filter (λ b, b = false) bs)) * corr))%Qc;
      [|ring].
    rewrite <- (IH ws) by (done || lia). ring.
Qed.

Lemma working_kernel_sum (w : ndarray Qc) (om : ndarray bool) :
  wf w → wf om → shape om = shape w → (0 < count_false om)%nat →
  Forall (λ x, x ≠ 0%Qc) (unmasked_weights w om) →
  np_sum (working_kernel w om) = np_sum w.
Proof.
  intros Hww Hwo Hsh Hcount Hnz.
  destruct (concat_zip_with (λ (w : Qc) (b : bool), if b then 0%Qc else w)
              (data w) (data om)) as [Hflat Hlen]; [by apply rows_same_length|].
  unfold working_kernel, np_sum, map_array, zip_array. cbn [data].
  rewrite concat_fmap_fmap, Hflat.
  set (clobber := np_sum1 (bool_index w om)).
  pose proof (redistribute_sum (concat (data w)) (concat (data om))
                (clobber / Qc_of_nat (count_false om))%Qc) as Hred.
  fold (bool_index w om) in Hred. fold clobber in Hred. fold (count_false om) in Hred.
  rewrite Qcmult_div_r in Hred by by apply Qc_of_nat_nonzero.
  apply (inj (λ x, x + clobber)%Qc). apply Hred; [lia|done].
Qed.

Lemma wf_zip_array {X Y Z'} (f : X → Y → Z') (w : ndarray X) (o : ndarray Y) :
  wf w → wf o → shape o = shape w → wf (zip_array f w o).
Proof.
  intros [Hl Hrows] [Hl' Hrows'] [= Hs0 Hs1]. split; simpl.
  - rewrite length_zip_with. lia.
  - apply Forall_lookup_2. intros k row Hrow.
    apply lookup_zip_with_Some in Hrow as (ws & os & -> & Ew & Eo).
    pose proof (Forall_lookup_1 _ _ _ _ Hrows Ew) as Lw.
    pose proof (Forall_lookup_1 _ _ _ _ Hrows' Eo) as Lo. simpl in *.
    rewrite length_zip_with. lia.
Qed.

Lemma wf_working_kernel (w : ndarray Qc) (om : ndarray bool) :
  wf w → wf om → shape om = shape w → wf (working_kernel w om).
Proof. intros. by apply wf_map_array, wf_zip_array. Qed.

Lemma np_sum1_pos (l : list Qc) :
  Forall (λ x, 0 < x)%Qc l → l ≠ [] → (0 < np_sum1 l)%Qc.
Proof.
  intros Hl Hne. destruct Hl as [|x l Hx Hl]; [done|]. rewrite np_sum1_cons.
  apply Qcplus_pos_nonneg; [done|]. apply np_sum1_nonneg.
  eapply Forall_impl; [exact Hl|]. intros y. apply Qclt_le_weak.
Qed.

Lemma select_Forall {X} (P : X → Prop) (bs : list bool) (xs : list X) :
  Forall P xs → Forall P (select bs xs).
Proof.
  intros Hxs. revert bs. induction Hxs as [|x xs Hx _ IH]; intros [|[] bs]; cbn; auto.
Qed.

Lemma select_nil_no_true {X} (bs : list bool) (xs : list X) :
  length bs = length xs → select bs xs = [] → existsb id bs = false.
Proof.
  revert xs. induction bs as [|[] bs IH]; intros [|x xs] Hlen Hsel; cbn in *; try done.
  apply (IH xs); [lia|done].
Qed.

Lemma count_false_pos (om : ndarray bool) k l :
  cell om k l = Some false → (0 < count_false om)%nat.
Proof.
  intros Hc. unfold cell in Hc. destruct (data om !! k) as [row|] eqn:E; [|done].
  simpl in Hc. apply list_elem_of_lookup_2 in E, Hc.
  assert (Hin : false ∈ concat (data om)) by by eapply elem_of_concat.
  unfold count_false.
  assert (Hf : false ∈ filter (λ b, b = false) (concat (data om)))
    by by apply list_elem_of_filter.
  destruct (filter _ _); [by apply elem_of_nil in Hf|simpl; lia].
Qed.

(** With positive weights that sum to 1 all assertions of the masked branch
    pass, and the working kernel sums to 1. *)
Lemma masked_weights_positive (w : ndarray Qc) (om : ndarray bool) :
  wf w → wf om → shape om = shape w → (0 < count_false om)%nat →
  Forall (Forall (λ x, 0 < x)%Qc) (data w) → np_sum w = 1%Qc →
  masked_weights w om = Ok (working_kernel w om)
  ∧ np_sum (working_kernel w om) = 1%Qc.
Proof.
  intros Hww Hwo Hsh Hcount Hpos Hsum.
  assert (Hflat : Forall (λ x, 0 < x)%Qc (concat (data w))) by by apply Forall_concat.
  destruct (concat_zip_with (λ (w : Qc) (b : bool), w)
              (data w) (data om)) as [_ Hlen]; [by apply rows_same_length|].
  assert (Hwk : np_sum (working_kernel w om) = 1%Qc).
  { rewrite working_kernel_sum; [done..|]. unfold unmasked_weights.
    eapply Forall_impl; [by apply select_Forall|]. intros x Hx E. subst.
    by apply Qclt_not_eq in Hx. }
  split; [|done]. unfold masked_weights.
  rewrite (bool_decide_eq_true_2 (shape om = shape w)) by done.
  rewrite (bool_decide_eq_true_2 (0 < count_false om)%nat) by done.
  cbn [py_assert mbind result_bind].
  assert (Hany : (np_sum1 (bool_index w om) / Qc_of_nat (count_false om))%Qc = 0%Qc →
                 np_any om = false).
  { intros Hcorr. unfold np_any. apply (select_nil_no_true _ (concat (data w))); [lia|].
    fold (bool_index w om).
    destruct (bool_index w om) as [|x l] eqn:Esel; [done|]. exfalso.
    assert (Hp : (0 < np_sum1 (x :: l))%Qc).
    { apply np_sum1_pos; [|done]. rewrite <- Esel. by apply select_Forall. }
    apply Qcmult_integral in Hcorr as [Hc|Hc].
    - rewrite Hc in Hp. by apply Qclt_not_eq in Hp.
    - pose proof (Qcmult_inv_r _ (Qc_of_nat_nonzero _ Hcount)) as Hinv.
      rewrite Hc, Qcmult_0_r in Hinv. apply (f_equal this) in Hinv. discriminate Hinv. }
  change (map_array _ (zip_array _ w om)) with (working_kernel w om).
  rewrite Hwk.
  rewrite (bool_decide_eq_true_2 (Qcabs (1 - 1) < tol)%Qc) by (vm_compute; reflexivity).
  destruct (decide _) as [Hcorr|_]; [|done].
  by rewrite Hany.
Qed.

Section window_any.
Context {A : Type} (t : ndarray A) (w : ndarray Qc) (r c io jo : nat).
Context (Ht0 : shape0 t = (3 * r)%nat) (Ht1 : shape1 t = (3 * c)%nat).
Context (Hk0 : (shape0 w < r + 1)%nat) (Hk1 : (shape1 w < c + 1)%nat).
Context (Hio : (io < r)%nat) (Hjo : (jo < c)%nat).

Lemma shape_window_any :
  shape (window_of w r c io jo t)
  = (Z.to_nat (2 * (Z.of_nat (shape0 w) / 2) + 1),
     Z.to_nat (2 * (Z.of_nat (shape1 w) / 2) + 1)).
Proof using Ht0 Ht1 Hk0 Hk1 Hio Hjo.
  unfold window_of, shape. simpl. rewrite Ht0, Ht1.
  destruct (window_slice r (shape0 w) io Hk0 Hio) as [_ ->].
  destruct (window_slice c (shape1 w) jo Hk1 Hjo) as [_ ->]. done.
Qed.

Lemma cell_window_any k l :
  (k < Z.to_nat (2 * (Z.of_nat (shape0 w) / 2) + 1))%nat →
  (l < Z.to_nat (2 * (Z.of_nat (shape1 w) / 2) + 1))%nat →
  cell (window_of w r c io jo t) k l
  = cell t (Z.to_nat (Z.of_nat r + Z.of_nat io - Z.of_nat (shape0 w) / 2 + Z.of_nat k))
      (Z.to_nat (Z.of_nat c + Z.of_nat jo - Z.of_nat (shape1 w) / 2 + Z.of_nat l)).
Proof using Ht0 Ht1 Hk0 Hk1 Hio Hjo.
  intros Hk Hl. unfold window_of. rewrite cell_get_slice, Ht0, Ht1.
  destruct (window_slice r (shape0 w) io Hk0 Hio) as [-> ->].
  destruct (window_slice c (shape1 w) jo Hk1 Hjo) as [-> ->].
  rewrite decide_True by done.
  pose proof (half_bounds (shape0 w)). pose proof (half_bounds (shape1 w)).
  f_equal; lia.
Qed.

Context (Hodd0 : Nat.odd (shape0 w) = true) (Hodd1 : Nat.odd (shape1 w) = true).

Lemma shape_window_any_odd : shape (window_of w r c io jo t) = shape w.
Proof using Ht0 Ht1 Hk0 Hk1 Hio Hjo Hodd0 Hodd1.
  rewrite shape_window_any. unfold shape.
  pose proof (half_odd _ Hodd0). pose proof (half_odd _ Hodd1). f_equal; lia.
Qed.

(** The middle of the window is the pixel itself. *)
Lemma cell_window_centre :
  cell (window_of w r c io jo t) (shape0 w / 2) (shape1 w / 2)
  = cell t (r + io) (c + jo).
Proof using Ht0 Ht1 Hk0 Hk1 Hio Hjo Hodd0 Hodd1.
  pose proof (half_odd _ Hodd0). pose proof (half_odd _ Hodd1).
  pose proof (half_bounds (shape0 w)). pose proof (half_bounds (shape1 w)).
  pose proof (Nat2Z.inj_div (shape0 w) 2) as E0. simpl (Z.of_nat 2) in E0.
  pose proof (Nat2Z.inj_div (shape1 w) 2) as E1. simpl (Z.of_nat 2) in E1.
  set (k0 := (shape0 w / 2)%nat) in *. set (k1 := (shape1 w / 2)%nat) in *.
  rewrite cell_window_any by lia. f_equal; lia.
Qed.
End window_any.

(** With a mask, a flat field convolved with positive weights that sum to 1
    is the same flat field. *)
Lemma convolve_constant_masked (g w : ndarray Qc) (m : ndarray bool) (v : Qc) :
  wf g → wf w → wf m → shape m = shape g →
  Nat.odd (shape0 w) = true → Nat.odd (shape1 w) = true →
  (shape0 w < shape0 g + 1)%nat → (shape1 w < shape1 g + 1)%nat →
  constant v g →
  Forall (Forall (λ x, 0 < x)%Qc) (data w) → np_sum w = 1%Qc →
  ∃ out, convolve g w (Some m) false = Ok out
    ∧ wf out ∧ shape out = shape g ∧ constant v out.
Proof.
  intros Hwg Hww Hwm Hsh Ho0 Ho1 Hk0 Hk1 Hconst Hpos Hsum.
  assert (Hr : (0 < shape0 g)%nat) by (destruct (shape0 w); [done|lia]).
  assert (Hc : (0 < shape1 g)%nat) by (destruct (shape1 w); [done|lia]).
  injection Hsh as Hs0 Hs1.
  destruct (tile_and_reflect_Ok m Hwm) as (tm & Etm & Hwtm & Hm0 & Hm1 & Hmc); [lia..|].
  destruct (tile_and_reflect_Ok g Hwg Hr Hc) as (t & Et & Hrefl).
  pose proof Hrefl as (Hwt & Ht0 & Ht1 & _).
  rewrite Hs0 in Hm0. rewrite Hs1 in Hm1.
  set (r := shape0 g) in *. set (c := shape1 g) in *.
  assert (Hval : ∀ p, p ∈ all_cells r c →
            ∃ o, cell_val t w (Some tm) false r c p.1 p.2 = Ok o
               ∧ ∀ x, o = Some x → x = v).
  { intros [io jo] [Hio Hjo]%elem_of_all_cells. simpl in Hio, Hjo. cbn [fst snd].
    unfold cell_val.
    destruct (get_item_cell tm (r + io) (c + jo) Hwtm) as (b & Hb & Hget); [lia..|].
    rewrite !Nat2Z.inj_add in Hget. rewrite Hget. monad_step.
    destruct b; [by exists None|].
    unfold average_at. cbv zeta.
    change (get_slice t _ _) with (window_of w r c io jo t).
    change (get_slice tm _ _) with (window_of w r c io jo tm).
    pose proof (shape_window_any_odd t w r c io jo Ht0 Ht1 Hk0 Hk1 Hio Hjo Ho0 Ho1) as Hst.
    pose proof (shape_window_any_odd tm w r c io jo Hm0 Hm1 Hk0 Hk1 Hio Hjo Ho0 Ho1) as Hsm.
    rewrite bool_decide_eq_true_2 by done. monad_step.
    destruct (masked_weights_positive w (window_of w r c io jo tm)) as [-> Hwk];
      [done|by apply wf_get_slice|done| |done|done|].
    { apply (count_false_pos _ (shape0 w / 2) (shape1 w / 2)).
      by rewrite (cell_window_centre tm w r c io jo Hm0 Hm1 Hk0 Hk1 Hio Hjo Ho0 Ho1). }
    monad_step. eexists. split; [done|]. intros x [= <-].
    rewrite (zip_array_constant Qcmult _ _ v);
      [|apply wf_working_kernel; [done|by apply wf_get_slice|done]
       |by apply wf_get_slice|exact Hst| ].
    - rewrite np_sum_times, Hwk. ring.
    - apply window_constant. by apply (reflected_constant v g t). }
  destruct (write_vals_run t w (Some tm) false r c (all_cells r c) g) as [out Hout].
  { intros p Hp. destruct (Hval p Hp) as (o & Ho & _). by exists o. }
  destruct (write_vals_Ok t w (Some tm) false r c (all_cells r c) g out)
    as (Hwo & Ho0' & Ho1' & _ & Hcells);
    [apply NoDup_all_cells|by intros p ?%elem_of_all_cells|done..|].
  exists out. rewrite convolve_steps. fold r c.
  rewrite !bool_decide_eq_true_2 by (done || (unfold shape; by rewrite Hs0, Hs1)).
  monad_step. rewrite Etm. monad_step. rewrite Et. monad_step.
  split; [done|]. split; [done|]. split; [unfold shape; by rewrite Ho0', Ho1'|].
  apply cells_constant. intros i j x Hx.
  pose proof (cell_Some_bounds _ _ _ _ Hwo Hx) as [Hi Hj].
  rewrite Ho0' in Hi. rewrite Ho1' in Hj.
  rewrite Hcells in Hx. rewrite decide_True in Hx by (by apply elem_of_all_cells).
  destruct (Hval (i, j)) as (o & Ho & Hv); [by apply elem_of_all_cells|].
  cbn [fst snd] in Ho. rewrite Ho in Hx. destruct o as [y|].
  - injection Hx as <-. by apply Hv.
  - by eapply constant_cell.
Qed.

(** ** The neighbourhood of a pixel *)

Lemma refl_mirror (n : nat) (p : Z) :
  - Z.of_nat n ≤ p < 2 * Z.of_nat n →
  refl n (Z.to_nat (Z.of_nat n + p)) = mirror n p.
Proof. intros Hp. unfold refl, mirror. repeat case_decide; lia. Qed.

Lemma mirror_lt (n : nat) (p : Z) :
  - Z.of_nat n ≤ p < 2 * Z.of_nat n → (mirror n p < n)%nat.
Proof. intros Hp. unfold mirror. repeat case_decide; lia. Qed.

Lemma omap_total {X Y} (f : X → option Y) (l : list X) :
  Forall (λ x, is_Some (f x)) l →
  length (omap f l) = length l ∧ ∀ i, omap f l !! i = l !! i ≫= f.
Proof.
  induction 1 as [|x l [y Hy] _ [IHlen IH]]; [done|]. cbn. rewrite Hy. cbn.
  split; [by rewrite IHlen|]. intros [|i]; cbn; [done|apply IH].
Qed.

Lemma offset_bounds (n K p k : nat) :
  (K < n + 1)%nat → (p < n)%nat → (k < K)%nat →
  - Z.of_nat n ≤ Z.of_nat p + Z.of_nat k - Z.of_nat K / 2 < 2 * Z.of_nat n.
Proof. intros HK Hp Hk. pose proof (half_bounds K). lia. Qed.

Section neighbourhood.
Context {A : Type} (a : ndarray A) (K L io jo : nat).
Context (Hwf : wf a).
Context (HK : (K < shape0 a + 1)%nat) (HL : (L < shape1 a + 1)%nat).
Context (Hio : (io < shape0 a)%nat) (Hjo : (jo < shape1 a)%nat).

Lemma neighbourhood_row k :
  (k < K)%nat →
  Forall (λ l : nat, is_Some
      (cell a (mirror (shape0 a) (Z.of_nat io + Z.of_nat k - Z.of_nat K / 2))
              (mirror (shape1 a) (Z.of_nat jo + Z.of_nat l - Z.of_nat L / 2))))
    (seq 0 L).
Proof using Hwf HK HL Hio Hjo.
  intros Hk. apply Forall_forall. intros l Hl%elem_of_seq.
  apply cell_is_Some; [done|apply mirror_lt, offset_bounds; lia..].
Qed.

Lemma wf_neighbourhood : wf (neighbourhood a K L io jo).
Proof using Hwf HK HL Hio Hjo.
  split; simpl; [by rewrite length_fmap, length_seq|].
  apply Forall_fmap, Forall_forall. intros k Hk%elem_of_seq. simpl.
  destruct (omap_total _ _ (neighbourhood_row k ltac:(lia))) as [-> _].
  apply length_seq.
Qed.

Lemma cell_neighbourhood k l :
  (k < K)%nat → (l < L)%nat →
  cell (neighbourhood a K L io jo) k l
  = cell a (mirror (shape0 a) (Z.of_nat io + Z.of_nat k - Z.of_nat K / 2))
           (mirror (shape1 a) (Z.of_nat jo + Z.of_nat l - Z.of_nat L / 2)).
Proof using Hwf HK HL Hio Hjo.
  intros Hk Hl. unfold cell at 1, neighbourhood. simpl.
  rewrite list_lookup_fmap, lookup_seq_lt by done. simpl.
  destruct (omap_total _ _ (neighbourhood_row k Hk)) as [_ ->].
  by rewrite lookup_seq_lt.
Qed.

(** The cells of the tiled array around the central pixel are the cells of
    the neighbourhood. *)
Lemma cell_tiled_neighbourhood (t : ndarray A) k l :
  reflected a t → (k < K)%nat → (l < L)%nat →
  cell t (Z.to_nat (Z.of_nat (shape0 a) + Z.of_nat io + Z.of_nat k - Z.of_nat K / 2))
         (Z.to_nat (Z.of_nat (shape1 a) + Z.of_nat jo + Z.of_nat l - Z.of_nat L / 2))
  = cell (neighbourhood a K L io jo) k l.
Proof using Hwf HK HL Hio Hjo.
  intros (_ & _ & _ & Hcells) Hk Hl. rewrite cell_neighbourhood by done.
  pose proof (offset_bounds (shape0 a) K io k HK Hio Hk).
  pose proof (offset_bounds (shape1 a) L jo l HL Hjo Hl).
  rewrite Hcells by lia. rewrite <- !refl_mirror by done. f_equal; f_equal; lia.
Qed.
End neighbourhood.

(** With an odd kernel the window that the windowed mode cuts out of the
    tiled array is the neighbourhood of the pixel. *)
Lemma window_neighbourhood {A} (a t : ndarray A) (w : ndarray Qc) (io jo : nat) :
  wf a → reflected a t →
  Nat.odd (shape0 w) = true → Nat.odd (shape1 w) = true →
  (shape0 w < shape0 a + 1)%nat → (shape1 w < shape1 a + 1)%nat →
  (io < shape0 a)%nat → (jo < shape1 a)%nat →
  window_of w (shape0 a) (shape1 a) io jo t
  = neighbourhood a (shape0 w) (shape1 w) io jo.
Proof.
  intros Hwf Hrefl Ho0 Ho1 Hk0 Hk1 Hio Hjo. pose proof Hrefl as (Hwt & Ht0 & Ht1 & _).
  pose proof (shape_window_any_odd t w _ _ io jo Ht0 Ht1 Hk0 Hk1 Hio Hjo Ho0 Ho1) as Hsh.
  apply array_ext; [by apply wf_get_slice|by apply wf_neighbourhood|done|].
  intros k l Hk Hl.
  assert (k < shape0 w)%nat by (by replace (shape0 w) with (shape (window_of w (shape0 a) (shape1 a) io jo t)).1 by by rewrite Hsh).
  assert (l < shape1 w)%nat by (by replace (shape1 w) with (shape (window_of w (shape0 a) (shape1 a) io jo t)).2 by by rewrite Hsh).
  pose proof (half_odd _ Ho0). pose proof (half_odd _ Ho1).
  rewrite (cell_window_any t w _ _ io jo Ht0 Ht1 Hk0 Hk1 Hio Hjo) by lia.
  rewrite <- (cell_tiled_neighbourhood a _ _ io jo Hwf Hk0 Hk1 Hio Hjo t) by done.
  f_equal; f_equal; lia.
Qed.

(** ** The slow mode, for a kernel of any size *)

Lemma average_slow_any (g t w : ndarray Qc) (io jo : nat) :
  wf g → reflected g t → wf w →
  (shape0 w < shape0 g + 1)%nat → (shape1 w < shape1 g + 1)%nat →
  (io < shape0 g)%nat → (jo < shape1 g)%nat →
  average_at t w None true (Z.of_nat (shape0 g) + Z.of_nat io)
    (Z.of_nat (shape1 g) + Z.of_nat jo)
  = Ok (convolution_at g w io jo).
Proof.
  intros Hwg Hrefl Hww Hk0 Hk1 Hio Hjo. pose proof Hrefl as (Hwt & Ht0 & Ht1 & _).
  unfold average_at, convolution_at. cbv zeta.
  set (N := neighbourhood g (shape0 w) (shape1 w) io jo).
  assert (Hwn : wf N) by by apply wf_neighbourhood.
  set (step_row := λ (acc : Qc) (p : list Qc * list Qc),
                     foldl Qcplus acc (zip_with Qcmult p.1 p.2)).
  assert (Hlen : length (zip (data w) (data N)) = shape0 w).
  { rewrite length_zip_with. pose proof Hww as [-> _]. pose proof Hwn as [-> _].
    simpl. lia. }
  replace (py_range (shape0 w)) with (py_range (length (zip (data w) (data N))))
    by (by rewrite Hlen).
  rewrite (for_each_foldl _ step_row).
  - f_equal. unfold np_sum, np_sum1, zip_array. cbn [data].
    by rewrite foldl_concat, (foldl_zip_with _ (zip_with Qcmult)).
  - intros acc k [wrow nrow] Hk.
    apply lookup_zip_with_Some in Hk as (? & ? & [= <- <-] & Hwk & Hnk).
    pose proof (wf_row _ _ _ Hww Hwk) as Lw.
    pose proof (wf_row _ _ _ Hwn Hnk) as Ln. simpl in Ln.
    pose proof (lookup_lt_Some _ _ _ Hwk) as Hk. pose proof Hww as [Hl _]. rewrite Hl in Hk.
    set (step := λ (acc : Qc) (p : Qc * Qc), (acc + p.1 * p.2)%Qc).
    assert (Hlen' : length (zip wrow nrow) = shape1 w).
    { rewrite length_zip_with. lia. }
    replace (py_range (shape1 w)) with (py_range (length (zip wrow nrow)))
      by (by rewrite Hlen').
    rewrite (for_each_foldl _ step).
    + f_equal. unfold step_row. cbn [fst snd]. by rewrite (foldl_zip_with _ Qcmult).
    + intros acc' l [wv nv] Hlk.
      apply lookup_zip_with_Some in Hlk as (? & ? & [= <- <-] & Hwl & Hnl).
      pose proof (lookup_lt_Some _ _ _ Hwl) as Hl'. rewrite Lw in Hl'.
      assert (cell N k l = Some nv) as Hcell.
      { unfold cell. rewrite Hnk. done. }
      unfold N in Hcell.
      rewrite <- (cell_tiled_neighbourhood g _ _ io jo Hwg Hk0 Hk1 Hio Hjo t) in Hcell
        by done.
      pose proof (cell_Some_bounds _ _ _ _ Hwt Hcell) as [Hb0 Hb1].
      destruct (get_item_cell t _ _ Hwt Hb0 Hb1) as (x & Hx & Hget).
      rewrite Hcell in Hx. injection Hx as <-.
      pose proof (offset_bounds (shape0 g) _ io k Hk0 Hio Hk).
      pose proof (offset_bounds (shape1 g) _ jo l Hk1 Hjo Hl').
      rewrite !Z2Nat.id in Hget by lia.
      rewrite Hget. cbn.
      destruct (get_item_cell w k l) as (y & Hy & ->); [done|lia..|].
      unfold cell in Hy. rewrite Hwk in Hy. simpl in Hy. rewrite Hwl in Hy.
      injection Hy as <-. cbn. unfold step. simpl. by rewrite Qcmult_comm.
Qed.

(** ** Runs of [convolve] *)


(** When every pass of the loop nest succeeds, the call returns, and the
    grid it returns holds the new values at the points that are not
    skipped. *)
Lemma convolve_run (g w t : ndarray Qc) (mask tiled_mask : option (ndarray bool))
    (slow : bool) (F : nat → nat → option Qc) :
  wf g →
  (shape0 w < shape0 g + 1)%nat → (shape1 w < shape1 g + 1)%nat →
  tiled_mask_of g mask slow tiled_mask →
  tile_and_reflect g = Ok t →
  (∀ io jo, (io < shape0 g)%nat → (jo < shape1 g)%nat →
     cell_val t w tiled_mask slow (shape0 g) (shape1 g) io jo = Ok (F io jo)) →
  ∃ out, convolve g w mask slow = Ok out ∧ wf out ∧ shape out = shape g
    ∧ ∀ io jo, (io < shape0 g)%nat → (jo < shape1 g)%nat →
        cell out io jo = match F io jo with Some v => Some v | None => cell g io jo end.
Proof.
  intros Hwg Hk0 Hk1 Hmask Et Hval.
  destruct (write_vals_run t w tiled_mask slow (shape0 g) (shape1 g)
              (all_cells (shape0 g) (shape1 g)) g) as [out Hout].
  { intros p [Hp1 Hp2]%elem_of_all_cells. rewrite Hval by done. by eexists. }
  destruct (write_vals_Ok t w tiled_mask slow (shape0 g) (shape1 g)
              (all_cells (shape0 g) (shape1 g)) g out)
    as (Hwo & Hs0 & Hs1 & _ & Hcells);
    [apply NoDup_all_cells|by intros p ?%elem_of_all_cells|done..|].
  exists out. split; [|split; [done|split; [unfold shape; by rewrite Hs0, Hs1|]]].
  - rewrite convolve_steps. rewrite !bool_decide_eq_true_2 by done. monad_step.
    destruct mask as [m|]; simpl in Hmask.
    + destruct Hmask as (-> & Hsh & tm & -> & ->). monad_step.
      rewrite bool_decide_eq_true_2 by done. monad_step. by rewrite Et.
    + subst. monad_step. by rewrite Et.
  - intros io jo Hio Hjo. rewrite Hcells.
    rewrite decide_True by (apply elem_of_all_cells; simpl; lia).
    rewrite Hval by done. by destruct (F io jo).
Qed.

Lemma all_cells_first (r c : nat) :
  (0 < r)%nat → (0 < c)%nat → ∃ ps, all_cells r c = (0%nat, 0%nat) :: ps.
Proof.
  intros Hr Hc. destruct r as [|r]; [lia|]. destruct c as [|c]; [lia|].
  unfold all_cells. cbn. by eexists.
Qed.

(** When the first pass of the loop nest raises, so does the call. *)
Lemma convolve_first_raises (g w t : ndarray Qc) (mask tiled_mask : option (ndarray bool))
    (slow : bool) (e : exn) :
  (0 < shape0 g)%nat → (0 < shape1 g)%nat →
  (shape0 w < shape0 g + 1)%nat → (shape1 w < shape1 g + 1)%nat →
  tiled_mask_of g mask slow tiled_mask →
  tile_and_reflect g = Ok t →
  cell_val t w tiled_mask slow (shape0 g) (shape1 g) 0 0 = Raise e →
  convolve g w mask slow = Raise e.
Proof.
  intros Hr Hc Hk0 Hk1 Hmask Et Hval.
  rewrite convolve_steps. rewrite !bool_decide_eq_true_2 by done. monad_step.
  destruct (all_cells_first _ _ Hr Hc) as [ps ->].
  assert (for_each (write_val t w tiled_mask slow (shape0 g) (shape1 g))
            ((0%nat, 0%nat) :: ps) g = Raise e) as Hloop.
  { cbn [for_each]. unfold write_val. cbn [fst snd]. by rewrite Hval. }
  destruct mask as [m|]; simpl in Hmask.
  - destruct Hmask as (-> & Hsh & tm & -> & ->). monad_step.
    rewrite bool_decide_eq_true_2 by done. monad_step. by rewrite Et.
  - subst. monad_step. by rewrite Et.
Qed.

(** ** Without a mask *)

Lemma cell_val_unmasked (g t w : ndarray Qc) (slow : bool) (io jo : nat) :
  wf g → reflected g t → wf w →
  (shape0 w < shape0 g + 1)%nat → (shape1 w < shape1 g + 1)%nat →
  (slow = false → Nat.odd (shape0 w) = true ∧ Nat.odd (shape1 w) = true) →
  (io < shape0 g)%nat → (jo < shape1 g)%nat →
  cell_val t w None slow (shape0 g) (shape1 g) io jo
  = Ok (Some (convolution_at g w io jo)).
Proof.
  intros Hwg Hrefl Hww Hk0 Hk1 Hodd Hio Hjo. unfold cell_val. monad_step.
  pose proof Hrefl as (Hwt & Ht0 & Ht1 & _).
  destruct slow.
  - by rewrite (average_slow_any g t w io jo).
  - destruct Hodd as [Ho0 Ho1]; [done|].
    rewrite (average_fast_unmasked t w _ _ io jo) by done.
    unfold weighted_sum, convolution_at. by rewrite (window_neighbourhood g t w io jo).
Qed.


Lemma half_even (k : nat) :
  Nat.odd k = false → Z.of_nat k = 2 * (Z.of_nat k / 2).
Proof.
  intros Hk. rewrite <- Nat.negb_even in Hk. apply negb_false_iff in Hk.
  apply Nat.even_spec in Hk as [m ->].
  rewrite <- (Z.div_unique (Z.of_nat (2 * m)) 2 (Z.of_nat m) 0); lia.
Qed.

(** X5: without a mask, the windowed mode ends with an [AssertionError], at
    its check of the shape of the window, whenever a dimension of the kernel
    is even. *)
Theorem convolve_windowed_even_kernel (g w : ndarray Qc) :
  wf g → (0 < shape0 g)%nat → (0 < shape1 g)%nat →
  (shape0 w < shape0 g + 1)%nat → (shape1 w < shape1 g + 1)%nat →
  Nat.odd (shape0 w) = false ∨ Nat.odd (shape1 w) = false →
  convolve g w None false = Raise AssertionError.
Proof.
  intros Hwg Hr Hc Hk0 Hk1 Heven.
  destruct (tile_and_reflect_Ok g Hwg Hr Hc) as (t & Et & Hrefl).
  pose proof Hrefl as (Hwt & Ht0 & Ht1 & _).
  apply (convolve_first_raises g w t None None); [done..|].
  unfold cell_val. monad_step. unfold average_at. cbv zeta.
  change (get_slice t _ _) with (window_of w (shape0 g) (shape1 g) 0 0 t).
  rewrite (shape_window_any t w _ _ 0 0 Ht0 Ht1 Hk0 Hk1 Hr Hc).
  rewrite bool_decide_eq_false_2; [done|]. unfold shape. intros [= E0 E1].
  pose proof (half_bounds (shape0 w)). pose proof (half_bounds (shape1 w)).
  destruct Heven as [He|He]; apply half_even in He; lia.
Qed.

(** X6: on a grid without rows or without columns [convolve] returns no
    grid: it ends with an [AssertionError] or with an [IndexError]. *)
Theorem convolve_empty_grid (g w : ndarray Qc) (mask : option (ndarray bool))
    (slow : bool) :
  wf g → (∀ m, mask = Some m → wf m) →
  shape0 g = 0%nat ∨ shape1 g = 0%nat →
  convolve g w mask slow = Raise AssertionError
  ∨ convolve g w mask slow = Raise IndexError.
Proof.
  intros Hwg Hwm Hempty. rewrite convolve_steps.
  destruct (bool_decide (shape0 w < _)%nat); monad_step; [|by left].
  destruct (bool_decide (shape1 w < _)%nat); monad_step; [|by left].
  destruct mask as [m|].
  - destruct slow; monad_step; [by left|].
    destruct (bool_decide (shape g = shape m)) eqn:Hsh; monad_step; [|by left].
    apply bool_decide_eq_true_1 in Hsh. injection Hsh as Hs0 Hs1.
    rewrite (tile_and_reflect_empty m) by (auto || lia). by right.
  - monad_step. rewrite (tile_and_reflect_empty g) by done. by right.
Qed.

(** X7: a grid that [convolve] returns has the shape of the input, in either
    mode, with or without a mask. *)
Theorem convolve_keeps_shape (g w : ndarray Qc) (mask : option (ndarray bool))
    (slow : bool) (out : ndarray Qc) :
  wf g → convolve g w mask slow = Ok out → wf out ∧ shape out = shape g.
Proof.
  intros Hwg. rewrite convolve_steps.
  destruct (py_assert (bool_decide (shape0 w < _)%nat)); monad_step; [|done].
  destruct (py_assert (bool_decide (shape1 w < _)%nat)); monad_step; [|done].
  destruct (match mask with Some _ => _ | None => _ end) as [tm|]; monad_step; [|done].
  destruct (tile_and_reflect g) as [t|]; monad_step; [|done].
  intros Hloop.
  destruct (write_vals_Ok t w tm slow (shape0 g) (shape1 g)
              (all_cells (shape0 g) (shape1 g)) g out)
    as (Hwo & Ho0 & Ho1 & _);
    [apply NoDup_all_cells|by intros p ?%elem_of_all_cells|done..|].
  split; [done|]. unfold shape. congruence.
Qed.


(** ** The working kernel, cell by cell *)

Lemma cell_zip_array {X Y Z'} (f : X → Y → Z') (a : ndarray X) (b : ndarray Y) i j :
  cell (zip_array f a b) i j
  = x ← cell a i j; y ← cell b i j; Some (f x y).
Proof.
  unfold cell, zip_array. simpl. rewrite lookup_zip_with.
  destruct (data a !! i) as [ra|]; simpl; [|done].
  destruct (data b !! i) as [rb|]; simpl.
  - rewrite lookup_zip_with. by destruct (ra !! j).
  - by destruct (ra !! j).
Qed.

(** The working kernel, cell by cell: nothing at a masked point, the
    weight and the correction elsewhere (a weight 0 gets no correction). *)
Lemma cell_working_kernel (w : ndarray Qc) (om : ndarray bool) i j wv b :
  cell w i j = Some wv → cell om i j = Some b →
  cell (working_kernel w om) i j
  = Some (if b then 0%Qc
          else if decide (wv ≠ 0%Qc)
               then (wv + np_sum1 (bool_index w om) / Qc_of_nat (count_false om))%Qc
               else wv).
Proof.
  intros Hw Hb. unfold working_kernel. rewrite cell_map_array, cell_zip_array, Hw, Hb.
  cbn. destruct b; [|done]. by rewrite decide_False by (intros E; by apply E).
Qed.

Lemma masked_weights_Ok (w k : ndarray Qc) (om : ndarray bool) :
  masked_weights w om = Ok k → k = working_kernel w om ∧ shape om = shape w.
Proof.
  unfold masked_weights.
  destruct (bool_decide (shape om = shape w)) eqn:Hsh; monad_step; [|done].
  apply bool_decide_eq_true_1 in Hsh.
  destruct (bool_decide (0 < count_false om)%nat); monad_step; [|done].
  destruct (if decide _ then _ else _); monad_step; [|done].
  destruct (bool_decide (Qcabs _ < tol)%Qc); monad_step; [|done].
  by intros [= <-].
Qed.


Lemma mirror_centre (n K p : nat) :
  (p < n)%nat →
  mirror n (Z.of_nat p + Z.of_nat (K / 2) - Z.of_nat K / 2) = p.
Proof.
  intros Hp. pose proof (Nat2Z.inj_div K 2) as E. simpl (Z.of_nat 2) in E.
  rewrite E. unfold mirror. repeat case_decide; lia.
Qed.

(** ** With a mask and positive weights *)

Lemma cell_val_masked (g t w : ndarray Qc) (m tm : ndarray bool) (io jo : nat) (b : bool) :
  wf g → reflected g t → wf m → reflected m tm → shape m = shape g → wf w →
  Nat.odd (shape0 w) = true → Nat.odd (shape1 w) = true →
  (shape0 w < shape0 g + 1)%nat → (shape1 w < shape1 g + 1)%nat →
  Forall (Forall (λ x, 0 < x)%Qc) (data w) → np_sum w = 1%Qc →
  cell m io jo = Some b →
  cell_val t w (Some tm) false (shape0 g) (shape1 g) io jo
  = Ok (if b then None else Some (masked_convolution_at g w m io jo)).
Proof.
  intros Hwg Hrefl Hwm Hreflm Hsh Hww Ho0 Ho1 Hk0 Hk1 Hpos Hsum Hb.
  pose proof (cell_Some_bounds _ _ _ _ Hwm Hb) as [Hio Hjo].
  injection Hsh as Hs0 Hs1.
  pose proof Hrefl as (Hwt & Ht0 & Ht1 & _).
  pose proof Hreflm as (Hwtm & Hm0 & Hm1 & Hmc).
  unfold cell_val.
  destruct (get_item_cell tm (shape0 g + io) (shape1 g + jo) Hwtm) as (b' & Hb' & Hget);
    [lia..|].
  rewrite Hmc in Hb' by lia.
  replace (refl (shape0 m) (shape0 g + io)) with io in Hb'
    by (unfold refl; repeat case_decide; lia).
  replace (refl (shape1 m) (shape1 g + jo)) with jo in Hb'
    by (unfold refl; repeat case_decide; lia).
  assert (b' = b) as -> by congruence.
  rewrite !Nat2Z.inj_add in Hget. rewrite Hget. monad_step.
  destruct b; [done|].
  unfold average_at. cbv zeta.
  change (get_slice t _ _) with (window_of w (shape0 g) (shape1 g) io jo t).
  change (get_slice tm _ _) with (window_of w (shape0 g) (shape1 g) io jo tm).
  rewrite (window_neighbourhood g t w io jo) by (done || lia).
  pose proof (window_neighbourhood m tm w io jo Hwm Hreflm Ho0 Ho1
                ltac:(lia) ltac:(lia) ltac:(lia) ltac:(lia)) as HM.
  rewrite Hs0, Hs1 in HM. rewrite HM. clear HM.
  set (N := neighbourhood g (shape0 w) (shape1 w) io jo).
  set (M := neighbourhood m (shape0 w) (shape1 w) io jo).
  assert (Hwn : wf N) by (apply wf_neighbourhood; done || lia).
  assert (HwM : wf M) by (apply wf_neighbourhood; done || lia).
  rewrite (bool_decide_eq_true_2 (shape N = shape w)) by done. monad_step.
  assert (Hcount : (0 < count_false M)%nat).
  { apply (count_false_pos _ (shape0 w / 2) (shape1 w / 2)). unfold M.
    assert (0 < shape0 w)%nat by (destruct (shape0 w); [done|lia]).
    assert (0 < shape1 w)%nat by (destruct (shape1 w); [done|lia]).
    rewrite cell_neighbourhood;
      [|done|lia|lia|lia|lia|apply Nat.div_lt; lia|apply Nat.div_lt; lia].
    rewrite !mirror_centre by lia. done. }
  destruct (masked_weights_positive w M Hww HwM eq_refl Hcount Hpos Hsum) as [-> _].
  done.
Qed.

(** With a mask and positive weights every pass of the loop nest succeeds. *)
Lemma masked_passes (g w : ndarray Qc) (m : ndarray bool) :
  wf g → wf w → wf m → shape m = shape g →
  Nat.odd (shape0 w) = true → Nat.odd (shape1 w) = true →
  (shape0 w < shape0 g + 1)%nat → (shape1 w < shape1 g + 1)%nat →
  all_elements (λ x, 0 < x)%Qc w → np_sum w = 1%Qc →
  ∃ t tm, tile_and_reflect g = Ok t
    ∧ tiled_mask_of g (Some m) false (Some tm)
    ∧ ∀ io jo, (io < shape0 g)%nat → (jo < shape1 g)%nat →
        cell_val t w (Some tm) false (shape0 g) (shape1 g) io jo
        = Ok match cell m io jo with
             | Some false => Some (masked_convolution_at g w m io jo)
             | _ => None
             end.
Proof.
  intros Hwg Hww Hwm Hsh Ho0 Ho1 Hk0 Hk1 Hpos Hsum.
  assert (Hr : (0 < shape0 g)%nat) by (destruct (shape0 w); [done|lia]).
  assert (Hc : (0 < shape1 g)%nat) by (destruct (shape1 w); [done|lia]).
  pose proof Hsh as [= Hs0 Hs1].
  destruct (tile_and_reflect_Ok m Hwm) as (tm & Etm & Hreflm); [lia..|].
  destruct (tile_and_reflect_Ok g Hwg Hr Hc) as (t & Et & Hrefl).
  exists t, tm. split; [done|]. split.
  { simpl. split; [done|]. split; [done|]. by exists tm. }
  intros io jo Hio Hjo.
  destruct (cell_is_Some m io jo Hwm) as [b Hb]; [lia..|].
  rewrite (cell_val_masked g t w m tm io jo b) by done.
  rewrite Hb. by destruct b.
Qed.


(** ** Masked values carry no weight *)


Lemma average_masked_same (t t' w : ndarray Qc) (tm : ndarray bool) (i j : Z) :
  wf t → wf t' → wf tm → wf w →
  shape t' = shape t → shape tm = shape t →
  (∀ x y, cell tm x y = Some false → cell t x y = cell t' x y) →
  average_at t w (Some tm) false i j = average_at t' w (Some tm) false i j.
Proof.
  intros Hwt Hwt' Hwtm Hww [= Ht0 Ht1] [= Hm0 Hm1] Hagree.
  unfold average_at. cbv zeta.
  set (rs := sl (i - _) _). set (cs := sl (j - _) _).
  assert (Hsh : shape (get_slice t' rs cs) = shape (get_slice t rs cs)).
  { unfold shape. simpl. by rewrite Ht0, Ht1. }
  rewrite Hsh.
  destruct (bool_decide (shape (get_slice t rs cs) = shape w)) eqn:Hw; monad_step; [|done].
  apply bool_decide_eq_true_1 in Hw.
  destruct (masked_weights w (get_slice tm rs cs)) as [k|e] eqn:Ek; monad_step; [|done].
  apply masked_weights_Ok in Ek as [-> Hom].
  f_equal. f_equal.
  assert (wf (working_kernel w (get_slice tm rs cs))) as Hwk
    by (apply wf_working_kernel; [done|by apply wf_get_slice|done]).
  apply array_ext.
  - apply wf_zip_array; [done|by apply wf_get_slice|done].
  - apply wf_zip_array; [done|by apply wf_get_slice|by rewrite Hsh].
  - done.
  - intros k l Hk Hl. simpl in Hk, Hl. rewrite !cell_zip_array.
    assert (shape0 (get_slice tm rs cs) = shape0 w
            ∧ shape1 (get_slice tm rs cs) = shape1 w) as [Em0 Em1] by (by injection Hom).
    assert (shape0 (get_slice t rs cs) = shape0 w
            ∧ shape1 (get_slice t rs cs) = shape1 w) as [Et0 Et1] by (by injection Hw).
    assert (shape0 (get_slice t' rs cs) = shape0 w
            ∧ shape1 (get_slice t' rs cs) = shape1 w) as [Et0' Et1']
      by (rewrite Hw in Hsh; by injection Hsh).
    destruct (cell_is_Some w k l Hww Hk Hl) as [wv Hwv].
    destruct (cell_is_Some (get_slice tm rs cs) k l) as [b Hb];
      [by apply wf_get_slice|by rewrite Em0|by rewrite Em1|].
    rewrite (cell_working_kernel w _ k l wv b) by done. cbn.
    destruct (cell_is_Some (get_slice t rs cs) k l) as [x Hx];
      [by apply wf_get_slice|by rewrite Et0|by rewrite Et1|].
    destruct (cell_is_Some (get_slice t' rs cs) k l) as [x' Hx'];
      [by apply wf_get_slice|by rewrite Et0'|by rewrite Et1'|].
    rewrite Hx, Hx'. cbn. destruct b.
    + f_equal. ring.
    + rewrite cell_get_slice in Hb. rewrite cell_get_slice in Hx.
      rewrite cell_get_slice in Hx'. rewrite Hm0, Hm1 in Hb.
      rewrite Ht0, Ht1 in Hx'. repeat case_decide; try done; apply Hagree in Hb; congruence.
Qed.

Lemma write_vals_same (t t' w : ndarray Qc) (tm : option (ndarray bool)) (slow : bool)
    (r c : nat) (ps : list (nat * nat)) (o o' : ndarray Qc) :
  (∀ p, p ∈ ps → cell_val t w tm slow r c p.1 p.2 = cell_val t' w tm slow r c p.1 p.2) →
  same_outcome (λ _ _, True)
    (for_each (write_val t w tm slow r c) ps o)
    (for_each (write_val t' w tm slow r c) ps o').
Proof.
  revert o o'. induction ps as [|p ps IH]; intros o o' Hval; [done|].
  cbn [for_each].
  assert (write_val t w tm slow r c o p
          = match cell_val t w tm slow r c p.1 p.2 with
            | Raise e => Raise e
            | Ok None => Ok o
            | Ok (Some v) => Ok (set_item o p.1 p.2 v)
            end) as -> by done.
  assert (write_val t' w tm slow r c o' p
          = match cell_val t w tm slow r c p.1 p.2 with
            | Raise e => Raise e
            | Ok None => Ok o'
            | Ok (Some v) => Ok (set_item o' p.1 p.2 v)
            end) as -> by (unfold write_val; by rewrite <- (Hval p) by left).
  destruct (cell_val t w tm slow r c p.1 p.2) as [[v|]|e]; monad_step; [| |done];
    (apply IH; intros q Hq; apply Hval; by right).
Qed.



(** ** A flat field, again *)

Lemma all_elements_cell {A} (P : A → Prop) (a : ndarray A) i j x :
  all_elements P a → cell a i j = Some x → P x.
Proof.
  intros Ha Hc. unfold cell in Hc.
  destruct (data a !! i) as [row|] eqn:E; [|done]. simpl in Hc.
  pose proof (Forall_lookup_1 _ _ _ _ Ha E) as Hrow.
  by apply (Forall_lookup_1 _ _ _ _ Hrow Hc).
Qed.

Lemma cells_all_elements {A} (P : A → Prop) (a : ndarray A) :
  (∀ i j x, cell a i j = Some x → P x) → all_elements P a.
Proof.
  intros Hc. apply Forall_lookup_2. intros i row Hrow.
  apply Forall_lookup_2. intros j b Hb. apply (Hc i j). unfold cell.
  by rewrite Hrow.
Qed.

Lemma neighbourhood_all_elements {A} (P : A → Prop) (a : ndarray A) (K L io jo : nat) :
  wf a → (K < shape0 a + 1)%nat → (L < shape1 a + 1)%nat →
  (io < shape0 a)%nat → (jo < shape1 a)%nat →
  all_elements P a → all_elements P (neighbourhood a K L io jo).
Proof.
  intros Hwf HK HL Hio Hjo Ha. apply cells_all_elements. intros k l x Hx.
  pose proof (cell_Some_bounds _ _ _ _ (wf_neighbourhood a K L io jo Hwf HK HL Hio Hjo) Hx)
    as [Hk Hl]. simpl in Hk, Hl.
  rewrite cell_neighbourhood in Hx by done. by eapply all_elements_cell.
Qed.

Lemma constant_ext {A} (v : A) (a b : ndarray A) :
  wf a → wf b → shape a = shape b → constant v a → constant v b → a = b.
Proof.
  intros Hwa Hwb Hsh Ha Hb. apply array_ext; [done..|]. intros i j Hi Hj.
  injection Hsh as Hs0 Hs1.
  destruct (cell_is_Some a i j Hwa Hi Hj) as [x Hx].
  destruct (cell_is_Some b i j Hwb) as [y Hy]; [lia..|].
  rewrite Hx, Hy. f_equal.
  apply (constant_cell v) in Hx; [|done]. apply (constant_cell v) in Hy; [|done].
  congruence.
Qed.

Lemma convolution_at_constant (g w : ndarray Qc) (io jo : nat) (v : Qc) :
  wf g → wf w →
  (shape0 w < shape0 g + 1)%nat → (shape1 w < shape1 g + 1)%nat →
  (io < shape0 g)%nat → (jo < shape1 g)%nat →
  constant v g → convolution_at g w io jo = (np_sum w * v)%Qc.
Proof.
  intros Hwg Hww Hk0 Hk1 Hio Hjo Hconst. unfold convolution_at.
  rewrite (zip_array_constant Qcmult w _ v);
    [|done|by apply wf_neighbourhood|done|by apply neighbourhood_all_elements].
  apply np_sum_times.
Qed.



(** ** Weights that are not negative *)

Lemma weighted_bounds (ws ns : list Qc) (lo hi : Qc) :
  length ns = length ws →
  Forall (λ x, 0 ≤ x)%Qc ws → Forall (λ x, lo ≤ x ∧ x ≤ hi)%Qc ns →
  (lo * np_sum1 ws ≤ np_sum1 (zip_with Qcmult ws ns)
   ∧ np_sum1 (zip_with Qcmult ws ns) ≤ hi * np_sum1 ws)%Qc.
Proof.
  intros Hlen Hws. revert ns Hlen.
  induction Hws as [|w ws Hw _ IH]; intros [|n ns] Hlen Hns; try done.
  - change (np_sum1 []) with 0%Qc. rewrite !Qcmult_0_r. split; apply Qcle_refl.
  - apply Forall_cons in Hns as [[Hlo Hhi] Hns]. cbn [zip_with].
    destruct (IH ns) as [IHlo IHhi]; [simpl in Hlen; lia|done|].
    rewrite !np_sum1_cons. split.
    + replace (lo * (w + np_sum1 ws))%Qc with (lo * w + lo * np_sum1 ws)%Qc by ring.
      apply Qcplus_le_compat; [|done]. rewrite (Qcmult_comm w n).
      by apply Qcmult_le_compat_r.
    + replace (hi * (w + np_sum1 ws))%Qc with (hi * w + hi * np_sum1 ws)%Qc by ring.
      apply Qcplus_le_compat; [|done]. rewrite (Qcmult_comm w n).
      by apply Qcmult_le_compat_r.
Qed.

Lemma np_sum_zip_array (w n : ndarray Qc) :
  wf w → wf n → shape n = shape w →
  np_sum (zip_array Qcmult w n) = np_sum1 (zip_with Qcmult (concat (data w)) (concat (data n)))
  ∧ length (concat (data n)) = length (concat (data w)).
Proof.
  intros Hww Hwn Hsh. unfold np_sum, zip_array. cbn [data].
  destruct (concat_zip_with Qcmult (data w) (data n)) as [-> ->];
    [by apply rows_same_length|done].
Qed.

Lemma convolution_at_bounds (g w : ndarray Qc) (io jo : nat) (lo hi : Qc) :
  wf g → wf w →
  (shape0 w < shape0 g + 1)%nat → (shape1 w < shape1 g + 1)%nat →
  (io < shape0 g)%nat → (jo < shape1 g)%nat →
  all_elements (λ x, 0 ≤ x)%Qc w → np_sum w = 1%Qc →
  all_elements (λ x, lo ≤ x ∧ x ≤ hi)%Qc g →
  (lo ≤ convolution_at g w io jo ∧ convolution_at g w io jo ≤ hi)%Qc.
Proof.
  intros Hwg Hww Hk0 Hk1 Hio Hjo Hpos Hsum Hg. unfold convolution_at.
  destruct (np_sum_zip_array w (neighbourhood g (shape0 w) (shape1 w) io jo))
    as [-> Hlen]; [done|by apply wf_neighbourhood|done|].
  pose proof (weighted_bounds (concat (data w)) _ lo hi Hlen) as Hb.
  fold (np_sum w) in Hb. rewrite Hsum, !Qcmult_1_r in Hb. apply Hb.
  - by apply Forall_concat.
  - apply Forall_concat. by apply (neighbourhood_all_elements _ g).
Qed.


(** ** Linearity *)

Lemma weighted_combine (ws n1 n2 : list Qc) (a b : Qc) :
  length n1 = length ws → length n2 = length ws →
  np_sum1 (zip_with Qcmult ws (zip_with (λ x y, a * x + b * y)%Qc n1 n2))
  = (a * np_sum1 (zip_with Qcmult ws n1) + b * np_sum1 (zip_with Qcmult ws n2))%Qc.
Proof.
  revert n1 n2. induction ws as [|w ws IH]; intros [|x n1] [|y n2] H1 H2; try done.
  - unfold np_sum1. cbn. ring.
  - cbn [zip_with]. rewrite !np_sum1_cons, IH by (simpl in *; lia). ring.
Qed.

Lemma wf_combine (a b : Qc) (g1 g2 : ndarray Qc) :
  wf g1 → wf g2 → shape g2 = shape g1 → wf (combine a b g1 g2).
Proof. intros. by apply wf_zip_array. Qed.

Lemma neighbourhood_combine (a b : Qc) (g1 g2 : ndarray Qc) (K L io jo : nat) :
  wf g1 → wf g2 → shape g2 = shape g1 →
  (K < shape0 g1 + 1)%nat → (L < shape1 g1 + 1)%nat →
  (io < shape0 g1)%nat → (jo < shape1 g1)%nat →
  neighbourhood (combine a b g1 g2) K L io jo
  = combine a b (neighbourhood g1 K L io jo) (neighbourhood g2 K L io jo).
Proof.
  intros Hw1 Hw2 Hsh HK HL Hio Hjo. pose proof Hsh as [= Hs0 Hs1].
  assert (Hwn1 : wf (neighbourhood g1 K L io jo)) by by apply wf_neighbourhood.
  assert (Hwn2 : wf (neighbourhood g2 K L io jo)) by (apply wf_neighbourhood; done || lia).
  apply array_ext.
  - apply wf_neighbourhood; [by apply wf_combine|done..].
  - by apply wf_combine.
  - done.
  - intros k l Hk Hl. simpl in Hk, Hl.
    rewrite cell_neighbourhood by (done || by apply wf_combine).
    unfold combine. rewrite !cell_zip_array.
    rewrite !cell_neighbourhood by (done || lia). cbn [shape0 shape1 zip_array].
    by rewrite Hs0, Hs1.
Qed.

Lemma convolution_at_combine (a b : Qc) (g1 g2 w : ndarray Qc) (io jo : nat) :
  wf g1 → wf g2 → shape g2 = shape g1 → wf w →
  (shape0 w < shape0 g1 + 1)%nat → (shape1 w < shape1 g1 + 1)%nat →
  (io < shape0 g1)%nat → (jo < shape1 g1)%nat →
  convolution_at (combine a b g1 g2) w io jo
  = (a * convolution_at g1 w io jo + b * convolution_at g2 w io jo)%Qc.
Proof.
  intros Hw1 Hw2 Hsh Hww Hk0 Hk1 Hio Hjo. pose proof Hsh as [= Hs0 Hs1].
  unfold convolution_at. rewrite neighbourhood_combine by done.
  set (N1 := neighbourhood g1 _ _ _ _). set (N2 := neighbourhood g2 _ _ _ _).
  assert (Hwn1 : wf N1) by by apply wf_neighbourhood.
  assert (Hwn2 : wf N2) by (apply wf_neighbourhood; done || lia).
  destruct (np_sum_zip_array w N1) as [-> L1]; [done..|].
  destruct (np_sum_zip_array w N2) as [-> L2]; [done..|].
  destruct (np_sum_zip_array w (combine a b N1 N2)) as [-> _];
    [done|by apply wf_combine|done|].
  unfold combine, zip_array at 1. cbn [data].
  destruct (concat_zip_with (λ x y, a * x + b * y)%Qc (data N1) (data N2)) as [-> _];
    [by apply rows_same_length|].
  by apply weighted_combine.
Qed.


(** ** More on the kernel *)

Lemma py_int_small (x : Qc) : (-1 < x)%Qc → (x < 1)%Qc → py_int x = 0.
Proof.
  destruct x as [[n d] Hc]. unfold py_int, Qclt, Qlt. simpl. intros Hlo Hhi.
  destruct (Z.le_gt_cases 0 n) as [Hn|Hn].
  - apply Z.quot_small. lia.
  - replace n with (- - n) by lia. rewrite Z.quot_opp_l by done.
    rewrite Z.quot_small; lia.
Qed.

Section kernel_facts.
Context (np_exp : Qc → Qc).

Lemma shape_gaussian_kernel (sigma truncate : Qc) :
  let side := Z.to_nat (2 * kernel_radius sigma truncate + 1) in
  wf (gaussian_kernel np_exp sigma truncate)
  ∧ shape (gaussian_kernel np_exp sigma truncate) = (side, side).
Proof.
  intros side. rewrite gaussian_kernel_unfold. split.
  - apply wf_map_array, wf_unnormalized.
  - unfold shape. simpl. by rewrite length_offsets.
Qed.

Lemma odd_side (radius : Z) : 0 ≤ radius → Nat.odd (Z.to_nat (2 * radius + 1)) = true.
Proof.
  intros Hr. replace (Z.to_nat (2 * radius + 1)) with (2 * Z.to_nat radius + 1)%nat by lia.
  rewrite Nat.odd_spec. by eexists.
Qed.

Lemma gaussian_kernel_sum (sigma truncate : Qc) :
  np_sum (unnormalized np_exp sigma truncate) ≠ 0%Qc →
  np_sum (gaussian_kernel np_exp sigma truncate) = 1%Qc.
Proof.
  intros Hs. rewrite gaussian_kernel_unfold, np_sum_scale. by apply Qcmult_inv_r.
Qed.

Lemma gauss_sym sigma x y : gauss np_exp sigma x y = gauss np_exp sigma y x.
Proof. unfold gauss. by rewrite (Z.add_comm (x ^ 2)). Qed.

Lemma gauss_opp sigma x y : gauss np_exp sigma (- x) y = gauss np_exp sigma x y.
Proof. unfold gauss. by replace ((- x) ^ 2) with (x ^ 2) by lia. Qed.

Lemma cell_gaussian_kernel (sigma truncate : Qc) (x y : Z) :
  let radius := kernel_radius sigma truncate in
  - radius ≤ x ≤ radius → - radius ≤ y ≤ radius →
  cell (gaussian_kernel np_exp sigma truncate)
    (Z.to_nat (x + radius)) (Z.to_nat (y + radius))
  = Some (gauss np_exp sigma x y / np_sum (unnormalized np_exp sigma truncate))%Qc.
Proof.
  intros radius Hx Hy. rewrite gaussian_kernel_unfold, cell_map_array.
  by rewrite cell_unnormalized.
Qed.

(** X16: for a sigma other than 0, the kernel is symmetric: the weight at
    offset [(x, y)] from the centre is the weight at [(y, x)], at [(-x, y)]
    and at [(x, -y)]. *)
Theorem gaussian_kernel_symmetric (sigma truncate : Qc) :
  sigma ≠ 0%Qc →
  let radius := kernel_radius sigma truncate in
  let k := gaussian_kernel np_exp sigma truncate in
  ∀ x y, - radius ≤ x ≤ radius → - radius ≤ y ≤ radius →
    cell k (Z.to_nat (y + radius)) (Z.to_nat (x + radius))
    = cell k (Z.to_nat (x + radius)) (Z.to_nat (y + radius))
    ∧ cell k (Z.to_nat (- x + radius)) (Z.to_nat (y + radius))
      = cell k (Z.to_nat (x + radius)) (Z.to_nat (y + radius))
    ∧ cell k (Z.to_nat (x + radius)) (Z.to_nat (- y + radius))
      = cell k (Z.to_nat (x + radius)) (Z.to_nat (y + radius)).
Proof.
  intros _ radius k x y Hx Hy. unfold k, radius.
  rewrite !cell_gaussian_kernel by (fold radius; lia).
  rewrite (gauss_sym sigma y x), gauss_opp.
  rewrite (gauss_sym sigma x (- y)), gauss_opp, (gauss_sym sigma y x). done.
Qed.

Lemma gaussian_kernel_radius_0 (sigma truncate : Qc) :
  np_exp 0%Qc = 1%Qc → kernel_radius sigma truncate = 0 →
  gaussian_kernel np_exp sigma truncate = NdArray 1 1 [[1%Qc]].
Proof.
  intros Hexp Hr.
  rewrite gaussian_kernel_unfold. unfold unnormalized. rewrite Hr.
  change (offsets 0) with [0]. cbn [length fmap list_fmap].
  rewrite gauss_centre by done.
  unfold map_array, np_sum, np_sum1. cbn. do 3 f_equal. by apply Qc_is_canon.
Qed.


Context (np_exp_pos : ∀ x, (0 < np_exp x)%Qc).

Lemma gauss_pos sigma x y : (0 < gauss np_exp sigma x y)%Qc.
Proof using np_exp_pos. apply Qcmult_pos_pos; [done|apply np_exp_pos]. Qed.

Lemma sum_unnormalized_positive sigma truncate :
  0 ≤ kernel_radius sigma truncate →
  (0 < np_sum (unnormalized np_exp sigma truncate))%Qc.
Proof using np_exp_pos.
  intros Hr. apply Qclt_le_trans with (gauss np_exp sigma 0 0); [apply gauss_pos|].
  unfold np_sum. apply np_sum1_elem.
  - apply Forall_concat, Forall_fmap, Forall_forall. intros x _. simpl.
    apply Forall_fmap, Forall_forall. intros y _. simpl.
    apply Qclt_le_weak, gauss_pos.
  - pose proof (lookup_offsets (kernel_radius sigma truncate) 0 ltac:(lia)) as H0.
    apply list_elem_of_lookup_2 in H0.
    apply (elem_of_concat _ (gauss np_exp sigma 0 <$> offsets (kernel_radius sigma truncate)));
      [by apply list_elem_of_fmap_2|].
    simpl. by apply (list_elem_of_fmap_2 (λ x, gauss np_exp sigma x <$> _)).
Qed.

Lemma gaussian_weights_pos (sigma truncate : Qc) :
  0 ≤ kernel_radius sigma truncate →
  all_elements (λ x, 0 < x)%Qc (gaussian_kernel np_exp sigma truncate).
Proof using np_exp_pos.
  intros Hr. pose proof (sum_unnormalized_positive sigma truncate Hr) as Hs.
  rewrite gaussian_kernel_unfold. unfold all_elements, map_array, unnormalized.
  cbn [data]. apply Forall_fmap, Forall_fmap, Forall_forall. intros x _. simpl.
  apply Forall_fmap, Forall_fmap, Forall_forall. intros y _. simpl.
  apply Qcmult_pos_pos; [apply gauss_pos|by apply Qcinv_pos].
Qed.


End kernel_facts.

(** ** The kernel with one weight *)

Lemma convolve_single_weight (g : ndarray Qc) :
  wf g → (0 < shape0 g)%nat → (0 < shape1 g)%nat →
  convolve g (NdArray 1 1 [[1%Qc]]) None false = Ok g.
Proof.
  intros Hwg Hr Hc. set (w := NdArray 1 1 [[1%Qc]]).
  assert (Hww : wf w) by (split; [done|repeat constructor]).
  destruct (tile_and_reflect_Ok g Hwg Hr Hc) as (t & Et & Hrefl).
  destruct (convolve_run g w t None None false (λ io jo, Some (convolution_at g w io jo)))
    as (out & Hout & Hwo & Hsh & Hcells); [done|simpl; lia|simpl; lia|done|done| |].
  { intros io jo Hio Hjo. apply cell_val_unmasked; done || simpl; lia. }
  rewrite Hout. f_equal. apply array_ext; [done..|].
  injection Hsh as Hs0 Hs1. intros io jo Hio Hjo. rewrite Hcells by lia.
  destruct (cell_is_Some g io jo Hwg) as [x Hx]; [lia..|]. rewrite Hx. f_equal.
  unfold convolution_at.
  set (N := neighbourhood g (shape0 w) (shape1 w) io jo).
  assert (HwN : wf N) by (apply wf_neighbourhood; done || simpl; lia).
  assert (N = NdArray 1 1 [[x]]) as ->.
  { apply array_ext; [done|split; [done|repeat constructor]|done|].
    intros [|k] [|l] Hk Hl; simpl in Hk, Hl; try lia.
    unfold N. rewrite cell_neighbourhood by (done || simpl; lia).
    change (Z.of_nat (shape0 w) / 2) with 0. change (Z.of_nat (shape1 w) / 2) with 0.
    replace (mirror (shape0 g) _) with io by (unfold mirror; repeat case_decide; lia).
    replace (mirror (shape1 g) _) with jo by (unfold mirror; repeat case_decide; lia).
    done. }
  unfold np_sum, np_sum1. cbn. ring.
Qed.

(** ** The smoothing step on rasters of all sizes *)

Section smoothing_step.
Context (np_exp : Qc → Qc) (NUMPY_SMOOTHING : string).

Local Abbreviation smoothing := (smoothed_array np_exp NUMPY_SMOOTHING).
Local Abbreviation kernel sigma := (gaussian_kernel np_exp sigma (Qc_of_Z 4)).
Local Abbreviation radius_of sigma := (kernel_radius sigma (Qc_of_Z 4)).

Lemma kernel_side (sigma : Qc) :
  wf (kernel sigma)
  ∧ shape0 (kernel sigma) = Z.to_nat (2 * radius_of sigma + 1)
  ∧ shape1 (kernel sigma) = Z.to_nat (2 * radius_of sigma + 1).
Proof.
  destruct (shape_gaussian_kernel np_exp sigma (Qc_of_Z 4)) as [Hwk Hsh].
  split; [done|]. split; by injection Hsh.
Qed.

(** X20: the Gaussian smoothing of a raster with fewer rows or fewer columns
    than the side [2 * radius + 1] of the kernel ends with an
    [AssertionError]. *)
Theorem smoothed_array_small_raster (shakemap_array : ndarray Qc) (smoothing_sigma : Qc) :
  Z.of_nat (shape0 shakemap_array) < 2 * radius_of smoothing_sigma + 1
  ∨ Z.of_nat (shape1 shakemap_array) < 2 * radius_of smoothing_sigma + 1 →
  smoothing shakemap_array NUMPY_SMOOTHING smoothing_sigma = Raise AssertionError.
Proof.
  intros Hsmall. unfold smoothed_array. rewrite decide_True by done.
  destruct (kernel_side smoothing_sigma) as (_ & Hk0 & Hk1).
  unfold convolve.
  destruct (bool_decide (shape0 _ < _)%nat) eqn:E0; monad_step; [|done].
  destruct (bool_decide (shape1 _ < _)%nat) eqn:E1; monad_step; [|done].
  apply bool_decide_eq_true_1 in E0, E1. lia.
Qed.



Context (np_exp_nonneg : ∀ x, (0 ≤ np_exp x)%Qc) (np_exp_0 : np_exp 0%Qc = 1%Qc).

Lemma kernel_normalized (sigma : Qc) :
  0 ≤ radius_of sigma →
  all_elements (λ x, 0 ≤ x)%Qc (kernel sigma) ∧ np_sum (kernel sigma) = 1%Qc.
Proof using np_exp_nonneg np_exp_0.
  intros Hr.
  pose proof (sum_unnormalized_pos np_exp np_exp_nonneg np_exp_0 sigma (Qc_of_Z 4) Hr) as Hs.
  split.
  - rewrite gaussian_kernel_unfold. unfold all_elements, map_array, unnormalized.
    cbn [data]. apply Forall_fmap, Forall_fmap, Forall_forall. intros x _. simpl.
    apply Forall_fmap, Forall_fmap, Forall_forall. intros y _. simpl.
    apply Qcmult_nonneg_nonneg; [by apply gauss_nonneg|].
    by apply Qclt_le_weak, Qcinv_pos.
  - apply gaussian_kernel_sum. intros E. rewrite E in Hs. by apply Qclt_not_eq in Hs.
Qed.


End smoothing_step.

(** ** The runs of [create_contour] *)

(** One more call of the run under analysis: it returns or it raises. *)
Ltac next_call H :=
  match type of H with
  | context [match ?w ?h ?c with Returns _ => _ | Throws _ _ => _ end] =>
      let a := fresh "a" in
      destruct (w h c) as [a|? ?] eqn:?;
      cbv beta iota in H
  | context [match ?o with Some _ => _ | None => _ end] =>
      is_var o; destruct o; cbv beta iota in H
  end.

Ltac unfold_run H :=
  cbv [create_contour create_field invoke mbind io_bind mret io_ret raising lift
       not_none try_except try_finally is_exception_instance] in H.

Section runs.
Context (np_exp : Qc → Qc) (NUMPY_SMOOTHING : string).
Context (dirname basename : string → string) (splitext : string → string * string)
        (join : string → string → string).

Local Abbreviation create_contour :=
  (create_contour np_exp NUMPY_SMOOTHING dirname basename splitext join).

(** X25: in every run of [create_contour], whatever the calls return or
    raise, the datasource is released once when the generation of the
    contours has been called (also when that call raises), and it is not
    released otherwise; the contours are generated at most once. *)
Theorem create_contour_releases (w : world) (output_file_path : string) (active_band : Z)
    (smoothing_method : string) (smoothing_sigma : Qc) r h :
  create_contour output_file_path active_band smoothing_method smoothing_sigma w [] = (r, h) →
  length (calls_of is_release h) = length (calls_of is_contour_generate h)
  ∧ (length (calls_of is_contour_generate h) ≤ 1)%nat.
Proof.
  intros Hrun. unfold_run Hrun.
  destruct (decide (output_file_path = "")); cbv beta iota in Hrun.
  all: repeat next_call Hrun.
  all: try (destruct (smoothed_array _ _ _ _ _); cbv beta iota in Hrun).
  all: repeat next_call Hrun.
  all: try (destruct is_exception; cbv beta iota in Hrun; repeat next_call Hrun).
  all: injection Hrun as <- <-; cbn; split; lia.
Qed.


(** X27: a run of [create_contour] ends with a [ContourCreationError] in
    two cases only.  Either the driver returned no datasource: the message
    names the output path and nothing is released.  Or the generation of the
    contours raised an instance of [Exception]: it is logged, the datasource
    is released, and the message is the text of that exception.  In both
    cases no file has been copied. *)
Theorem create_contour_error_wrapped (w : world) (output_file_path : string)
    (active_band : Z) (smoothing_method : string) (smoothing_sigma : Qc) m h :
  create_contour output_file_path active_band smoothing_method smoothing_sigma w []
  = (Failed (ContourCreationError m), h) →
  calls_of is_copy_file h = []
  ∧ ((∃ driver path,
        m = could_not_create_datasource path
        ∧ last h = Some (CreateDataSource driver path)
        ∧ w (removelast h) (CreateDataSource driver path) = Returns None
        ∧ calls_of is_release h = [])
     ∨ (∃ id ogr_dataset h0 contour_generate,
          is_contour_generate contour_generate = true
          ∧ h = h0 ++ [contour_generate; LoggerException "Contour creation failed";
                       Release ogr_dataset]
          ∧ w h0 contour_generate = Throws true id
          ∧ m = str (LibraryError true id))).
Proof.
  intros Hrun. unfold_run Hrun.
  destruct (decide (output_file_path = "")); cbv beta iota in Hrun.
  all: repeat next_call Hrun.
  all: try (destruct (smoothed_array _ _ _ _ _) eqn:Hsmooth; cbv beta iota in Hrun).
  all: repeat next_call Hrun.
  all: try (destruct is_exception; cbv beta iota in Hrun; repeat next_call Hrun).
  all: simplify_eq.
  all: split; [reflexivity|].
  all: first
    [ left; cbn; by eauto 10
    | right;
      match goal with
      | Hcg : _ ?h0 ?cg = Throws true ?id |- context [Release ?ds] =>
          exists id, ds, h0, cg; split; [reflexivity|]; split; [|done];
          by rewrite <- !app_assoc
      end ].
Qed.

(** X28: when a run of [create_contour] returns, it returns the output path
    it was given or, when that path is empty, the path made of the directory
    of the source of the layer and of the base name of that source followed
    by [-contour.geojson]; the contours have been generated once, the
    datasource has been released once, and the two files that are copied go
    next to the output path, under its base name with the extensions [.prj]
    and [.qml]. *)
Theorem create_contour_returns (w : world) (output_file_path : string)
    (active_band : Z) (smoothing_method : string) (smoothing_sigma : Qc) p h :
  create_contour output_file_path active_band smoothing_method smoothing_sigma w []
  = (Done p, h) →
  (output_file_path ≠ "" → p = output_file_path)
  ∧ (output_file_path = "" →
     ∃ input_layer_path,
       w [] LayerSource = Returns input_layer_path
       ∧ p = join (dirname input_layer_path)
               ((splitext (basename input_layer_path)).1 ++ "-contour" ++ ".geojson"))
  ∧ length (calls_of is_contour_generate h) = 1%nat
  ∧ length (calls_of is_release h) = 1%nat
  ∧ ∃ source_projection_path source_qml_path,
      calls_of is_copy_file h
      = [CopyFile source_projection_path
           (join (dirname p) ((splitext (basename p)).1 ++ ".prj"));
         CopyFile source_qml_path
           (join (dirname p) ((splitext (basename p)).1 ++ ".qml"))].
Proof.
  intros Hrun. unfold_run Hrun.
  destruct (decide (output_file_path = "")); cbv beta iota in Hrun.
  all: repeat next_call Hrun.
  all: try (destruct (smoothed_array _ _ _ _ _) eqn:Hsmooth; cbv beta iota in Hrun).
  all: repeat next_call Hrun.
  all: try (destruct is_exception; cbv beta iota in Hrun; repeat next_call Hrun).
  all: simplify_eq.
  all: split; [done|]; split; [intros; simplify_eq; by eauto|].
  all: split; [reflexivity|]; split; [reflexivity|]; cbn; by eauto.
Qed.

(** X29: with the Gaussian smoothing and a raster with fewer rows or fewer
    columns than the side [2 * radius + 1] of the kernel, no run of
    [create_contour] returns a path, and no run makes a call but those that
    read the raster. *)
Theorem create_contour_small_raster (w : world) (shakemap_array : ndarray Qc)
    (output_file_path : string) (active_band : Z) (smoothing_sigma : Qc) r h :
  (∀ h band, w h (ReadAsArray band) = Returns shakemap_array) →
  Z.of_nat (shape0 shakemap_array) < 2 * kernel_radius smoothing_sigma (Qc_of_Z 4) + 1
  ∨ Z.of_nat (shape1 shakemap_array) < 2 * kernel_radius smoothing_sigma (Qc_of_Z 4) + 1 →
  create_contour output_file_path active_band NUMPY_SMOOTHING smoothing_sigma w [] = (r, h) →
  (∀ p, r ≠ Done p) ∧ Forall (λ c, is_read c = true) h.
Proof.
  intros Hworld Hsmall Hrun.
  assert (Hsmooth : smoothed_array np_exp NUMPY_SMOOTHING shakemap_array NUMPY_SMOOTHING
                      smoothing_sigma = Raise AssertionError).
  { unfold smoothed_array. rewrite decide_True by done.
    destruct (kernel_side np_exp smoothing_sigma) as (_ & Hk0 & Hk1).
    unfold convolve.
    destruct (bool_decide (shape0 _ < _)%nat) eqn:E0; monad_step; [|done].
    destruct (bool_decide (shape1 _ < _)%nat) eqn:E1; monad_step; [|done].
    apply bool_decide_eq_true_1 in E0, E1. lia. }
  unfold_run Hrun.
  destruct (decide (output_file_path = "")); cbv beta iota in Hrun.
  all: repeat next_call Hrun.
  all: try match goal with
           | H : _ ?h (ReadAsArray ?b) = Returns ?a |- _ =>
               rewrite (Hworld h b) in H; injection H as <-;
               rewrite Hsmooth in Hrun; cbv beta iota in Hrun
           end.
  all: simplify_eq.
  all: split; [done|cbn; repeat constructor].
Qed.
End runs.

(** ** The theorems at concrete inputs *)

Lemma wf_grid_124 : wf grid_124.
Proof. split; [reflexivity|repeat constructor]. Qed.

Lemma wf_kernel_qhq : wf kernel_qhq.
Proof. split; [reflexivity|repeat constructor]. Qed.

Lemma rational_exp_nonneg (x : Qc) : (0 ≤ rational_exp x)%Qc.
Proof.
  unfold rational_exp. case_decide as Hx.
  - apply Qclt_le_weak. unfold Qcdiv. rewrite Qcmult_1_l. apply Qcinv_pos.
    apply Qclt_minus_iff. rewrite Qcplus_0_r. unfold Qcminus.
    apply Qcplus_pos_nonneg; [done|].
    apply Qcle_minus_iff in Hx. by rewrite Qcplus_0_l in Hx.
  - apply Qcnot_le_lt in Hx. apply Qclt_le_weak. by apply Qcplus_pos_pos.
Qed.

Lemma tile_and_reflect_seams_witness :
  wf grid_2x2 ∧ self_equal grid_2x2
  ∧ (0 < shape0 grid_2x2)%nat ∧ (0 < shape1 grid_2x2)%nat
  ∧ ∃ t, tile_and_reflect grid_2x2 = Ok t
      ∧ wf t ∧ shape t = (6, 6)%nat
      ∧ get_slice t (sl 2 4) (sl 2 4) = grid_2x2
      ∧ (∃ top, get_row grid_2x2 0 sl_all = Ok top
             ∧ get_row t 1 (sl 2 4) = Ok top)
      ∧ (∃ right, get_col grid_2x2 sl_all (-1) = Ok right
             ∧ get_col t (sl 2 4) 4 = Ok right)
      ∧ (∃ bottom, get_row grid_2x2 (-1) sl_all = Ok bottom
             ∧ get_row t 4 (sl 2 4) = Ok bottom)
      ∧ (∃ left, get_col grid_2x2 sl_all 0 = Ok left
             ∧ get_col t (sl 2 4) 1 = Ok left).
Proof.
  assert (Hwf : wf grid_2x2) by (split; [reflexivity|repeat constructor]).
  assert (Hself : self_equal grid_2x2) by (repeat constructor).
  split; [exact Hwf|]. split; [exact Hself|]. split; [simpl; lia|]. split; [simpl; lia|].
  apply (tile_and_reflect_seams grid_2x2 Hwf Hself); simpl; lia.
Defined.

(** C3, as stated, fails on an array without rows, where the check of the
    top seam reads row 0 of the input, and on an array that holds a NaN,
    where the check of the central tile compares the NaN with itself. *)
Lemma tile_and_reflect_raises :
  wf grid_0x3 ∧ tile_and_reflect grid_0x3 = Raise IndexError
  ∧ wf grid_nan ∧ tile_and_reflect grid_nan = Raise AssertionError.
Proof.
  split; [split; [reflexivity|constructor]|]. split; [reflexivity|].
  split; [split; [reflexivity|repeat constructor]|reflexivity].
Qed.

Lemma masked_cells_pass_through_witness :
  wf grid_124 ∧ wf mask_fft
  ∧ convolve grid_124 kernel_qhq (Some mask_fft) false
    = Ok (NdArray 1 3 [[q 5 4; q 13 8; q 4 1]])
  ∧ cell mask_fft 0 2 = Some true
  ∧ cell (NdArray 1 3 [[q 5 4; q 13 8; q 4 1]]) 0 2 = cell grid_124 0 2.
Proof.
  assert (Hm : wf mask_fft) by (split; [reflexivity|repeat constructor]).
  assert (Hrun : convolve grid_124 kernel_qhq (Some mask_fft) false
                 = Ok (NdArray 1 3 [[q 5 4; q 13 8; q 4 1]])) by by_evaluation.
  split; [exact wf_grid_124|]. split; [exact Hm|]. split; [exact Hrun|].
  split; [reflexivity|].
  apply (masked_cells_pass_through grid_124 kernel_qhq mask_fft false _
           wf_grid_124 Hm Hrun). reflexivity.
Defined.

Lemma convolve_invalid_input_witness :
  ¬ (shape1 kernel_qhq < shape1 grid_12 + 1)%nat
  ∧ convolve grid_12 kernel_qhq None false = Raise AssertionError.
Proof.
  assert (H : ¬ (shape1 kernel_qhq < shape1 grid_12 + 1)%nat) by (simpl; lia).
  split; [exact H|].
  apply (convolve_invalid_input grid_12 kernel_qhq None false). right. left. exact H.
Defined.










(** ** The masked branch on a kernel with a zero weight *)

(** C1: with the weights [0, 0.5, 0.5] and the last point of the window
    masked, the correction 0.25 is added to the middle weight only; the
    working kernel [0, 0.75, 0] sums to 0.75 and the assertion on its sum
    fails. *)
Theorem working_kernel_sum_not_one :
  np_sum kernel_0hh = 1%Qc
  ∧ working_kernel kernel_0hh mask_fft = NdArray 1 3 [[q 0 1; q 3 4; q 0 1]]
  ∧ np_sum (working_kernel kernel_0hh mask_fft) = q 3 4
  ∧ masked_weights kernel_0hh mask_fft = Raise AssertionError
  ∧ convolve grid_124 kernel_0hh (Some mask_fft) false = Raise AssertionError.
Proof.
  split; [by apply Qc_is_canon|]. split; [by_evaluation|].
  split; [by apply Qc_is_canon|]. split; by_evaluation.
Qed.

(** C7: on the grid [5, 5, 5] with the same weights and mask the call ends
    with an [AssertionError] instead of returning [5, 5, 5]; without the
    mask it returns [5, 5, 5]. *)
Theorem constant_grid_masked_raises :
  np_sum kernel_0hh = 1%Qc
  ∧ convolve grid_555 kernel_0hh None false = Ok grid_555
  ∧ convolve grid_555 kernel_0hh (Some mask_fft) false = Raise AssertionError.
Proof.
  split; [by apply Qc_is_canon|]. split; by_evaluation.
Qed.

(** ** Further properties at concrete inputs *)

Ltac wf_evaluation := split; [reflexivity|repeat constructor].

Lemma rational_exp_pos (x : Qc) : (0 < rational_exp x)%Qc.
Proof.
  unfold rational_exp. case_decide as Hx.
  - unfold Qcdiv. rewrite Qcmult_1_l. apply Qcinv_pos.
    apply Qclt_minus_iff. rewrite Qcplus_0_r. unfold Qcminus.
    apply Qcplus_pos_nonneg; [done|].
    apply Qcle_minus_iff in Hx. by rewrite Qcplus_0_l in Hx.
  - apply Qcnot_le_lt in Hx. by apply Qcplus_pos_pos.
Qed.

Lemma rational_exp_0 : rational_exp 0%Qc = 1%Qc.
Proof. by apply Qc_is_canon. Qed.

Lemma wf_grid_12 : wf grid_12.
Proof. wf_evaluation. Qed.
Lemma wf_grid_555 : wf grid_555.
Proof. wf_evaluation. Qed.
Lemma wf_grid_127 : wf grid_127.
Proof. wf_evaluation. Qed.
Lemma wf_grid_2x2 : wf grid_2x2.
Proof. wf_evaluation. Qed.
Lemma wf_grid_3x3 : wf grid_3x3.
Proof. wf_evaluation. Qed.
Lemma wf_grid_flat_3x3 : wf grid_flat_3x3.
Proof. wf_evaluation. Qed.
Lemma wf_mask_fft : wf mask_fft.
Proof. wf_evaluation. Qed.
Lemma wf_mask_ttt : wf mask_ttt.
Proof. wf_evaluation. Qed.
Lemma wf_mask_3x3 : wf mask_3x3.
Proof. wf_evaluation. Qed.

Lemma kernel_qhq_positive : all_elements (λ x, 0 < x)%Qc kernel_qhq.
Proof. repeat constructor. Qed.

Lemma kernel_qhq_sum : np_sum kernel_qhq = 1%Qc.
Proof. by apply Qc_is_canon. Qed.

Lemma quarter_nonzero : q 1 4 ≠ 0%Qc.
Proof. intros E. apply (f_equal this) in E. discriminate E. Qed.

Lemma tile_and_reflect_returns_witness :
  wf grid_12 ∧ tile_and_reflect grid_12 = Ok tiled_12
  ∧ shape tiled_12 = (3 * shape0 grid_12, 3 * shape1 grid_12)%nat
  ∧ cell tiled_12 0 0 = cell grid_12 (refl 1 0) (refl 2 0).
Proof.
  assert (Hrun : tile_and_reflect grid_12 = Ok tiled_12) by by_evaluation.
  split; [exact wf_grid_12|]. split; [exact Hrun|].
  destruct (tile_and_reflect_returns grid_12 tiled_12 wf_grid_12 Hrun)
    as (_ & _ & Hshape & Hcells).
  split; [exact Hshape|]. apply Hcells; simpl; lia.
Defined.

Lemma tile_and_reflect_errors_witness :
  wf grid_nan ∧ (0 < shape0 grid_nan)%nat ∧ (0 < shape1 grid_nan)%nat
  ∧ ¬ self_equal grid_nan
  ∧ tile_and_reflect grid_nan = Raise AssertionError.
Proof.
  assert (Hwf : wf grid_nan) by wf_evaluation.
  assert (Hnan : ¬ self_equal grid_nan).
  { intros H. apply Forall_cons in H as [H _]. apply Forall_cons in H as [H _].
    discriminate H. }
  split; [exact Hwf|]. split; [simpl; lia|]. split; [simpl; lia|]. split; [exact Hnan|].
  apply (proj2 (tile_and_reflect_errors grid_nan Hwf)); [simpl; lia|simpl; lia|exact Hnan].
Defined.

Lemma tile_and_reflect_mirrored_at_seams_witness :
  wf grid_12 ∧ tile_and_reflect grid_12 = Ok tiled_12
  ∧ cell tiled_12 0 1 = cell tiled_12 0 2
  ∧ cell tiled_12 0 4 = cell tiled_12 0 3.
Proof.
  assert (Hrun : tile_and_reflect grid_12 = Ok tiled_12) by by_evaluation.
  split; [exact wf_grid_12|]. split; [exact Hrun|].
  apply (proj2 (tile_and_reflect_mirrored_at_seams grid_12 tiled_12 wf_grid_12 Hrun)
           0%nat 0%nat); simpl; lia.
Defined.


Lemma convolve_windowed_even_kernel_witness :
  wf grid_2x2
  ∧ (shape0 kernel_2x2 < shape0 grid_2x2 + 1)%nat
  ∧ (shape1 kernel_2x2 < shape1 grid_2x2 + 1)%nat
  ∧ Nat.odd (shape0 kernel_2x2) = false
  ∧ convolve grid_2x2 kernel_2x2 None false = Raise AssertionError.
Proof.
  split; [exact wf_grid_2x2|]. split; [simpl; lia|]. split; [simpl; lia|].
  split; [reflexivity|].
  apply (convolve_windowed_even_kernel grid_2x2 kernel_2x2 wf_grid_2x2);
    [simpl; lia..|left; reflexivity].
Defined.

Lemma convolve_empty_grid_witness :
  wf grid_0x3 ∧ shape0 grid_0x3 = 0%nat
  ∧ (convolve grid_0x3 kernel_qhq None true = Raise AssertionError
     ∨ convolve grid_0x3 kernel_qhq None true = Raise IndexError).
Proof.
  assert (Hwf : wf grid_0x3) by (split; [reflexivity|constructor]).
  split; [exact Hwf|]. split; [reflexivity|].
  apply (convolve_empty_grid grid_0x3 kernel_qhq None true Hwf);
    [intros m Hm; discriminate Hm|left; reflexivity].
Defined.

Lemma convolve_keeps_shape_witness :
  wf grid_124
  ∧ convolve grid_124 kernel_qhq None true = Ok (NdArray 1 3 [[q 5 4; q 9 4; q 7 2]])
  ∧ shape (NdArray 1 3 [[q 5 4; q 9 4; q 7 2]]) = shape grid_124.
Proof.
  assert (Hrun : convolve grid_124 kernel_qhq None true
                 = Ok (NdArray 1 3 [[q 5 4; q 9 4; q 7 2]])) by by_evaluation.
  split; [exact wf_grid_124|]. split; [exact Hrun|].
  exact (proj2 (convolve_keeps_shape grid_124 kernel_qhq None true _ wf_grid_124 Hrun)).
Defined.




Lemma masked_points_agree :
  ∀ io jo, cell mask_fft io jo = Some false → cell grid_124 io jo = cell grid_127 io jo.
Proof. intros [|io] [|[|[|jo]]]; by cbn. Qed.




Lemma kernel_qhq_nonneg : all_elements (λ x, 0 ≤ x)%Qc kernel_qhq.
Proof. repeat constructor; discriminate. Qed.

Lemma grid_124_bounds : all_elements (λ x, q 1 1 ≤ x ∧ x ≤ q 4 1)%Qc grid_124.
Proof. repeat constructor; discriminate. Qed.



Lemma gaussian_kernel_symmetric_witness :
  q 1 4 ≠ 0%Qc
  ∧ cell (gaussian_kernel rational_exp (q 1 4) (q 4 1)) 1 2
    = cell (gaussian_kernel rational_exp (q 1 4) (q 4 1)) 2 1.
Proof.
  split; [exact quarter_nonzero|].
  exact (proj1 (gaussian_kernel_symmetric rational_exp (q 1 4) (q 4 1) quarter_nonzero
                  1 0 ltac:(vm_compute; split; discriminate)
                  ltac:(vm_compute; split; discriminate))).
Defined.




Lemma smoothed_array_small_raster_witness :
  kernel_radius (q 9 10) (Qc_of_Z 4) = 4
  ∧ Z.of_nat (shape0 grid_124) < 2 * 4 + 1
  ∧ smoothed_array rational_exp "numpy" grid_124 "numpy" (q 9 10) = Raise AssertionError.
Proof.
  split; [reflexivity|]. split; [simpl; lia|].
  apply (smoothed_array_small_raster rational_exp "numpy" grid_124 (q 9 10)).
  left. vm_compute. reflexivity.
Defined.




Lemma grid_3x3_bounds : all_elements (λ x, q 1 1 ≤ x ∧ x ≤ q 9 1)%Qc grid_3x3.
Proof. repeat constructor; discriminate. Qed.


Lemma create_contour_releases_witness :
  let run := create_contour rational_exp "numpy" dirname_maps basename_same splitext_none
               join_slash "out.geojson" 1 "none" (q 9 10) (quiet_world grid_124) [] in
  length (calls_of is_release run.2) = length (calls_of is_contour_generate run.2)
  ∧ (length (calls_of is_contour_generate run.2) ≤ 1)%nat.
Proof.
  intros run.
  apply (create_contour_releases rational_exp "numpy" dirname_maps basename_same
           splitext_none join_slash (quiet_world grid_124) "out.geojson" 1 "none" (q 9 10)
           run.1 run.2).
  apply surjective_pairing.
Defined.


Lemma create_contour_error_wrapped_witness :
  create_contour rational_exp "numpy" dirname_maps basename_same splitext_none join_slash
    "out.geojson" 1 "none" (q 9 10) (world_without_datasource grid_124) []
  = (Failed (ContourCreationError (could_not_create_datasource "out.geojson")),
     [LayerSource; GdalOpen "/maps/shake.tif"; GetRasterBand 1%nat 1; ReadAsArray 2%nat;
      GetDriverByName "ESRI Shapefile"; CreateDataSource 3%nat "out.geojson"])
  ∧ calls_of is_copy_file
      [LayerSource; GdalOpen "/maps/shake.tif"; GetRasterBand 1%nat 1; ReadAsArray 2%nat;
       GetDriverByName "ESRI Shapefile"; CreateDataSource 3%nat "out.geojson"] = [].
Proof.
  assert (Hrun : create_contour rational_exp "numpy" dirname_maps basename_same
                   splitext_none join_slash "out.geojson" 1 "none" (q 9 10)
                   (world_without_datasource grid_124) []
                 = (Failed (ContourCreationError (could_not_create_datasource "out.geojson")),
                    [LayerSource; GdalOpen "/maps/shake.tif"; GetRasterBand 1%nat 1;
                     ReadAsArray 2%nat; GetDriverByName "ESRI Shapefile";
                     CreateDataSource 3%nat "out.geojson"])) by reflexivity.
  split; [exact Hrun|].
  exact (proj1 (create_contour_error_wrapped rational_exp "numpy" dirname_maps
                  basename_same splitext_none join_slash (world_without_datasource grid_124)
                  "out.geojson" 1 "none" (q 9 10) _ _ Hrun)).
Defined.

Lemma create_contour_returns_witness :
  let run := create_contour rational_exp "numpy" dirname_maps basename_same splitext_none
               join_slash "" 1 "none" (q 9 10) (quiet_world grid_124) [] in
  run.1 = Done "/maps//maps/shake.tif-contour.geojson"
  ∧ length (calls_of is_release run.2) = 1%nat.
Proof.
  intros run.
  assert (Hrun : run.1 = Done "/maps//maps/shake.tif-contour.geojson") by reflexivity.
  split; [exact Hrun|].
  assert (Hpair : run = (Done "/maps//maps/shake.tif-contour.geojson", run.2))
    by (rewrite <- Hrun; apply surjective_pairing).
  exact (proj1 (proj2 (proj2 (proj2
    (create_contour_returns rational_exp "numpy" dirname_maps basename_same
       splitext_none join_slash (quiet_world grid_124) "" 1 "none" (q 9 10) _ _ Hpair))))).
Defined.

Lemma create_contour_small_raster_witness :
  let run := create_contour rational_exp "numpy" dirname_maps basename_same splitext_none
               join_slash "out.geojson" 1 "numpy" (q 9 10) (quiet_world grid_124) [] in
  (∀ h band, quiet_world grid_124 h (ReadAsArray band) = Returns grid_124)
  ∧ Z.of_nat (shape0 grid_124) < 2 * kernel_radius (q 9 10) (Qc_of_Z 4) + 1
  ∧ (∀ p, run.1 ≠ Done p) ∧ Forall (λ c, is_read c = true) run.2.
Proof.
  intros run.
  assert (Hworld : ∀ h band, quiet_world grid_124 h (ReadAsArray band) = Returns grid_124)
    by (intros; reflexivity).
  assert (Hsmall : Z.of_nat (shape0 grid_124) < 2 * kernel_radius (q 9 10) (Qc_of_Z 4) + 1)
    by (vm_compute; reflexivity).
  split; [exact Hworld|]. split; [exact Hsmall|].
  apply (create_contour_small_raster rational_exp "numpy" dirname_maps basename_same
           splitext_none join_slash (quiet_world grid_124) grid_124 "out.geojson" 1
           (q 9 10) run.1 run.2 Hworld (or_introl Hsmall)).
  apply surjective_pairing.
Defined.
